(** * lamoda_parser: the two crawl loops and their checkpoints

    A shallow embedding of [src/product_links_parser.py] (module [Links]),
    [src/main_parser.py] (module [Details]) and
    [src/infinity_run_parser_products.py] (module [Supervisor]).

    What lies outside the repository is a parameter of the model, gathered
    in a [World] record per script: the browser session, [requests], the
    random source and BeautifulSoup's view of a page.  An answer that may
    change from one call to the next is indexed by the number of calls made
    so far.  A call is allowed to raise exactly where the source wraps it in
    a handler; elsewhere it is taken to return.  Three calls that stand
    outside every handler have a second model in which they raise:
    [driver.get] in the collector, and [time.sleep] and the restart of the
    driver in the fetcher's [get_page_html].  The file system is taken to
    be reliable: [open], [os.makedirs], [json.dump] and [os.remove] return,
    and a file reads back as it was written.  Exceptions are those deriving
    from [Exception]; an interrupt from outside is seen as a run cut short
    between two turns of its loop.  Durations are rationals, so the
    rounding of Python's floats is not represented.  Every [print],
    [time.sleep], request and file write is appended to a trace, in
    program order.  The loop of the supervisor has no exit: its model
    gives what it has done after any number of turns. *)

From Stdlib Require Import ZArith QArith Lia Lqa Sorted.
From stdpp Require Import base option list strings pretty.

Open Scope string_scope.
Open Scope list_scope.
Open Scope Z_scope.

(** Python truthiness of a [str] and of an [Optional]. *)
Definition truthy_str (s : string) : bool :=
  match s with "" => false | _ => true end.

Definition truthy_opt_str (o : option string) : bool :=
  match o with Some s => truthy_str s | None => false end.

Definition truthy_opt_int (o : option Z) : bool :=
  match o with Some n => negb (n =? 0) | None => false end.

(** [len(l)] as a Python int. *)
Definition len {A} (l : list A) : Z := Z.of_nat (length l).

(** [x in l] for a list of strings. *)
Definition py_in (x : string) (l : list string) : bool := bool_decide (x ∈ l).

(* ================================================================== *)
(** ** product_links_parser.py *)
(* ================================================================== *)

Module Links.

Record ParserConfig := {
  base_url : string;
  start_page : Z;
  end_page : option Z;
  min_links : Z;
  max_links : Z;
  output_file : string;
  checkpoint_file : string;
  request_delay : Q;
  use_selenium : bool;
  headless : bool;
  timeout : Z
}.

(** The JSON object kept in [checkpoint_file].  [save_checkpoint] always
    writes both keys; [load_checkpoint] reads each with a default. *)
Record checkpoint := {
  cp_links : option (list string);
  cp_current_page : option Z
}.

(** What [parse_links_from_html] asks of the parsed page: the first
    [div.grid__catalog], if any, and inside it the [href] of every
    [a.x-product-card__pic], in document order ([None]: no such
    attribute). *)
Record soup := {
  grid : option (list (option string))
}.

Record World := {
  (** selenium: [WebDriverWait(...).until(...)] then [page_source];
      [None] when the wait raises *)
  wait_page_source : nat -> string -> option string;
  (** [requests.get], [raise_for_status], [.text]; [None] when one raises *)
  requests_get : nat -> string -> option string;
  (** [BeautifulSoup(html, 'html.parser')], seen through the queries above *)
  BeautifulSoup : string -> soup
}.

Inductive message :=
| LoadedCheckpoint (n_links : Z) (page : Z)
| StartingFrom (page : Z)
| ReachedMaximum (limit : Z)
| ProcessingPage (page : Z) (url : string)
| ErrorLoadingPage (url : string)
| ErrorFetchingPage (url : string)
| FailedToGetPage (page : Z)
| NoNewLinksFound (page : Z)
| FoundNewLinks (n_new : Z) (total : Z)
| ReachedTargetPage (page : Z)
| FinishedParsing (total : Z).

Inductive event :=
| EPrint (m : message)
| ESleep (seconds : Q)
(** a page request together with what the fetcher got back *)
| EGet (url : string) (response : option string)
| EWriteCheckpoint (cp : checkpoint)
| EWriteResults (links : list string).

Record state := {
  collected_links : list string;
  current_page : Z;
  fetches : nat;
  checkpoint_on_disk : option checkpoint;
  output_on_disk : option (list string);
  trace : list event
}.

Definition emit (e : event) (s : state) : state :=
  {| collected_links := collected_links s;
     current_page := current_page s;
     fetches := fetches s;
     checkpoint_on_disk := checkpoint_on_disk s;
     output_on_disk := output_on_disk s;
     trace := trace s ++ [e] |}.

Definition print (m : message) : state -> state := emit (EPrint m).

Definition set_progress (links : list string) (page : Z) (s : state) : state :=
  {| collected_links := links;
     current_page := page;
     fetches := fetches s;
     checkpoint_on_disk := checkpoint_on_disk s;
     output_on_disk := output_on_disk s;
     trace := trace s |}.

(** [__init__], started on a disk holding [cp] and [out]. *)
Definition init (config : ParserConfig) (cp : option checkpoint)
    (out : option (list string)) : state :=
  {| collected_links := [];
     current_page := start_page config;
     fetches := 0;
     checkpoint_on_disk := cp;
     output_on_disk := out;
     trace := [] |}.

Definition load_checkpoint (config : ParserConfig) (s : state) : bool * state :=
  match checkpoint_on_disk s with
  | Some data =>
      let links := default [] (cp_links data) in
      let page := default (start_page config) (cp_current_page data) in
      (true, print (LoadedCheckpoint (len links) page) (set_progress links page s))
  | None => (false, s)
  end.

Definition save_checkpoint (s : state) : state :=
  let data := {| cp_links := Some (collected_links s);
                 cp_current_page := Some (current_page s) |} in
  emit (EWriteCheckpoint data)
    {| collected_links := collected_links s;
       current_page := current_page s;
       fetches := fetches s;
       checkpoint_on_disk := Some data;
       output_on_disk := output_on_disk s;
       trace := trace s |}.

Definition save_results (s : state) : state :=
  emit (EWriteResults (collected_links s))
    {| collected_links := collected_links s;
       current_page := current_page s;
       fetches := fetches s;
       checkpoint_on_disk := checkpoint_on_disk s;
       output_on_disk := Some (collected_links s);
       trace := trace s |}.

Definition request (url : string) (response : option string) (s : state) : state :=
  emit (EGet url response)
    {| collected_links := collected_links s;
       current_page := current_page s;
       fetches := S (fetches s);
       checkpoint_on_disk := checkpoint_on_disk s;
       output_on_disk := output_on_disk s;
       trace := trace s |}.

(** [get_page_html] when [self.driver.get(url)] returns; with selenium,
    [None] is the wait for the grid raising, inside the [try].  The call
    that raises is [get_page_html_nav], further down. *)
Definition get_page_html (w : World) (config : ParserConfig) (url : string)
    (s : state) : option string * state :=
  let s := emit (ESleep (request_delay config)) s in
  if use_selenium config then
    match wait_page_source w (fetches s) url with
    | Some source => (Some source, request url (Some source) s)
    | None => (None, print (ErrorLoadingPage url) (request url None s))
    end
  else
    match requests_get w (fetches s) url with
    | Some text => (Some text, request url (Some text) s)
    | None => (None, print (ErrorFetchingPage url) (request url None s))
    end.

(** One turn of the [for card in product_cards] loop. *)
Definition add_card (collected : list string) (product_links : list string)
    (href : option string) : list string :=
  match href with
  | Some h =>
      if truthy_str h && String.prefix "/p/" h then
        let full_url := "https://www.lamoda.ru" +:+ h in
        if negb (py_in full_url product_links) && negb (py_in full_url collected)
        then product_links ++ [full_url]
        else product_links
      else product_links
  | None => product_links
  end.

Definition parse_links_from_html (w : World) (html : string)
    (collected : list string) : list string :=
  match grid (BeautifulSoup w html) with
  | None => []
  | Some product_cards => fold_left (add_card collected) product_cards []
  end.

(** The four [break]s of [run], named after what they print. *)
Inductive stop :=
| MaxReached
| FetchFailed
| NoNewLinks
| TargetPageReached.

Inductive turn :=
| Break (why : stop) (s : state)
| Continue (s : state).

Definition page_url (config : ParserConfig) (page : Z) : string :=
  if page =? 1 then base_url config
  else base_url config +:+ "?page=" +:+ pretty page.

(** The body of [while True]. *)
Definition loop_body (w : World) (config : ParserConfig) (s : state) : turn :=
  if max_links config <=? len (collected_links s) then
    Break MaxReached (print (ReachedMaximum (max_links config)) s)
  else
    let url := page_url config (current_page s) in
    let s := print (ProcessingPage (current_page s) url) s in
    let '(html, s) := get_page_html w config url s in
    match html with
    | None => Break FetchFailed (print (FailedToGetPage (current_page s)) s)
    | Some text =>
      if negb (truthy_str text) then
        Break FetchFailed (print (FailedToGetPage (current_page s)) s)
      else
        let new_links := parse_links_from_html w text (collected_links s) in
        match new_links with
        | [] => Break NoNewLinks (print (NoNewLinksFound (current_page s)) s)
        | _ :: _ =>
          let s := set_progress (collected_links s ++ new_links) (current_page s) s in
          let s := print (FoundNewLinks (len new_links) (len (collected_links s))) s in
          let s := save_checkpoint s in
          if (min_links config <=? len (collected_links s))
             && truthy_opt_int (end_page config)
             && (default 0 (end_page config) <=? current_page s)
          then Break TargetPageReached
                 (print (ReachedTargetPage (default 0 (end_page config))) s)
          else Continue (set_progress (collected_links s) (current_page s + 1) s)
        end
    end.

(** [while True], cut after [fuel] turns; [inl] carries the state reached
    when the fuel is gone, i.e. a run interrupted between two turns. *)
Fixpoint while_true (fuel : nat) (w : World) (config : ParserConfig)
    (s : state) : state + stop * state :=
  match fuel with
  | O => inl s
  | S fuel' =>
      match loop_body w config s with
      | Break why s' => inr (why, s')
      | Continue s' => while_true fuel' w config s'
      end
  end.

(** Every turn that does not stop adds a link, and the loop stops once
    [max_links] are held: this many turns are enough. *)
Definition turns_needed (config : ParserConfig) (s : state) : nat :=
  S (Z.to_nat (max_links config - len (collected_links s))).

Definition run (w : World) (config : ParserConfig) (s : state)
    : option (stop * state) :=
  let '(_, s) := load_checkpoint config s in
  let s := print (StartingFrom (current_page s)) s in
  match while_true (turns_needed config s) w config s with
  | inl _ => None
  | inr (why, s) =>
      let s := save_results s in
      Some (why, print (FinishedParsing (len (collected_links s))) s)
  end.

(** A run killed after [turns] complete turns of the loop: what it leaves
    on disk. *)
Definition interrupted (turns : nat) (w : World) (config : ParserConfig)
    (s : state) : state :=
  let '(_, s) := load_checkpoint config s in
  let s := print (StartingFrom (current_page s)) s in
  match while_true turns w config s with
  | inl s' => s'
  | inr (_, s') => s'
  end.

(** The requests of a trace, oldest first. *)
Definition requested (tr : list event) : list string :=
  omap (fun e => match e with EGet url _ => Some url | _ => None end) tr.

(** The pages a trace got back and parsed. *)
Definition parsed_pages (tr : list event) : list string :=
  omap (fun e => match e with
                 | EGet _ (Some text) => if truthy_str text then Some text else None
                 | _ => None
                 end) tr.

Definition sleeps (tr : list event) : list Q :=
  omap (fun e => match e with ESleep d => Some d | _ => None end) tr.

(** All product URLs a page shows, in document order, repeats included. *)
Definition page_urls (w : World) (html : string) : list string :=
  match grid (BeautifulSoup w html) with
  | None => []
  | Some cards =>
      omap (fun href => match href with
                        | Some h => if truthy_str h && String.prefix "/p/" h
                                    then Some ("https://www.lamoda.ru" +:+ h)
                                    else None
                        | None => None
                        end) cards
  end.

(** Spec-side reading of "no duplicates, first-seen order": keep the
    first occurrence of every element of a stream. *)
Definition keep (acc : list string) (x : string) : list string :=
  if py_in x acc then acc else acc ++ [x].

Definition first_seen (stream : list string) : list string :=
  fold_left keep stream [].

(** The links a checkpoint file hands to the next run. *)
Definition cp_links_of (cp : option checkpoint) : list string :=
  default [] (cp ≫= cp_links).

(** Every product URL a trace has seen on the pages it parsed. *)
Definition seen (w : World) (tr : list event) : list string :=
  flat_map (page_urls w) (parsed_pages tr).

Definition turn_state (t : turn) : state :=
  match t with Break _ s | Continue s => s end.

Definition turn_stop (t : turn) : option stop :=
  match t with Break why _ => Some why | Continue _ => None end.

(** What every state of a run satisfies, [base] being the links the run
    started from. *)
Definition inv (w : World) (base : list string) (s : state) : Prop :=
  NoDup (collected_links s)
  ∧ NoDup (cp_links_of (checkpoint_on_disk s))
  ∧ collected_links s = fold_left keep (seen w (trace s)) base.

(** Spec-side reading of "checked in order, first true wins". *)
Definition first_true (a b c d : bool) : option stop :=
  if a then Some MaxReached
  else if b then Some FetchFailed
  else if c then Some NoNewLinks
  else if d then Some TargetPageReached
  else None.

(** What the site answers to the request of the turn that starts in [s]. *)
Definition answer (w : World) (config : ParserConfig) (s : state)
    : option string :=
  let url := page_url config (current_page s) in
  if use_selenium config then wait_page_source w (fetches s) url
  else requests_get w (fetches s) url.

(** The links that turn adds when the page comes back. *)
Definition new_links_of (w : World) (config : ParserConfig) (s : state)
    : list string :=
  match answer w config s with
  | Some text => parse_links_from_html w text (collected_links s)
  | None => []
  end.

(** Condition (d), on the count reached after the page is appended. *)
Definition target_reached (config : ParserConfig) (count : Z) (page : Z) : bool :=
  (min_links config <=? count)
  && truthy_opt_int (end_page config)
  && (default 0 (end_page config) <=? page).

(** In a trace: once a page has brought the count to [limit], nothing more
    is requested, and the count is less than one page above [limit]. *)
Fixpoint quiet_when_full (limit : Z) (tr : list event) : Prop :=
  match tr with
  | [] => True
  | e :: tr' =>
      match e with
      | EPrint (FoundNewLinks k total) =>
          limit <= total -> requested tr' = [] ∧ total < limit + k
      | _ => True
      end ∧ quiet_when_full limit tr'
  end.

(** Every request of [tr] comes after a sleep that [ok] accepts, with no
    other request in between; [armed] tells whether such a sleep is
    pending when [tr] starts. *)
Fixpoint paced (ok : Q -> Prop) (armed : Prop) (tr : list event) : Prop :=
  match tr with
  | [] => True
  | ESleep d :: tr' => paced ok (armed ∨ ok d) tr'
  | EGet _ _ :: tr' => armed ∧ paced ok False tr'
  | _ :: tr' => paced ok armed tr'
  end.

(** Checkpoints that some sequence of collector runs, completed or
    interrupted, can have left on disk. *)
Inductive persisted : option checkpoint -> Prop :=
| persisted_fresh : persisted None
| persisted_by_run cp w config out turns :
    persisted cp ->
    persisted (checkpoint_on_disk (interrupted turns w config (init config cp out))).


(** The product URL a card stands for, if its [href] is one. *)
Definition card_url (href : option string) : option string :=
  match href with
  | Some h => if truthy_str h && String.prefix "/p/" h
              then Some ("https://www.lamoda.ru" +:+ h) else None
  | None => None
  end.

(** The page a run starts its loop on, given the checkpoint file it finds. *)
Definition first_page (config : ParserConfig) (cp : option checkpoint) : Z :=
  match cp with
  | Some data => default (start_page config) (cp_current_page data)
  | None => start_page config
  end.

(** The state in which the loop of [run] starts. *)
Definition started (config : ParserConfig) (cp : option checkpoint)
    (out : option (list string)) : state :=
  let s := (load_checkpoint config (init config cp out)).2 in
  print (StartingFrom (current_page s)) s.

(** The state a loop has reached, stopped or cut. *)
Definition reached (r : state + stop * state) : state :=
  match r with inl s | inr (_, s) => s end.

(** A product URL of the shop: the site followed by a path under [/p/]. *)
Definition product_url (x : string) : Prop :=
  ∃ h, x = "https://www.lamoda.ru" +:+ h ∧ String.prefix "/p/" h = true.

(** What a stop of the loop tells about the state it leaves. *)
Definition stop_guarantee (config : ParserConfig) (why : stop) (s : state) : Prop :=
  match why with
  | MaxReached => max_links config <= len (collected_links s)
  | TargetPageReached =>
      min_links config <= len (collected_links s)
      ∧ ∃ target, end_page config = Some target
                  ∧ target ≠ 0
                  ∧ target <= current_page s
  | FetchFailed | NoNewLinks => len (collected_links s) < max_links config
  end.

(** *** When the navigation raises

    In its selenium branch [get_page_html] calls [self.driver.get(url)]
    before its [try]: what that call raises is caught nowhere and leaves
    [run].  The definitions above take the call to return.  The ones
    below let it raise: [loads t url] tells whether the call made at
    instant [t] returns. *)









End Links.

(* ================================================================== *)
(** ** main_parser.py *)
(* ================================================================== *)

Module Details.

(** What [json.load] returns. *)
#[local] Set Warnings "-register-all".
Inductive json :=
| JNull
| JBool (b : bool)
| JInt (n : Z)
| JFloat (q : Q)
| JString (s : string)
| JArray (items : list json)
| JObject (members : list (string * json)).
#[local] Set Warnings "register-all".

(** The exceptions the script can meet; all derive from [Exception]. *)
Inductive exn :=
| IndexError
| AttributeError
| ValueError
| JSONDecodeError
| OSError
| WebDriverException
| TimeoutException
| RequestException
| ParserRejectedMarkup.

Record ProductData := {
  url : string;
  price : option string;
  old_price : option string;
  description : option string;
  attributes : list (string * string)
}.

Record ParserConfig := {
  input_file : string;
  result_dir : string;
  checkpoint_dir : string;
  start_from : Z;
  max_products : option Z;
  request_delay : Q;
  use_selenium : bool;
  headless : bool;
  timeout : Z
}.

(** The block [div#reviews-and-questions]: the text of its description
    [div], and for every [p._item_ajirn_2] the texts of its name and value
    [span]s ([None]: no such element). *)
Record info_block := {
  description_div : option string;
  items : list (option string * option string)
}.

(** What the script asks of a parsed product page: the stripped texts of
    the [span._price_g09b8_11] elements, the info block, and for every
    gallery [div] its first [img] and that image's [src]. *)
Record soup := {
  price_elements : list string;
  reviews_and_questions : option info_block;
  gallery : list (option (option string))
}.

Record World := {
  (** [random.uniform(a, b)] *)
  uniform : nat -> Q -> Q -> Q;
  (** [self.driver.current_url] *)
  current_url : nat -> exn + string;
  (** [driver.get(url)], the wait for [#reviews-and-questions], [page_source] *)
  navigate : nat -> string -> exn + string;
  (** [requests.get(url, ...)], [raise_for_status()], [.text] *)
  requests_text : nat -> string -> exn + string;
  (** [BeautifulSoup(html, 'html.parser')], seen through the queries above *)
  BeautifulSoup : string -> exn + soup;
  (** [urljoin(base_url, src)]; it rejects some malformed URLs *)
  urljoin : string -> string -> exn + string;
  (** [requests.get(img_url, timeout=10)]: [status_code] and [content] *)
  requests_image : nat -> string -> exn + Z * string;
  (** [os.path.splitext(p)[1]] *)
  splitext : string -> string
}.

(** Files the script touches: [checkpoint_dir/checkpoint.json], the folder
    [result_dir/<index>] and the files inside it. *)
Inductive path :=
| CheckpointJson
| ProductDir (index : Z)
| ProductFile (index : Z) (name : string).

#[global] Instance path_eq_dec : EqDecision path.
Proof. solve_decision. Defined.

Inductive content :=
| Dir
| Json (document : json)
| Bytes (body : string)
(** text that is not a JSON document, e.g. a truncated file *)
| Garbled (text : string).

Inductive message :=
| ResumingFrom (index : Z)
| CheckpointReadError (e : exn)
| SeleniumError (url : string) (e : exn)
| RequestsError (url : string) (e : exn)
| StartingAt (index : Z) (total : Z)
| Item (position : Z) (total : Z) (url : string)
| SkipAfterFetchError (index : Z)
| ItemError (index : Z) (e : exn)
| AttemptFailed (attempt : Z) (img_url : string) (e : exn)
| AllProcessed.

Inductive event :=
| EPrint (m : message)
| ESleep (seconds : Q)
| ERestartDriver
| EGetPage (url : string)
| EGetImage (img_url : string)
| EWrite (p : path) (c : content)
| ERemove (p : path).

Record state := {
  product_links : list string;
  current_index : Z;
  clock : nat;
  (** the JSON array of URLs in [config.input_file] *)
  input_links : list string;
  fs : path -> option content;
  trace : list event
}.

(** *** A small state-and-exception monad *)

Inductive result (A : Type) :=
| Ret (a : A)
| Raise (e : exn).
Arguments Ret {A} a.
Arguments Raise {A} e.

Definition M (A : Type) : Type := state -> result A * state.

Definition ret {A} (a : A) : M A := fun s => (Ret a, s).

Definition raise {A} (e : exn) : M A := fun s => (Raise e, s).

Definition bind {A B} (m : M A) (k : A -> M B) : M B :=
  fun s =>
    match m s with
    | (Ret a, s') => k a s'
    | (Raise e, s') => (Raise e, s')
    end.

(** [try: body  except Exception as e: handler]; what [body] did before
    raising stays done. *)
Definition try_except {A} (body : M A) (handler : exn -> M A) : M A :=
  fun s =>
    match body s with
    | (Ret a, s') => (Ret a, s')
    | (Raise e, s') => handler e s'
    end.

Declare Scope py_scope.
Delimit Scope py_scope with py.
Notation "x <- m ;; k" := (bind m (fun x => k))
  (at level 100, m at next level, k at level 200, right associativity) : py_scope.
Notation "m ;; k" := (bind m (fun _ => k))
  (at level 100, k at level 200, right associativity) : py_scope.
Open Scope py_scope.

Definition get : M state := fun s => (Ret s, s).

Definition lift {A} (r : exn + A) : M A :=
  match r with inl e => raise e | inr a => ret a end.

Definition emit (e : event) : M unit :=
  fun s =>
    (Ret tt,
     {| product_links := product_links s; current_index := current_index s;
        clock := clock s; input_links := input_links s; fs := fs s;
        trace := trace s ++ [e] |}).

Definition print (m : message) : M unit := emit (EPrint m).

Definition sleep (seconds : Q) : M unit := emit (ESleep seconds).

(** Ask the world, at the current instant, and let time pass. *)
Definition ask {A} (oracle : nat -> A) : M A :=
  fun s =>
    (Ret (oracle (clock s)),
     {| product_links := product_links s; current_index := current_index s;
        clock := S (clock s); input_links := input_links s; fs := fs s;
        trace := trace s |}).

Definition call {A} (oracle : nat -> exn + A) : M A :=
  r <- ask oracle ;; lift r.

Definition set_product_links (links : list string) : M unit :=
  fun s =>
    (Ret tt,
     {| product_links := links; current_index := current_index s;
        clock := clock s; input_links := input_links s; fs := fs s;
        trace := trace s |}).

Definition set_current_index (index : Z) : M unit :=
  fun s =>
    (Ret tt,
     {| product_links := product_links s; current_index := index;
        clock := clock s; input_links := input_links s; fs := fs s;
        trace := trace s |}).

Definition set_fs (files : path -> option content) : M unit :=
  fun s =>
    (Ret tt,
     {| product_links := product_links s; current_index := current_index s;
        clock := clock s; input_links := input_links s; fs := files;
        trace := trace s |}).

Definition fs_insert (p : path) (c : option content)
    (files : path -> option content) : path -> option content :=
  fun q => if decide (q = p) then c else files q.

Definition write (p : path) (c : content) : M unit :=
  s <- get ;;
  set_fs (fs_insert p (Some c) (fs s)) ;;
  emit (EWrite p c).

Definition remove (p : path) : M unit :=
  s <- get ;;
  set_fs (fs_insert p None (fs s)) ;;
  emit (ERemove p).

(** [for x in xs: body x] *)
Fixpoint for_each {A} (xs : list A) (body : A -> M unit) : M unit :=
  match xs with
  | [] => ret tt
  | x :: xs' => body x ;; for_each xs' body
  end.

(** *** Python values *)

(** [l[i]], negative indices counting from the end. *)
Definition py_index {A} (l : list A) (i : Z) : option A :=
  if 0 <=? i then l !! Z.to_nat i
  else if 0 <=? len l + i then l !! Z.to_nat (len l + i)
  else None.

(** [l[:n]] *)
Definition py_slice_to {A} (l : list A) (n : Z) : list A :=
  if 0 <=? n then take (Z.to_nat n) l
  else take (Z.to_nat (len l + n)) l.

(** [range(a, b)] *)
Definition range (a b : Z) : list Z := seqZ a (b - a).

(** [d[k]] read from the items of a dict. *)
Fixpoint dict_lookup {V} (k : string) (d : list (string * V)) : option V :=
  match d with
  | [] => None
  | (k', v) :: d' => if String.eqb k' k then Some v else dict_lookup k d'
  end.

(** [d[k] = v]: overwrite in place, or append a new key. *)
Fixpoint dict_set {V} (k : string) (v : V) (d : list (string * V))
    : list (string * V) :=
  match d with
  | [] => [(k, v)]
  | (k', v') :: d' =>
      if String.eqb k' k then (k', v) :: d' else (k', v') :: dict_set k v d'
  end.

(** [data.get(key)]: only a dict has the method; a missing key gives
    [None]. *)
Definition py_get (data : json) (key : string) : exn + json :=
  match data with
  | JObject members => inr (default JNull (dict_lookup key members))
  | _ => inl AttributeError
  end.

(** [isinstance(v, int)]; [bool] is a subclass of [int]. *)
Definition isinstance_int (v : json) : bool :=
  match v with
  | JInt _ | JBool _ => true
  | _ => false
  end.

(** The value of an [int] instance in arithmetic. *)
Definition int_value (v : json) : Z :=
  match v with
  | JInt n => n
  | JBool true => 1
  | _ => 0
  end.

Definition json_of_opt (o : option string) : json :=
  match o with Some s => JString s | None => JNull end.

(** [asdict(pd)] *)
Definition asdict (pd : ProductData) : json :=
  JObject [("url", JString (url pd));
           ("price", json_of_opt (price pd));
           ("old_price", json_of_opt (old_price pd));
           ("description", json_of_opt (description pd));
           ("attributes",
            JObject (map (fun kv => (fst kv, JString (snd kv))) (attributes pd)))].

(** [json.load] of a file with this content. *)
Definition json_load (c : content) : exn + json :=
  match c with
  | Json document => inr document
  | Dir => inl OSError
  | Bytes _ | Garbled _ => inl JSONDecodeError
  end.

Definition last_index_document (index : Z) : content :=
  Json (JObject [("last_index", JInt index)]).

(** *** The class *)

(** [__init__], on a disk holding [files] and the link list [input]. *)
Definition init (config : ParserConfig) (input : list string)
    (files : path -> option content) : state :=
  {| product_links := [];
     current_index := start_from config;
     clock := 0;
     input_links := input;
     fs := files;
     trace := [] |}.

Definition load_links (config : ParserConfig) : M unit :=
  s <- get ;;
  set_product_links (input_links s) ;;
  if truthy_opt_int (max_products config) then
    s <- get ;;
    set_product_links
      (py_slice_to (product_links s) (default 0 (max_products config)))
  else ret tt.

Definition load_checkpoint (config : ParserConfig) : M unit :=
  s <- get ;;
  match fs s CheckpointJson with
  | Some file =>
      try_except
        (data <- lift (json_load file) ;;
         last <- lift (py_get data "last_index") ;;
         if isinstance_int last then
           set_current_index (int_value last + 1) ;;
           print (ResumingFrom (int_value last + 1))
         else ret tt)
        (fun e => print (CheckpointReadError e))
  | None => ret tt
  end.

Definition save_checkpoint (config : ParserConfig) (index : Z) : M unit :=
  write CheckpointJson (last_index_document index).

(** The restart inside the bare [except], when it returns; the restart
    that raises is [restart_driver_or_raise], further down. *)
Definition restart_driver : M unit := emit ERestartDriver.

Definition get_page_html (w : World) (config : ParserConfig) (url : string)
    : M (option string) :=
  jitter <- ask (fun t => uniform w t 0 2) ;;
  sleep (request_delay config + jitter)%Q ;;
  if use_selenium config then
    try_except (call (current_url w) ;; ret tt) (fun _ => restart_driver) ;;
    try_except
      (emit (EGetPage url) ;;
       source <- call (fun t => navigate w t url) ;;
       ret (Some source))
      (fun e => print (SeleniumError url e) ;; ret None)
  else
    try_except
      (emit (EGetPage url) ;;
       text <- call (fun t => requests_text w t url) ;;
       ret (Some text))
      (fun e => print (RequestsError url e) ;; ret None).

Definition set_prices (price_elements : list string) (pd : ProductData)
    : ProductData :=
  if 2 <=? len price_elements then
    {| url := url pd;
       price := price_elements !! 1%nat;
       old_price := price_elements !! 0%nat;
       description := description pd;
       attributes := attributes pd |}
  else if negb (len price_elements =? 0) then
    {| url := url pd;
       price := price_elements !! 0%nat;
       old_price := old_price pd;
       description := description pd;
       attributes := attributes pd |}
  else pd.

Definition set_description (text : string) (pd : ProductData) : ProductData :=
  {| url := url pd; price := price pd; old_price := old_price pd;
     description := Some text; attributes := attributes pd |}.

Definition set_attribute (pd : ProductData) (item : option string * option string)
    : ProductData :=
  match item with
  | (Some name, Some val) =>
      {| url := url pd; price := price pd; old_price := old_price pd;
         description := description pd;
         attributes := dict_set name val (attributes pd) |}
  | _ => pd
  end.

Definition parse_product_page (w : World) (html : string) (page_url : string)
    : M ProductData :=
  page <- lift (BeautifulSoup w html) ;;
  let pd := {| url := page_url; price := None; old_price := None;
               description := None; attributes := [] |} in
  let pd := set_prices (price_elements page) pd in
  match reviews_and_questions page with
  | Some info =>
      let pd := match description_div info with
                | Some text => set_description text pd
                | None => pd
                end in
      ret (fold_left set_attribute (items info) pd)
  | None => ret pd
  end.

(** The [for div in ...] loop of [extract_image_urls]. *)
Fixpoint gallery_urls (w : World) (base_url : string)
    (divs : list (option (option string))) (urls : list string)
    : M (list string) :=
  match divs with
  | [] => ret urls
  | Some (Some src) :: divs' =>
      if truthy_str src then
        full <- lift (urljoin w base_url src) ;;
        gallery_urls w base_url divs' (urls ++ [full])
      else gallery_urls w base_url divs' urls
  | _ :: divs' => gallery_urls w base_url divs' urls
  end.

Definition extract_image_urls (w : World) (html : string) (base_url : string)
    : M (list string) :=
  page <- lift (BeautifulSoup w html) ;;
  gallery_urls w base_url (gallery page) [].

Definition image_name (w : World) (img_url : string) : string :=
  let ext := splitext w img_url in
  "image" +:+ (if truthy_str ext then ext else ".jpg").

(** [for attempt in range(3)] for one candidate; the result is [saved]. *)
Fixpoint try_attempts (w : World) (index : Z) (img_url : string)
    (attempts : list Z) : M bool :=
  match attempts with
  | [] => ret false
  | attempt :: attempts' =>
      saved <-
        try_except
          (emit (EGetImage img_url) ;;
           r <- call (fun t => requests_image w t img_url) ;;
           if fst r =? 200 then
             write (ProductFile index (image_name w img_url)) (Bytes (snd r)) ;;
             ret true
           else ret false)
          (fun e =>
             print (AttemptFailed (attempt + 1) img_url e) ;;
             sleep 1 ;;
             ret false) ;;
      if saved then ret true else try_attempts w index img_url attempts'
  end.

(** [for img_url in img_urls], left as soon as [saved] is set. *)
Fixpoint try_candidates (w : World) (index : Z) (img_urls : list string)
    : M bool :=
  match img_urls with
  | [] => ret false
  | img_url :: img_urls' =>
      saved <- try_attempts w index img_url (range 0 3) ;;
      if saved then ret true else try_candidates w index img_urls'
  end.

Definition save_product (w : World) (config : ParserConfig) (index : Z)
    (pd : ProductData) (html : string) : M unit :=
  write (ProductDir index) Dir ;;
  img_urls <- extract_image_urls w html (url pd) ;;
  saved <- try_candidates w index img_urls ;;
  (if saved then ret tt else write (ProductFile index "no_image.txt") (Bytes "")) ;;
  write (ProductFile index "data.json") (Json (asdict pd)).

(** What the [try] of [run] guards. *)
Definition process (w : World) (config : ParserConfig) (idx : Z)
    (html : string) (page_url : string) : M unit :=
  pd <- parse_product_page w html page_url ;;
  save_product w config idx pd html ;;
  save_checkpoint config idx.

(** The body of [for idx in range(self.current_index, total)]. *)
Definition loop_body (w : World) (config : ParserConfig) (total : Z) (idx : Z)
    : M unit :=
  s <- get ;;
  match py_index (product_links s) idx with
  | None => raise IndexError
  | Some page_url =>
      print (Item (idx + 1) total page_url) ;;
      html <- get_page_html w config page_url ;;
      match html with
      | None => print (SkipAfterFetchError idx)
      | Some text =>
          if negb (truthy_str text) then print (SkipAfterFetchError idx)
          else
            try_except
              (process w config idx text page_url)
              (fun e => print (ItemError idx e))
      end
  end.

Definition run (w : World) (config : ParserConfig) : M unit :=
  load_links config ;;
  load_checkpoint config ;;
  s <- get ;;
  let total := len (product_links s) in
  print (StartingAt (current_index s) total) ;;
  for_each (range (current_index s) total) (loop_body w config total) ;;
  s <- get ;;
  match fs s CheckpointJson with
  | Some _ => remove CheckpointJson
  | None => ret tt
  end ;;
  print AllProcessed.

(** *** Reading a trace *)

(** The indices whose turn of the loop began, oldest first. *)
Definition visited (tr : list event) : list Z :=
  omap (fun e => match e with
                 | EPrint (Item position _ _) => Some (position - 1)
                 | _ => None
                 end) tr.

Definition page_requests (tr : list event) : list string :=
  omap (fun e => match e with EGetPage u => Some u | _ => None end) tr.

Definition checkpoint_writes (tr : list event) : list content :=
  omap (fun e => match e with
                 | EWrite CheckpointJson c => Some c
                 | _ => None
                 end) tr.

Definition sleeps (tr : list event) : list Q :=
  omap (fun e => match e with ESleep d => Some d | _ => None end) tr.

(** The image requests and the pauses of a trace, in order. *)
Definition download_steps (tr : list event) : list event :=
  omap (fun e => match e with
                 | EGetImage _ | ESleep _ => Some e
                 | _ => None
                 end) tr.

(** *** Notions used to state the properties *)

(** [self.product_links] once [load_links] has run. *)
Definition loaded_links (config : ParserConfig) (input : list string)
    : list string :=
  if truthy_opt_int (max_products config)
  then py_slice_to input (default 0 (max_products config))
  else input.

(** [run] from its third line on, and the same cut after [turns] complete
    turns of the loop. *)
Definition crawl (w : World) (config : ParserConfig) : M unit :=
  s <- get ;;
  let total := len (product_links s) in
  print (StartingAt (current_index s) total) ;;
  for_each (range (current_index s) total) (loop_body w config total) ;;
  s <- get ;;
  match fs s CheckpointJson with
  | Some _ => remove CheckpointJson
  | None => ret tt
  end ;;
  print AllProcessed.

Definition crawl_cut (turns : nat) (w : World) (config : ParserConfig) : M unit :=
  s <- get ;;
  let total := len (product_links s) in
  print (StartingAt (current_index s) total) ;;
  for_each (take turns (range (current_index s) total)) (loop_body w config total).

(** A run killed after [turns] complete turns of its loop. *)
Definition interrupted (turns : nat) (w : World) (config : ParserConfig)
    : M unit :=
  load_links config ;;
  load_checkpoint config ;;
  crawl_cut turns w config.

(** The world never draws outside the range it is asked for. *)
Definition uniform_in_range (w : World) : Prop :=
  ∀ t a b, (a <= b)%Q -> (a <= uniform w t a b)%Q ∧ (uniform w t a b <= b)%Q.

(** The page of one index was fetched, parsed, and its output unit saved,
    without an exception; [s] is the state in which the fetch starts. *)
Definition fetched_parsed_saved (w : World) (config : ParserConfig) (idx : Z)
    (page_url : string) (s : state) : Prop :=
  match get_page_html w config page_url s with
  | (Ret (Some text), s1) =>
      truthy_str text = true
      ∧ match parse_product_page w text page_url s1 with
        | (Ret pd, s2) =>
            match save_product w config idx pd text s2 with
            | (Ret _, _) => True
            | (Raise _, _) => False
            end
        | (Raise _, _) => False
        end
  | _ => False
  end.

(** A checkpoint file [load_checkpoint] can make nothing of: it does not
    parse, or what it holds is no object, or the object has no
    [last_index], or that is neither an integer nor a boolean. *)
Definition unusable (file : content) : Prop :=
  match json_load file with
  | inl _ => True
  | inr data =>
      match py_get data "last_index" with
      | inl _ => True
      | inr last => isinstance_int last = false
      end
  end.

(** Events that are neither the start of a turn, nor a page request, nor
    a change of the checkpoint file. *)
Definition inert (e : event) : Prop :=
  match e with
  | EPrint (Item _ _ _) => False
  | EGetPage _ => False
  | EWrite CheckpointJson _ => False
  | ERemove CheckpointJson => False
  | _ => True
  end.

(** [s'] comes after [s] by inert events only. *)
Definition frame (s s' : state) : Prop :=
  product_links s' = product_links s
  ∧ input_links s' = input_links s
  ∧ current_index s' = current_index s
  ∧ fs s' CheckpointJson = fs s CheckpointJson
  ∧ ∃ evs, trace s' = trace s ++ evs ∧ Forall inert evs.

Definition framed {A} (m : M A) : Prop :=
  ∀ s r s', m s = (r, s') -> frame s s'.

(** A sleep of the configured delay plus one draw of
    [random.uniform(0, 2)]. *)
Definition pacing_sleep (w : World) (config : ParserConfig) (d : Q) : Prop :=
  ∃ t, d = (request_delay config + uniform w t 0 2)%Q.

(** Every page request of [tr] comes after a sleep that [ok] accepts,
    with no other page request in between; [armed] tells whether such a
    sleep is pending when [tr] starts. *)
Fixpoint paced (ok : Q -> Prop) (armed : Prop) (tr : list event) : Prop :=
  match tr with
  | [] => True
  | ESleep d :: tr' => paced ok (armed ∨ ok d) tr'
  | EGetPage _ :: tr' => armed ∧ paced ok False tr'
  | _ :: tr' => paced ok armed tr'
  end.

(** However a trace started, the page requests of [evs] are paced. *)
Definition always_paced (w : World) (config : ParserConfig)
    (evs : list event) : Prop :=
  ∀ armed, paced (pacing_sleep w config) armed evs.

(** [m] only appends to the trace, and what it appends satisfies [P]. *)
Definition appends {A} (P : list event -> Prop) (m : M A) : Prop :=
  ∀ s r s', m s = (r, s') -> ∃ evs, trace s' = trace s ++ evs ∧ P evs.

(** The checkpoint file after some events, given the file before. *)
Definition file_after (before : option content) (evs : list event)
    : option content :=
  match last (checkpoint_writes evs) with
  | Some c => Some c
  | None => before
  end.

(** [m] only appends to the trace, and the checkpoint file follows what it
    appends. *)
Definition tracked {A} (m : M A) : Prop :=
  ∀ s r s', m s = (r, s') ->
    ∃ evs, trace s' = trace s ++ evs
           ∧ fs s' CheckpointJson = file_after (fs s CheckpointJson) evs.


(** *** Notions used for the further properties *)

(** The values the page gives for one attribute name, in document order. *)
Definition named_values (name : string) (items : list (option string * option string))
    : list string :=
  omap (fun item => match item with
                    | (Some n, Some val) => if String.eqb n name then Some val else None
                    | _ => None
                    end) items.

(** The [src] of a gallery [div] whose [img] has a non-empty one. *)
Definition div_src (div : option (option string)) : option string :=
  match div with
  | Some (Some src) => if truthy_str src then Some src else None
  | _ => None
  end.

Definition gallery_srcs (page : soup) : list string :=
  omap div_src (gallery page).

(** The image requests of a trace, and its file writes, oldest first. *)
Definition image_requests (tr : list event) : list string :=
  omap (fun e => match e with EGetImage u => Some u | _ => None end) tr.

Definition writes (tr : list event) : list (path * content) :=
  omap (fun e => match e with EWrite p c => Some (p, c) | _ => None end) tr.

(** Three attempts for every candidate, in order. *)
Definition all_attempts (img_urls : list string) : list string :=
  img_urls ≫= (fun u => replicate 3 u).

(** The index [load_checkpoint] resumes at, if the file gives one. *)
Definition resume_index (file : option content) : option Z :=
  match file with
  | Some c =>
      match json_load c with
      | inr data =>
          match py_get data "last_index" with
          | inr last => if isinstance_int last then Some (int_value last + 1) else None
          | inl _ => None
          end
      | inl _ => None
      end
  | None => None
  end.

(** The index a run starts its loop at, given the files it finds. *)
Definition first_index (config : ParserConfig) (files : path -> option content) : Z :=
  default (start_from config) (resume_index (files CheckpointJson)).

(** The product folder a path lies in. *)
Definition folder (p : path) : option Z :=
  match p with
  | CheckpointJson => None
  | ProductDir index | ProductFile index _ => Some index
  end.

(** [m] leaves the files that satisfy [S] as they are. *)
Definition keeps (S : path -> Prop) {A} (m : M A) : Prop :=
  ∀ s r s', m s = (r, s') -> ∀ p, S p -> fs s' p = fs s p.


(** *** When the sleep or the restart raises

    [time.sleep] raises [ValueError] on a negative duration, and in the
    bare [except] of [get_page_html] the calls [self.driver.quit()] and
    [uc.Chrome(options=options)] run with no handler around them: what
    they raise leaves [get_page_html], and [run] with it, the call being
    outside the [try] of the loop.  The definitions above take the three
    to return.  The ones below let them raise: [restart t] is the
    exception, if any, of a restart begun at instant [t]. *)




End Details.

(* ================================================================== *)
(** ** infinity_run_parser_products.py *)
(* ================================================================== *)

Module Supervisor.

(** [proc.info] for the attributes asked of [psutil.process_iter]; the
    name is [None] when the system does not give it. *)
Record process_info := {
  pid : Z;
  name : option string
}.

Inductive exn :=
| NoSuchProcess
| AccessDenied
| OSError.

Record World := {
  (** [psutil.process_iter(['pid', 'name'])], at the sweep of each round *)
  process_iter : nat -> list process_info;
  (** [proc.kill()] in that sweep: [None] when it returns *)
  kill : nat -> process_info -> option exn;
  (** [subprocess.Popen([sys.executable, script_to_run])] and
      [process.wait()]: the return code of the script *)
  popen_wait : nat -> exn + Z
}.

Inductive message :=
| Launching
| ExitCode (returncode : Z)
| Failure (e : exn)
| Restarting.

Inductive event :=
| EPrint (m : message)
(** a call of [proc.kill()], with the pid of the process *)
| EKill (target : Z)
(** a call of [subprocess.Popen] *)
| EPopen
| ESleep (seconds : Q).

Definition chrome_names : list string :=
  ["chromedriver"; "chrome"; "google-chrome"; "chrome.exe"].

(** [proc.info['name'] in (...)] *)
Definition named_chrome (proc : process_info) : bool :=
  match name proc with
  | Some n => bool_decide (n ∈ chrome_names)
  | None => false
  end.

(** The [for proc in ...] loop of [kill_chrome_processes]: the exception
    that ends it, if any, and the trace. *)
Fixpoint kill_chrome_processes (kill_proc : process_info -> option exn)
    (procs : list process_info) (tr : list event) : option exn * list event :=
  match procs with
  | [] => (None, tr)
  | proc :: procs' =>
      if named_chrome proc then
        match kill_proc proc with
        | None | Some NoSuchProcess =>
            kill_chrome_processes kill_proc procs' (tr ++ [EKill (pid proc)])
        | Some e => (Some e, tr ++ [EKill (pid proc)])
        end
      else kill_chrome_processes kill_proc procs' tr
  end.

(** One turn of [while True] in [monitor_script], the [round]-th. *)
Definition monitor_turn (w : World) (round : nat) (tr : list event) : list event :=
  let tr := tr ++ [EPrint Launching] in
  let '(raised, tr) := kill_chrome_processes (kill w round) (process_iter w round) tr in
  let tr :=
    match raised with
    | Some e => tr ++ [EPrint (Failure e)]
    | None =>
        match popen_wait w round with
        | inr returncode => tr ++ [EPopen; EPrint (ExitCode returncode)]
        | inl e => tr ++ [EPopen; EPrint (Failure e)]
        end
    end in
  tr ++ [EPrint Restarting; ESleep 10].

(** What [monitor_script] has done after [rounds] turns of its loop, which
    has no exit. *)
Fixpoint monitor_script (w : World) (rounds : nat) : list event :=
  match rounds with
  | O => []
  | S rounds' => monitor_turn w rounds' (monitor_script w rounds')
  end.


Definition sleeps (tr : list event) : list Q :=
  omap (fun e => match e with ESleep d => Some d | _ => None end) tr.

(** How often a trace calls [subprocess.Popen]. *)
Definition launches (tr : list event) : nat :=
  length (omap (fun e => match e with EPopen => Some e | _ => None end) tr).

(** The sweep of a round went through: no [kill] raised anything but
    [NoSuchProcess]. *)
Definition swept (w : World) (round : nat) : bool :=
  match (kill_chrome_processes (kill w round) (process_iter w round) []).1 with
  | None => true
  | Some _ => false
  end.

End Supervisor.

(* ================================================================== *)
(** ** Concrete worlds *)
(* ================================================================== *)

Module Shop.

(** A three-page catalogue. *)
Definition listing (html : string) : Links.soup :=
  if String.eqb html "page one" then
    {| Links.grid := Some [Some "/p/a"; Some "/p/b"; Some "/p/a"; None; Some "/x/y"] |}
  else if String.eqb html "page two" then
    {| Links.grid := Some [Some "/p/b"; Some "/p/c"] |}
  else if String.eqb html "page three" then
    {| Links.grid := Some [Some "/p/c"] |}
  else {| Links.grid := None |}.

Definition serve (url : string) : option string :=
  if String.eqb url "https://shop/c/" then Some "page one"
  else if String.eqb url "https://shop/c/?page=2" then Some "page two"
  else if String.eqb url "https://shop/c/?page=3" then Some "page three"
  else None.

Definition catalogue : Links.World :=
  {| Links.wait_page_source := fun _ => serve;
     Links.requests_get := fun _ => serve;
     Links.BeautifulSoup := listing |}.


Definition collector (limit : Z) : Links.ParserConfig :=
  {| Links.base_url := "https://shop/c/";
     Links.start_page := 1;
     Links.end_page := None;
     Links.min_links := 1;
     Links.max_links := limit;
     Links.output_file := "product_links.json";
     Links.checkpoint_file := "checkpoint_links.json";
     Links.request_delay := 5 # 2;
     Links.use_selenium := false;
     Links.headless := true;
     Links.timeout := 30 |}.

(** A run killed after its first page, and the checkpoint file it leaves. *)
Definition killed_after_page_one : Links.state :=
  Links.interrupted 1 catalogue (collector 1000)
    (Links.init (collector 1000) None None).

Definition after_page_one : option Links.checkpoint :=
  Links.checkpoint_on_disk killed_after_page_one.

(** The run that resumes from that file, a run that nothing interrupts,
    and a run whose first answer is lost. *)
Definition resumed_run : option (Links.stop * Links.state) :=
  Links.run catalogue (collector 1000)
    (Links.init (collector 1000) after_page_one None).

Definition whole_run : option (Links.stop * Links.state) :=
  Links.run catalogue (collector 1000) (Links.init (collector 1000) None None).




End Shop.

Module Store.

Definition product_page : Details.soup :=
  {| Details.price_elements := ["999"; "1499"];
     Details.reviews_and_questions :=
       Some {| Details.description_div := Some "A dress";
               Details.items := [(Some "Colour", Some "red");
                                 (Some "Size", None);
                                 (Some "Colour", Some "blue")] |};
     Details.gallery := [None; Some None; Some (Some "/img/1.jpg")] |}.

(** Every page loads and every image downloads. *)
Definition online : Details.World :=
  {| Details.uniform := fun _ a b => ((a + b) * (1 # 2))%Q;
     Details.current_url := fun _ => inr "about:blank";
     Details.navigate := fun _ _ => inr "<html>";
     Details.requests_text := fun _ _ => inr "<html>";
     Details.BeautifulSoup := fun _ => inr product_page;
     Details.urljoin := fun _ src => inr ("https://shop" +:+ src);
     Details.requests_image := fun _ _ => inr (200, "JPEG");
     Details.splitext := fun _ => ".jpg" |}.

(** No page ever loads. *)
Definition offline : Details.World :=
  {| Details.uniform := fun _ a b => ((a + b) * (1 # 2))%Q;
     Details.current_url := fun _ => inl Details.WebDriverException;
     Details.navigate := fun _ _ => inl Details.TimeoutException;
     Details.requests_text := fun _ _ => inl Details.RequestException;
     Details.BeautifulSoup := fun _ => inr product_page;
     Details.urljoin := fun _ src => inr ("https://shop" +:+ src);
     Details.requests_image := fun _ _ => inl Details.RequestException;
     Details.splitext := fun _ => ".jpg" |}.

(** Pages load, the image server answers 404. *)
Definition images_gone : Details.World :=
  {| Details.uniform := fun _ a b => ((a + b) * (1 # 2))%Q;
     Details.current_url := fun _ => inr "about:blank";
     Details.navigate := fun _ _ => inr "<html>";
     Details.requests_text := fun _ _ => inr "<html>";
     Details.BeautifulSoup := fun _ => inr product_page;
     Details.urljoin := fun _ src => inr ("https://shop" +:+ src);
     Details.requests_image := fun _ _ => inr (404, "");
     Details.splitext := fun _ => ".jpg" |}.

(** Pages load, every image request times out. *)
Definition images_unreachable : Details.World :=
  {| Details.uniform := fun _ a b => ((a + b) * (1 # 2))%Q;
     Details.current_url := fun _ => inr "about:blank";
     Details.navigate := fun _ _ => inr "<html>";
     Details.requests_text := fun _ _ => inr "<html>";
     Details.BeautifulSoup := fun _ => inr product_page;
     Details.urljoin := fun _ src => inr ("https://shop" +:+ src);
     Details.requests_image := fun _ _ => inl Details.RequestException;
     Details.splitext := fun _ => ".jpg" |}.

Definition fetcher : Details.ParserConfig :=
  {| Details.input_file := "lamoda_product_links.json";
     Details.result_dir := "products_result";
     Details.checkpoint_dir := "checkpoints";
     Details.start_from := 0;
     Details.max_products := None;
     Details.request_delay := 5 # 2;
     Details.use_selenium := true;
     Details.headless := false;
     Details.timeout := 30 |}.

(** A disk holding at most a checkpoint file. *)
Definition disk (cp : option Details.content) : Details.path -> option Details.content :=
  fun p => match p with Details.CheckpointJson => cp | _ => None end.

Definition three_links : list string :=
  ["https://shop/p/a"; "https://shop/p/b"; "https://shop/p/c"].

(** The fetcher once it has loaded these links, no checkpoint on disk. *)
Definition loaded : Details.state :=
  (Details.load_links fetcher (Details.init fetcher three_links (disk None))).2.

(** A run resumed from [{last_index: -3}] over a single link. *)
Definition far_negative_run : Details.result unit * Details.state :=
  Details.run online fetcher
    (Details.init fetcher ["https://shop/p/a"]
       (disk (Some (Details.last_index_document (-3))))).

(** A run that finds a truncated checkpoint file and no page to load. *)
Definition offline_run : Details.result unit * Details.state :=
  Details.run offline fetcher
    (Details.init fetcher three_links (disk (Some (Details.Garbled "{")))).

Definition bare_product : Details.ProductData :=
  {| Details.url := "https://shop/p/a"; Details.price := None;
     Details.old_price := None; Details.description := None;
     Details.attributes := [] |}.

(** Saving one product when the image server answers 404, and when it
    cannot be reached. *)
Definition refused_save : Details.result unit * Details.state :=
  Details.save_product images_gone fetcher 0 bare_product "<html>"
    (Details.init fetcher [] (disk None)).

Definition failed_save : Details.result unit * Details.state :=
  Details.save_product images_unreachable fetcher 0 bare_product "<html>"
    (Details.init fetcher [] (disk None)).


(** A run over three links from an empty disk, killed after two turns,
    and the same run left alone. *)
Definition killed_after_two : Details.result unit * Details.state :=
  Details.interrupted 2 online fetcher (Details.init fetcher three_links (disk None)).

Definition complete_run : Details.result unit * Details.state :=
  Details.run online fetcher (Details.init fetcher three_links (disk None)).

(** A fetcher whose start offset lies a hundred links before the end of
    the list, and its run resumed from [{last_index: 0}]. *)
Definition from_far_back : Details.ParserConfig :=
  {| Details.input_file := "lamoda_product_links.json";
     Details.result_dir := "products_result";
     Details.checkpoint_dir := "checkpoints";
     Details.start_from := -100;
     Details.max_products := None;
     Details.request_delay := 5 # 2;
     Details.use_selenium := true;
     Details.headless := false;
     Details.timeout := 30 |}.

Definition resumed_far_back_run : Details.result unit * Details.state :=
  Details.run online from_far_back
    (Details.init from_far_back three_links
       (disk (Some (Details.last_index_document 0)))).

End Store.

(* ================================================================== *)
(** ** The link collector: stopping, duplicates, resuming *)
(* ================================================================== *)

Module LinksFacts.
Import Links.

(** Unfold one turn of the loop into its branches. *)
Ltac turn_cases :=
  unfold loop_body, get_page_html in *;
  repeat case_match; simplify_eq/=.

Lemma loop_body_progress w config s s' :
  loop_body w config s = Continue s' ->
  len (collected_links s) < max_links config
  ∧ len (collected_links s) < len (collected_links s').
Proof.
  intros H. turn_cases.
  all: match goal with H : (_ <=? _) = false |- _ => apply Z.leb_gt in H end.
  all: unfold len in *; rewrite length_app; simpl; lia.
Qed.

Lemma while_true_stops w config fuel s :
  (Z.to_nat (max_links config - len (collected_links s)) < fuel)%nat ->
  ∃ why s', while_true fuel w config s = inr (why, s').
Proof.
  revert s. induction fuel as [|fuel IH]; intros s Hfuel; [lia|].
  simpl. destruct (loop_body w config s) as [why s'|s'] eqn:Hturn; [eauto|].
  apply loop_body_progress in Hturn as [Hlt Hgrow].
  apply IH. lia.
Qed.

Lemma run_total w config s : ∃ why s', run w config s = Some (why, s').
Proof.
  unfold run. destruct (load_checkpoint config s) as [b s1].
  destruct (while_true_stops w config
              (turns_needed config (print (StartingFrom (current_page s1)) s1))
              (print (StartingFrom (current_page s1)) s1)) as (why & s' & ->).
  - unfold turns_needed. lia.
  - eauto.
Qed.

(** *** The accumulated list never holds a URL twice *)

Lemma add_card_NoDup collected links href :
  NoDup (collected ++ links) -> NoDup (collected ++ add_card collected links href).
Proof.
  intros Hnd. unfold add_card, py_in.
  destruct href as [h|]; [|done].
  destruct (truthy_str h && String.prefix "/p/" h); [|done].
  do 2 case_bool_decide; simpl; try done.
  rewrite app_assoc. apply NoDup_app. split_and!; [done| |apply NoDup_singleton].
  intros x Hx ->%list_elem_of_singleton. apply elem_of_app in Hx. tauto.
Qed.

Lemma fold_add_card_NoDup collected cards links :
  NoDup (collected ++ links) ->
  NoDup (collected ++ fold_left (add_card collected) cards links).
Proof.
  revert links. induction cards as [|href cards IH]; intros links Hnd; [done|].
  simpl. by apply IH, add_card_NoDup.
Qed.

Lemma parse_links_NoDup w html collected :
  NoDup collected -> NoDup (collected ++ parse_links_from_html w html collected).
Proof.
  intros Hnd. unfold parse_links_from_html.
  destruct (grid (BeautifulSoup w html)) as [cards|].
  - apply fold_add_card_NoDup. by rewrite app_nil_r.
  - by rewrite app_nil_r.
Qed.

(** *** ... and keeps first-seen order *)

Lemma keep_add_card collected links href :
  fold_left keep
    (match href with
     | Some h => if truthy_str h && String.prefix "/p/" h
                 then [("https://www.lamoda.ru" +:+ h)] else []
     | None => []
     end) (collected ++ links)
  = collected ++ add_card collected links href.
Proof.
  unfold add_card, keep, py_in.
  destruct href as [h|]; [|done].
  destruct (truthy_str h && String.prefix "/p/" h); [|done]. simpl.
  repeat case_bool_decide; simpl; try done.
  all: try (by rewrite app_assoc).
  all: exfalso;
    match goal with H : context [_ ∈ _ ++ _] |- _ => rewrite elem_of_app in H end;
    tauto.
Qed.

Lemma fold_keep_cards collected cards links :
  fold_left keep
    (omap (fun href => match href with
                       | Some h => if truthy_str h && String.prefix "/p/" h
                                   then Some ("https://www.lamoda.ru" +:+ h)
                                   else None
                       | None => None
                       end) cards) (collected ++ links)
  = collected ++ fold_left (add_card collected) cards links.
Proof.
  revert links. induction cards as [|href cards IH]; intros links; [done|].
  simpl. rewrite <- IH, <- keep_add_card.
  destruct href as [h|]; [|done].
  by destruct (truthy_str h && String.prefix "/p/" h).
Qed.

Lemma keep_page w html collected :
  fold_left keep (page_urls w html) collected
  = collected ++ parse_links_from_html w html collected.
Proof.
  unfold page_urls, parse_links_from_html.
  destruct (grid (BeautifulSoup w html)) as [cards|].
  - rewrite <- fold_keep_cards. by rewrite app_nil_r.
  - by rewrite app_nil_r.
Qed.

Lemma keep_NoDup stream acc :
  NoDup (acc ++ stream) -> fold_left keep stream acc = acc ++ stream.
Proof.
  revert acc. induction stream as [|x stream IH]; intros acc Hnd.
  - by rewrite app_nil_r.
  - simpl. unfold keep at 2, py_in. case_bool_decide as Hin.
    + apply NoDup_app in Hnd as (_ & Hdisj & _).
      exfalso. apply (Hdisj x Hin). by left.
    + rewrite IH; rewrite <- app_assoc; done.
Qed.

Lemma seen_app w tr1 tr2 : seen w (tr1 ++ tr2) = seen w tr1 ++ seen w tr2.
Proof. unfold seen, parsed_pages. by rewrite omap_app, flat_map_app. Qed.

Lemma inv_turn w config base s :
  inv w base s -> inv w base (turn_state (loop_body w config s)).
Proof.
  intros (Hnd & Hcp & Hseen).
  unfold loop_body, get_page_html.
  repeat case_match; simplify_eq/=; unfold inv; simpl.
  all: rewrite ?seen_app, ?fold_left_app, <- ?Hseen; unfold seen; simpl.
  all: rewrite ?app_nil_r; simpl.
  all: repeat match goal with
       | H : negb (truthy_str ?t) = false |- _ =>
           apply negb_false_iff in H; rewrite ?H
       | H : negb (truthy_str ?t) = true |- _ =>
           apply negb_true_iff in H; rewrite ?H
       end; simpl; rewrite ?app_nil_r.
  all: try done.
  all: rewrite ?keep_page.
  all: repeat match goal with
       | H : parse_links_from_html ?w ?t ?c = _ |- _ =>
           pose proof (parse_links_NoDup w t c Hnd) as Hnew; rewrite H in *; clear H
       end; rewrite ?app_nil_r; try done.
Qed.

Lemma inv_while w config base fuel s :
  inv w base s ->
  match while_true fuel w config s with
  | inl s' => inv w base s'
  | inr (_, s') => inv w base s'
  end.
Proof.
  revert s. induction fuel as [|fuel IH]; intros s Hinv; [done|].
  simpl. pose proof (inv_turn w config base s Hinv) as Hturn.
  destruct (loop_body w config s) as [why s'|s']; [done|].
  by apply IH.
Qed.

Lemma inv_start w config cp out :
  NoDup (cp_links_of cp) ->
  let s := (load_checkpoint config (init config cp out)).2 in
  inv w (cp_links_of cp) (print (StartingFrom (current_page s)) s).
Proof.
  intros Hnd. unfold load_checkpoint, inv, cp_links_of in *.
  destruct cp as [data|]; simpl in *; unfold seen; simpl.
  - done.
  - split_and!; [apply NoDup_nil_2|apply NoDup_nil_2|done].
Qed.

Lemma inv_interrupted w config cp out turns :
  NoDup (cp_links_of cp) ->
  inv w (cp_links_of cp) (interrupted turns w config (init config cp out)).
Proof.
  intros Hnd. unfold interrupted.
  pose proof (inv_start w config cp out Hnd) as Hstart.
  destruct (load_checkpoint config (init config cp out)) as [b s1].
  simpl in Hstart.
  pose proof (inv_while w config _ turns _ Hstart) as Hend.
  by destruct (while_true turns w config _) as [s'|[why s']].
Qed.

Lemma persisted_NoDup cp : persisted cp -> NoDup (cp_links_of cp).
Proof.
  induction 1 as [|cp w config out turns _ IH].
  - apply NoDup_nil_2.
  - by destruct (inv_interrupted w config cp out turns IH) as (_ & Hcp & _).
Qed.

Lemma first_seen_from base stream :
  NoDup base -> first_seen (base ++ stream) = fold_left keep stream base.
Proof.
  intros Hnd. unfold first_seen. rewrite fold_left_app.
  by rewrite (keep_NoDup base []).
Qed.

(** C4. Whatever checkpoint earlier runs of the collector left behind, a
    run ends, and the list it writes to the output file holds no URL twice
    and lists the URLs in the order they were first seen: first the links
    taken over from the checkpoint, then those of the pages parsed by the
    run, in document order. *)
Theorem output_unique_in_first_seen_order w config cp out :
  persisted cp ->
  ∃ why s',
    run w config (init config cp out) = Some (why, s')
    ∧ output_on_disk s' = Some (collected_links s')
    ∧ EWriteResults (collected_links s') ∈ trace s'
    ∧ NoDup (collected_links s')
    ∧ collected_links s' = first_seen (cp_links_of cp ++ seen w (trace s')).
Proof.
  intros Hnd%persisted_NoDup.
  destruct (run_total w config (init config cp out)) as (why & s' & Hrun).
  exists why, s'. split; [done|].
  unfold run in Hrun.
  pose proof (inv_start w config cp out Hnd) as Hstart.
  destruct (load_checkpoint config (init config cp out)) as [b s1].
  simpl in Hstart.
  pose proof (inv_while w config _
                (turns_needed config (print (StartingFrom (current_page s1)) s1))
                _ Hstart) as Hend.
  destruct (while_true _ w config _) as [s2|[why2 s2]]; [done|].
  simplify_eq/=. destruct Hend as (Hnd2 & _ & Hseen).
  split_and!; try done.
  - rewrite !elem_of_app. left. right. by apply list_elem_of_singleton.
  - rewrite first_seen_from by done.
    rewrite !seen_app. unfold seen at 2 3. simpl. by rewrite !app_nil_r.
Qed.

(** *** Stopping *)

Lemma requested_app tr1 tr2 : requested (tr1 ++ tr2) = requested tr1 ++ requested tr2.
Proof. apply omap_app. Qed.

Lemma quiet_app limit tr1 tr2 :
  quiet_when_full limit tr1 ->
  quiet_when_full limit tr2 ->
  requested tr2 = []
  ∨ (∀ k total, EPrint (FoundNewLinks k total) ∈ tr1 -> total < limit) ->
  quiet_when_full limit (tr1 ++ tr2).
Proof.
  intros H1 H2 Hside. induction tr1 as [|e tr1 IH]; [done|].
  destruct H1 as [He H1]. simpl. split.
  - destruct e as [[]| | | |]; try done.
    intros Hfull. destruct (He Hfull) as [Hreq Hbound].
    split; [|done]. rewrite requested_app, Hreq. simpl.
    destruct Hside as [Hquiet|Hsmall]; [done|].
    assert (total < limit) by (apply (Hsmall n_new total); by left). lia.
  - apply IH; [done|].
    destruct Hside as [Hquiet|Hsmall]; [by left|right].
    intros k total Hin. apply (Hsmall k total). by right.
Qed.

Lemma quiet_split limit tr pre k total post :
  quiet_when_full limit tr ->
  tr = pre ++ EPrint (FoundNewLinks k total) :: post ->
  limit <= total ->
  requested post = [] ∧ total < limit + k.
Proof.
  revert tr. induction pre as [|e pre IH]; intros tr Hq -> Hfull.
  - destruct Hq as [He _]. by apply He.
  - destruct Hq as [_ Hq]. by eapply IH.
Qed.

Lemma full_turn w config s :
  max_links config <= len (collected_links s) ->
  loop_body w config s
  = Break MaxReached (print (ReachedMaximum (max_links config)) s).
Proof.
  intros Hfull. unfold loop_body.
  by rewrite (proj2 (Z.leb_le _ _) Hfull).
Qed.

Lemma break_trace w config s why s' :
  loop_body w config s = Break why s' ->
  ∃ new, trace s' = trace s ++ new ∧ quiet_when_full (max_links config) new.
Proof.
  intros Hturn. turn_cases.
  all: rewrite <- ?app_assoc; simpl; eexists; split; [reflexivity|]; simpl.
  all: repeat split; try done.
  all: match goal with H : (_ <=? _) = false |- _ => apply Z.leb_gt in H end.
  all: unfold len in *; rewrite length_app; simpl; lia.
Qed.

Lemma continue_trace w config s s' :
  loop_body w config s = Continue s' ->
  ∃ page url text k cp,
    trace s' = trace s ++ [EPrint (ProcessingPage page url);
                           ESleep (request_delay config);
                           EGet url (Some text);
                           EPrint (FoundNewLinks k (len (collected_links s')));
                           EWriteCheckpoint cp]
    ∧ len (collected_links s') < max_links config + k.
Proof.
  intros Hturn. turn_cases.
  all: rewrite <- ?app_assoc; simpl; do 5 eexists; split; [reflexivity|].
  all: match goal with H : (_ <=? _) = false |- _ => apply Z.leb_gt in H end.
  all: unfold len in *; rewrite length_app; simpl; lia.
Qed.

Lemma quiet_while w config fuel s why s' :
  while_true fuel w config s = inr (why, s') ->
  ∃ new, trace s' = trace s ++ new ∧ quiet_when_full (max_links config) new.
Proof.
  revert s. induction fuel as [|fuel IH]; intros s Hloop; [done|].
  simpl in Hloop.
  destruct (loop_body w config s) as [why1 s1|s1] eqn:Hturn.
  - simplify_eq. by eapply break_trace.
  - destruct (continue_trace _ _ _ _ Hturn)
      as (page & url & text & k & cp & Htr & Hbound).
    destruct (decide (max_links config <= len (collected_links s1))) as [Hfull|Hroom].
    + destruct fuel as [|fuel]; [done|]. simpl in Hloop.
      rewrite full_turn in Hloop by done. simplify_eq.
      eexists. split.
      * simpl. rewrite Htr, <- app_assoc. reflexivity.
      * simpl. repeat split; done.
    + destruct (IH _ Hloop) as (new & Hnew & Hq).
      eexists. split.
      * rewrite Hnew, Htr, <- app_assoc. reflexivity.
      * apply (quiet_app _ [_; _; _; _; _]); [simpl; repeat split; try done; lia|done|].
        right. intros k' total Hin.
        repeat (apply elem_of_cons in Hin as [Hin|Hin]; [simplify_eq; try lia|]).
        by apply elem_of_nil in Hin.
Qed.

Lemma turn_decision w config s :
  turn_stop (loop_body w config s)
  = first_true (max_links config <=? len (collected_links s))
      (negb (truthy_opt_str (answer w config s)))
      (bool_decide (new_links_of w config s = []))
      (target_reached config
         (len (collected_links s) + len (new_links_of w config s))
         (current_page s)).
Proof.
  unfold loop_body, get_page_html, first_true, new_links_of, answer,
    target_reached, truthy_opt_str.
  repeat case_match; simplify_eq/=; try done.
  all: repeat match goal with
       | H : negb _ = false |- _ => apply negb_false_iff in H
       | H : negb _ = true |- _ => apply negb_true_iff in H
       end; try congruence.
  all: try (case_bool_decide; simplify_eq; done).
  all: unfold len in *; rewrite length_app, Nat2Z.inj_add in *; simpl in *.
  all: repeat match goal with
       | H : bool_decide _ = true |- _ => apply bool_decide_eq_true in H
       | H : bool_decide _ = false |- _ => apply bool_decide_eq_false in H
       end.
  all: try congruence.
  all: match goal with
       | H : parse_links_from_html _ _ _ = _ :: _ |- _ => rewrite H in *
       end; simpl in *; congruence.
Qed.

(** C3. A run of the collector ends.  In its trace, once a page has been
    appended and the count has reached [max_links], no page is requested
    any more, and the count stays less than that page's new links above
    [max_links].  Within a turn the four stop conditions decide in the
    order (a) maximum reached, (b) fetch failed, (c) no new link, (d)
    minimum and end page reached; when (a) holds nothing is requested. *)
Theorem stop_condition_precedence w config :
  (∀ cp out, ∃ why s',
      run w config (init config cp out) = Some (why, s')
      ∧ ∀ pre k total post,
          trace s' = pre ++ EPrint (FoundNewLinks k total) :: post ->
          max_links config <= total ->
          requested post = [] ∧ total < max_links config + k)
  ∧ (∀ s,
      turn_stop (loop_body w config s)
      = first_true (max_links config <=? len (collected_links s))
          (negb (truthy_opt_str (answer w config s)))
          (bool_decide (new_links_of w config s = []))
          (target_reached config
             (len (collected_links s) + len (new_links_of w config s))
             (current_page s))
      ∧ (max_links config <= len (collected_links s) ->
         requested (trace (turn_state (loop_body w config s)))
         = requested (trace s))).
Proof.
  split.
  - intros cp out.
    destruct (run_total w config (init config cp out)) as (why & s' & Hrun).
    exists why, s'. split; [done|].
    intros pre k total post Htr Hfull.
    apply (quiet_split (max_links config) (trace s') pre k total post);
      [|done|done].
    unfold run in Hrun.
    assert (∀ j t, EPrint (FoundNewLinks j t)
                   ∉ trace (load_checkpoint config (init config cp out)).2)
      as Hload.
    { intros j t Hin. unfold load_checkpoint in Hin.
      destruct cp; simpl in Hin.
      - by apply list_elem_of_singleton in Hin.
      - by apply elem_of_nil in Hin. }
    destruct (load_checkpoint config (init config cp out)) as [b s1].
    simpl in Hload.
    destruct (while_true _ w config _) as [s2|[why2 s2]] eqn:Hloop; [done|].
    destruct (quiet_while _ _ _ _ _ _ Hloop) as (new & Hnew & Hq).
    injection Hrun as <- <-.
    change (quiet_when_full (max_links config)
              ((trace s2 ++ [EWriteResults (collected_links s2)])
               ++ [EPrint (FinishedParsing (len (collected_links s2)))])).
    rewrite Hnew.
    change (trace (print (StartingFrom (current_page s1)) s1))
      with (trace s1 ++ [EPrint (StartingFrom (current_page s1))]).
    apply quiet_app; [|done|by left].
    apply quiet_app; [|done|by left].
    apply quiet_app; [|done|].
    + apply quiet_app; [|done|by left].
      clear -Hload. induction (trace s1) as [|e tr IH]; [done|].
      split.
      * destruct e as [[]| | | |]; try done.
        intros _. exfalso. eapply Hload. by left.
      * apply IH. intros j t Hin. eapply Hload. by right.
    + right. intros j t [Hin|Hin]%elem_of_app.
      * by apply Hload in Hin.
      * by apply list_elem_of_singleton in Hin.
  - intros s. split; [apply turn_decision|].
    intros Hfull. rewrite full_turn by done. simpl.
    rewrite requested_app. simpl. by rewrite app_nil_r.
Qed.

(** *** Pacing *)

Lemma paced_app ok armed tr1 tr2 :
  paced ok armed tr1 ->
  (∀ armed', paced ok armed' tr2) ->
  paced ok armed (tr1 ++ tr2).
Proof.
  intros H1 H2. revert armed H1.
  induction tr1 as [|e tr1 IH]; intros armed H1; [apply H2|].
  destruct e; simpl in *; try (by apply IH).
  destruct H1 as [Harmed H1]. split; [done|by apply IH].
Qed.

Lemma paced_split ok armed pre url response post :
  paced ok armed (pre ++ EGet url response :: post) ->
  (armed ∧ requested pre = [])
  ∨ ∃ pre' d mid, pre = pre' ++ ESleep d :: mid ∧ ok d ∧ requested mid = [].
Proof.
  revert armed. induction pre as [|e pre IH]; intros armed Hp.
  - left. by destruct Hp.
  - destruct e as [m|d|u r|cp|links]; simpl in Hp.
    + destruct (IH _ Hp) as [[Ha Hr]|(pre' & d & mid & -> & Hd & Hm)].
      * by left.
      * right. by exists (EPrint m :: pre'), d, mid.
    + destruct (IH _ Hp) as [[[Ha|Hd] Hr]|(pre' & d' & mid & -> & Hd & Hm)].
      * by left.
      * right. by exists [], d, pre.
      * right. by exists (ESleep d :: pre'), d', mid.
    + destruct Hp as [_ Hp].
      destruct (IH _ Hp) as [[[] _]|(pre' & d & mid & -> & Hd & Hm)].
      right. by exists (EGet u r :: pre'), d, mid.
    + destruct (IH _ Hp) as [[Ha Hr]|(pre' & d & mid & -> & Hd & Hm)].
      * by left.
      * right. by exists (EWriteCheckpoint cp :: pre'), d, mid.
    + destruct (IH _ Hp) as [[Ha Hr]|(pre' & d & mid & -> & Hd & Hm)].
      * by left.
      * right. by exists (EWriteResults links :: pre'), d, mid.
Qed.

Lemma turn_paced w config s :
  ∃ new,
    trace (turn_state (loop_body w config s)) = trace s ++ new
    ∧ ∀ armed, paced (eq (request_delay config)) armed new.
Proof.
  unfold loop_body, get_page_html.
  repeat case_match; simplify_eq/=.
  all: rewrite <- ?app_assoc; simpl; eexists; split; [reflexivity|].
  all: intros armed; simpl; tauto.
Qed.

Lemma while_paced w config fuel s :
  ∃ new,
    trace match while_true fuel w config s with
          | inl s' => s'
          | inr (_, s') => s'
          end = trace s ++ new
    ∧ ∀ armed, paced (eq (request_delay config)) armed new.
Proof.
  revert s. induction fuel as [|fuel IH]; intros s.
  - exists []. by rewrite app_nil_r.
  - simpl. destruct (turn_paced w config s) as (new & Hnew & Hp).
    destruct (loop_body w config s) as [why s'|s']; [by exists new|].
    simpl in Hnew. destruct (IH s') as (new' & Hnew' & Hp').
    exists (new ++ new'). split.
    + by rewrite Hnew', Hnew, app_assoc.
    + intros armed. by apply paced_app.
Qed.

Lemma collector_run_paced w config cp out why s' :
  run w config (init config cp out) = Some (why, s') ->
  paced (eq (request_delay config)) False (trace s').
Proof.
  unfold run. intros Hrun.
  assert (∀ armed, paced (eq (request_delay config)) armed
                     (trace (load_checkpoint config (init config cp out)).2))
    as Hload.
  { intros armed. unfold load_checkpoint. by destruct cp. }
  destruct (load_checkpoint config (init config cp out)) as [b s1].
  simpl in Hload.
  destruct (while_paced w config
              (turns_needed config (print (StartingFrom (current_page s1)) s1))
              (print (StartingFrom (current_page s1)) s1)) as (new & Hnew & Hp).
  destruct (while_true _ w config _) as [s2|[why2 s2]]; [done|].
  injection Hrun as <- <-.
  change (paced (eq (request_delay config)) False
            ((trace s2 ++ [EWriteResults (collected_links s2)])
             ++ [EPrint (FinishedParsing (len (collected_links s2)))])).
  rewrite Hnew.
  change (trace (print (StartingFrom (current_page s1)) s1))
    with (trace s1 ++ [EPrint (StartingFrom (current_page s1))]).
  repeat (apply paced_app; [|done]). apply Hload.
Qed.

(** *** Resuming *)

(** The checkpoint written at the end of a turn names the page that turn
    has just completed, not the page the loop goes on with. *)
Lemma checkpoint_names_completed_page w config s s' :
  loop_body w config s = Continue s' ->
  checkpoint_on_disk s'
  = Some {| cp_links := Some (collected_links s');
            cp_current_page := Some (current_page s) |}
  ∧ current_page s' = current_page s + 1
  ∧ requested (trace s')
    = requested (trace s) ++ [page_url config (current_page s)].
Proof.
  intros Hturn. turn_cases.
  all: rewrite !requested_app; simpl; rewrite ?app_nil_r; done.
Qed.

(** A run resumed from such a checkpoint, with room left, requests the
    page the checkpoint names. *)
Lemma resumed_turn_requests_checkpointed_page w config links page out :
  len links < max_links config ->
  requested
    (trace (turn_state
              (loop_body w config
                 (print (StartingFrom page)
                    (load_checkpoint config
                       (init config
                          (Some {| cp_links := Some links;
                                   cp_current_page := Some page |}) out)).2))))
  = [page_url config page].
Proof.
  intros Hroom%Z.leb_gt. unfold loop_body, get_page_html. simpl.
  rewrite Hroom. repeat case_match; simplify_eq/=; done.
Qed.

(** C2, at a run killed after its first page.  The checkpoint it leaves
    names page 1, which that run had requested and appended.  The resumed
    run requests page 1 again, finds no new link on it and stops: page 2
    is never requested and its link never collected, although a run that
    nothing interrupts collects it. *)
Theorem resume_requests_completed_page_again :
  requested (trace Shop.killed_after_page_one) = ["https://shop/c/"]
  ∧ Shop.after_page_one
    = Some {| cp_links := Some ["https://www.lamoda.ru/p/a";
                                "https://www.lamoda.ru/p/b"];
              cp_current_page := Some 1 |}
  ∧ (∃ s', Shop.resumed_run = Some (NoNewLinks, s')
           ∧ requested (trace s') = ["https://shop/c/"]
           ∧ output_on_disk s' = Some ["https://www.lamoda.ru/p/a";
                                       "https://www.lamoda.ru/p/b"])
  ∧ (∃ s', Shop.whole_run = Some (NoNewLinks, s')
           ∧ requested (trace s') = ["https://shop/c/";
                                     "https://shop/c/?page=2";
                                     "https://shop/c/?page=3"]
           ∧ output_on_disk s' = Some ["https://www.lamoda.ru/p/a";
                                       "https://www.lamoda.ru/p/b";
                                       "https://www.lamoda.ru/p/c"]).
Proof.
  split_and!.
  - vm_compute. reflexivity.
  - vm_compute. reflexivity.
  - eexists. split_and!; [vm_compute; reflexivity|vm_compute; reflexivity..].
  - eexists. split_and!; [vm_compute; reflexivity|vm_compute; reflexivity..].
Qed.

(** *** Concrete runs *)

(** The first part at the catalogue with [max_links = 1]: page one brings
    two links, and nothing is requested after it. *)
Lemma stop_condition_precedence_witness :
  requested [EWriteCheckpoint {| cp_links := Some ["https://www.lamoda.ru/p/a";
                                                    "https://www.lamoda.ru/p/b"];
                                 cp_current_page := Some 1 |};
             EPrint (ReachedMaximum 1);
             EWriteResults ["https://www.lamoda.ru/p/a"; "https://www.lamoda.ru/p/b"];
             EPrint (FinishedParsing 2)] = []
  ∧ 2 < 1 + 2.
Proof.
  destruct (proj1 (stop_condition_precedence Shop.catalogue (Shop.collector 1))
              None None) as (why & s' & Hrun & Hquiet).
  vm_compute in Hrun. injection Hrun as _ <-.
  apply (Hquiet [EPrint (StartingFrom 1);
                 EPrint (ProcessingPage 1 "https://shop/c/");
                 ESleep (5 # 2);
                 EGet "https://shop/c/" (Some "page one")]).
  - reflexivity.
  - simpl. lia.
Defined.

(** At the checkpoint left by the run killed after page one. *)
Lemma output_unique_in_first_seen_order_witness :
  ∃ why s',
    run Shop.catalogue (Shop.collector 1000)
      (init (Shop.collector 1000) Shop.after_page_one None) = Some (why, s')
    ∧ output_on_disk s' = Some (collected_links s')
    ∧ EWriteResults (collected_links s') ∈ trace s'
    ∧ NoDup (collected_links s')
    ∧ collected_links s'
      = first_seen (cp_links_of Shop.after_page_one ++ seen Shop.catalogue (trace s')).
Proof.
  apply (output_unique_in_first_seen_order Shop.catalogue (Shop.collector 1000)
           Shop.after_page_one None).
  apply (persisted_by_run None Shop.catalogue (Shop.collector 1000) None 1).
  apply persisted_fresh.
Defined.


(** C9, as stated, fails for the collector: before each of its three
    requests it sleeps the configured delay and nothing else. *)
Lemma collector_sleeps_without_jitter :
  ∃ s', Shop.whole_run = Some (NoNewLinks, s')
        ∧ requested (trace s') = ["https://shop/c/";
                                  "https://shop/c/?page=2";
                                  "https://shop/c/?page=3"]
        ∧ sleeps (trace s')
          = [request_delay (Shop.collector 1000);
             request_delay (Shop.collector 1000);
             request_delay (Shop.collector 1000)].
Proof.
  eexists. split_and!; [vm_compute; reflexivity|vm_compute; reflexivity..].
Qed.

End LinksFacts.

(* ================================================================== *)
(** ** The detail fetcher: resuming, checkpoints, prices, images *)
(* ================================================================== *)

Module DetailsFacts.
Import Details.
Open Scope py_scope.

(** *** Frames *)

Lemma frame_refl s : frame s s.
Proof.
  unfold frame. split_and!; try done.
  exists []. by rewrite app_nil_r.
Qed.

Lemma frame_trans s1 s2 s3 : frame s1 s2 -> frame s2 s3 -> frame s1 s3.
Proof.
  intros (Hl & Hi & Hc & Hf & evs & Ht & Hin) (Hl' & Hi' & Hc' & Hf' & evs' & Ht' & Hin').
  unfold frame. split_and!; try congruence.
  exists (evs ++ evs'). split.
  - by rewrite Ht', Ht, app_assoc.
  - by apply Forall_app.
Qed.

Lemma framed_ret {A} (a : A) : framed (ret a).
Proof. intros s r s' [= <- <-]. apply frame_refl. Qed.

Lemma framed_raise {A} e : framed (@raise A e).
Proof. intros s r s' [= <- <-]. apply frame_refl. Qed.

Lemma framed_get : framed get.
Proof. intros s r s' [= <- <-]. apply frame_refl. Qed.

Lemma framed_lift {A} (r : exn + A) : framed (lift r).
Proof. destruct r; [apply framed_raise|apply framed_ret]. Qed.

Lemma framed_bind {A B} (m : M A) (k : A -> M B) :
  framed m -> (∀ a, framed (k a)) -> framed (bind m k).
Proof.
  intros Hm Hk s r s' Hrun. unfold bind in Hrun.
  destruct (m s) as [[a|e] s1] eqn:Hms.
  - eapply frame_trans; [by eapply Hm|by eapply Hk].
  - simplify_eq. by eapply Hm.
Qed.

Lemma framed_try {A} (body : M A) (handler : exn -> M A) :
  framed body -> (∀ e, framed (handler e)) -> framed (try_except body handler).
Proof.
  intros Hm Hk s r s' Hrun. unfold try_except in Hrun.
  destruct (body s) as [[a|e] s1] eqn:Hms.
  - simplify_eq. by eapply Hm.
  - eapply frame_trans; [by eapply Hm|by eapply Hk].
Qed.

Lemma framed_emit e : inert e -> framed (emit e).
Proof.
  intros He s r s' [= <- <-]. unfold frame; simpl. split_and!; try done.
  exists [e]. split; [done|]. by apply Forall_singleton.
Qed.

Lemma framed_ask {A} (oracle : nat -> A) : framed (ask oracle).
Proof. intros s r s' [= <- <-]. unfold frame; simpl. split_and!; try done.
  exists []. by rewrite app_nil_r. Qed.

Lemma framed_call {A} (oracle : nat -> exn + A) : framed (call oracle).
Proof. apply framed_bind; [apply framed_ask|intros; apply framed_lift]. Qed.

Lemma framed_write p c : p ≠ CheckpointJson -> framed (write p c).
Proof.
  intros Hp s r s' [= <- <-]. unfold frame, fs_insert; simpl. split_and!; try done.
  - by rewrite decide_False.
  - exists [EWrite p c]. split; [done|]. apply Forall_singleton. by destruct p.
Qed.

Ltac framing :=
  repeat first
    [ apply framed_ret | apply framed_raise | apply framed_get
    | apply framed_lift | apply framed_ask | apply framed_call
    | apply framed_emit; exact I
    | apply framed_write; discriminate
    | apply framed_bind; [|intro]
    | apply framed_try; [|intro]
    | assumption
    | case_match ].

Lemma framed_parse w html page_url : framed (parse_product_page w html page_url).
Proof. unfold parse_product_page. framing. Qed.

Lemma framed_gallery w base_url divs urls : framed (gallery_urls w base_url divs urls).
Proof.
  revert urls. induction divs as [|div divs IH]; intros urls; simpl.
  - framing.
  - destruct div as [[src|]|]; [|apply IH..].
    destruct (truthy_str src); [|apply IH].
    apply framed_bind; [framing|intros; apply IH].
Qed.

Lemma framed_extract w html base_url : framed (extract_image_urls w html base_url).
Proof. unfold extract_image_urls. apply framed_bind; [framing|intros; apply framed_gallery]. Qed.

Lemma framed_attempts w index img_url attempts :
  framed (try_attempts w index img_url attempts).
Proof.
  induction attempts as [|attempt attempts IH]; simpl.
  - framing.
  - unfold print, sleep. framing.
Qed.

Lemma framed_candidates w index img_urls : framed (try_candidates w index img_urls).
Proof.
  induction img_urls as [|img_url img_urls IH]; cbn [try_candidates].
  - framing.
  - apply framed_bind; [apply framed_attempts|intros]. framing.
Qed.

Lemma framed_save_product w config index pd html :
  framed (save_product w config index pd html).
Proof.
  unfold save_product.
  apply framed_bind; [framing|intros].
  apply framed_bind; [apply framed_extract|intros].
  apply framed_bind; [apply framed_candidates|intros].
  framing.
Qed.

Lemma inert_silent evs :
  Forall inert evs ->
  visited evs = [] ∧ page_requests evs = [] ∧ checkpoint_writes evs = [].
Proof.
  induction 1 as [|e evs He _ (IH1 & IH2 & IH3)]; [done|].
  destruct e as [[]| | | | |[]|[]]; try done.
  all: split_and!; [exact IH1|exact IH2|exact IH3].
Qed.

Lemma visited_app tr1 tr2 : visited (tr1 ++ tr2) = visited tr1 ++ visited tr2.
Proof. apply omap_app. Qed.

Lemma page_requests_app tr1 tr2 :
  page_requests (tr1 ++ tr2) = page_requests tr1 ++ page_requests tr2.
Proof. apply omap_app. Qed.

Lemma checkpoint_writes_app tr1 tr2 :
  checkpoint_writes (tr1 ++ tr2) = checkpoint_writes tr1 ++ checkpoint_writes tr2.
Proof. apply omap_app. Qed.

(** *** One fetch *)

Lemma get_page_html_spec w config page_url s :
  ∃ r s' tail,
    get_page_html w config page_url s = (Ret r, s')
    ∧ trace s'
      = trace s ++ ESleep (request_delay config + uniform w (clock s) 0 2)%Q :: tail
    ∧ page_requests tail = [page_url]
    ∧ sleeps tail = []
    ∧ visited tail = []
    ∧ checkpoint_writes tail = []
    ∧ product_links s' = product_links s
    ∧ input_links s' = input_links s
    ∧ current_index s' = current_index s
    ∧ fs s' = fs s.
Proof.
  unfold get_page_html, restart_driver, call, sleep, print, emit, ask, lift,
    try_except, bind, ret, raise; simpl.
  repeat case_match; simplify_eq/=.
  all: do 3 eexists; split; [reflexivity|]; simpl.
  all: rewrite <- ?app_assoc; simpl.
  all: split; [reflexivity|]; split_and!; reflexivity.
Qed.

(** *** One turn of the loop *)

Lemma process_cases w config idx text page_url s :
  process w config idx text page_url s
  = match parse_product_page w text page_url s with
    | (Ret pd, s2) =>
        match save_product w config idx pd text s2 with
        | (Ret _, s3) => save_checkpoint config idx s3
        | (Raise e, s3) => (Raise e, s3)
        end
    | (Raise e, s2) => (Raise e, s2)
    end.
Proof.
  unfold process, bind.
  destruct (parse_product_page w text page_url s) as [[pd|e] s2]; [|done].
  by destruct (save_product w config idx pd text s2) as [[[]|e] s3].
Qed.

Lemma loop_body_unfold w config total idx page_url s :
  py_index (product_links s) idx = Some page_url ->
  loop_body w config total idx s
  = match get_page_html w config page_url
            (print (Item (idx + 1) total page_url) s).2 with
    | (Ret None, s1) => print (SkipAfterFetchError idx) s1
    | (Ret (Some text), s1) =>
        if negb (truthy_str text) then print (SkipAfterFetchError idx) s1
        else try_except (process w config idx text page_url)
               (fun e => print (ItemError idx e)) s1
    | (Raise e, s1) => (Raise e, s1)
    end.
Proof.
  intros Hidx. unfold loop_body, bind, get. rewrite Hidx. simpl.
  destruct (get_page_html w config page_url _) as [[[text|]|e] s1]; try done.
  by destruct (negb (truthy_str text)).
Qed.

Lemma loop_body_spec w config total idx page_url s :
  py_index (product_links s) idx = Some page_url ->
  ∃ s' evs,
    loop_body w config total idx s = (Ret tt, s')
    ∧ trace s' = trace s ++ EPrint (Item (idx + 1) total page_url) :: evs
    ∧ visited evs = []
    ∧ page_requests evs = [page_url]
    ∧ product_links s' = product_links s
    ∧ input_links s' = input_links s
    ∧ current_index s' = current_index s
    ∧ let s0 := (print (Item (idx + 1) total page_url) s).2 in
      (fetched_parsed_saved w config idx page_url s0
       ∧ checkpoint_writes evs = [last_index_document idx]
       ∧ fs s' CheckpointJson = Some (last_index_document idx))
      ∨ (¬ fetched_parsed_saved w config idx page_url s0
         ∧ checkpoint_writes evs = []
         ∧ fs s' CheckpointJson = fs s CheckpointJson
         ∧ ∃ pre, evs = pre ++ [EPrint (SkipAfterFetchError idx)]
                  ∨ ∃ e, evs = pre ++ [EPrint (ItemError idx e)]).
Proof.
  intros Hidx. rewrite (loop_body_unfold _ _ _ _ _ _ Hidx).
  unfold fetched_parsed_saved.
  set (s0 := (print (Item (idx + 1) total page_url) s).2).
  destruct (get_page_html_spec w config page_url s0)
    as (r & s1 & tail & -> & Htr & Hreq & _ & Hvis & Hcp & Hl & Hi & Hc & Hfs).
  assert (trace s0 = trace s ++ [EPrint (Item (idx + 1) total page_url)]) as Hs0
    by done.
  rewrite Hs0, <- app_assoc in Htr. simpl in Htr, Hl, Hi, Hc, Hfs.
  assert (∀ s' more,
            trace s' = trace s1 ++ more -> Forall inert more ->
            ∃ evs, trace s' = trace s ++ EPrint (Item (idx + 1) total page_url) :: evs
                   ∧ visited evs = [] ∧ page_requests evs = [page_url]
                   ∧ checkpoint_writes evs = []
                   ∧ evs = (ESleep (request_delay config + uniform w (clock s0) 0 2)
                            :: tail) ++ more) as Hquiet.
  { intros s' more Hmore Hin. destruct (inert_silent more Hin) as (Hv & Hp & Hw).
    exists ((ESleep (request_delay config + uniform w (clock s0) 0 2) :: tail) ++ more).
    split; [by rewrite Hmore, Htr, <- app_assoc|].
    rewrite visited_app, page_requests_app, checkpoint_writes_app, Hv, Hp, Hw.
    change (visited (ESleep ?d :: tail)) with (visited tail).
    change (page_requests (ESleep ?d :: tail)) with (page_requests tail).
    change (checkpoint_writes (ESleep ?d :: tail)) with (checkpoint_writes tail).
    by rewrite Hvis, Hreq, Hcp. }
  assert (∀ msg, inert (EPrint msg) -> ∀ s2, frame s1 s2 ->
            ∃ s' evs pre,
              print msg s2 = (Ret tt, s')
              ∧ trace s' = trace s ++ EPrint (Item (idx + 1) total page_url) :: evs
              ∧ visited evs = [] ∧ page_requests evs = [page_url]
              ∧ product_links s' = product_links s
              ∧ input_links s' = input_links s
              ∧ current_index s' = current_index s
              ∧ checkpoint_writes evs = []
              ∧ fs s' CheckpointJson = fs s CheckpointJson
              ∧ evs = pre ++ [EPrint msg]) as Hskip.
  { intros msg Hmsg s2 (Hl2 & Hi2 & Hc2 & Hf2 & more & Hmore & Hin).
    destruct (Hquiet (print msg s2).2 (more ++ [EPrint msg]))
      as (evs & Hevs & Hv & Hp & Hw & Heq).
    - simpl. by rewrite Hmore, <- app_assoc.
    - apply Forall_app. split; [done|]. by apply Forall_singleton.
    - exists (print msg s2).2, evs,
        ((ESleep (request_delay config + uniform w (clock s0) 0 2) :: tail) ++ more).
      split; [reflexivity|].
      split_and!; simpl; try first [exact Hevs|congruence].
      rewrite Heq. simpl. by rewrite app_assoc. }
  destruct r as [text|].
  - destruct (truthy_str text) eqn:Htruthy; cbn [negb].
    + unfold try_except. rewrite process_cases.
      pose proof (framed_parse w text page_url s1) as Hparse.
      destruct (parse_product_page w text page_url s1) as [[pd|e] s2] eqn:Hp.
      * specialize (Hparse _ _ eq_refl).
        pose proof (framed_save_product w config idx pd text s2) as Hsave.
        destruct (save_product w config idx pd text s2) as [[[]|e] s3] eqn:Hs.
        -- specialize (Hsave _ _ eq_refl).
           destruct (frame_trans _ _ _ Hparse Hsave)
             as (Hl3 & Hi3 & Hc3 & Hf3 & more & Hmore & Hin).
           destruct (Hquiet s3 more Hmore Hin) as (evs & Hevs & Hv & Hq & Hw & _).
           eexists _, (evs ++ [EWrite CheckpointJson (last_index_document idx)]).
           split; [reflexivity|]. simpl.
           split_and!; try congruence.
           ++ by rewrite Hevs, <- app_assoc.
           ++ by rewrite visited_app, Hv.
           ++ by rewrite page_requests_app, Hq.
           ++ left. split; [done|split].
              ** by rewrite checkpoint_writes_app, Hw.
              ** unfold fs_insert. by rewrite decide_True.
        -- specialize (Hsave _ _ eq_refl).
           destruct (Hskip (ItemError idx e) I s3 (frame_trans _ _ _ Hparse Hsave))
             as (s' & evs & pre & -> & ? & ? & ? & ? & ? & ? & ? & ? & ?).
           eexists _, _. split; [reflexivity|]. split_and!; try done.
           right. split_and!; try done; [tauto|]. exists pre. right. by exists e.
      * specialize (Hparse _ _ eq_refl).
        destruct (Hskip (ItemError idx e) I s2 Hparse)
          as (s' & evs & pre & -> & ? & ? & ? & ? & ? & ? & ? & ? & ?).
        eexists _, _. split; [reflexivity|]. split_and!; try done.
        right. split_and!; try done; [tauto|]. exists pre. right. by exists e.
    + destruct (Hskip (SkipAfterFetchError idx) I s1 (frame_refl s1))
        as (s' & evs & pre & -> & ? & ? & ? & ? & ? & ? & ? & ? & ?).
      eexists _, _. split; [reflexivity|]. split_and!; try done.
      right. split_and!; try done; [intros [? _]; congruence|]. exists pre. by left.
  - destruct (Hskip (SkipAfterFetchError idx) I s1 (frame_refl s1))
      as (s' & evs & pre & -> & ? & ? & ? & ? & ? & ? & ? & ? & ?).
    eexists _, _. split; [reflexivity|]. split_and!; try done.
    right. split_and!; try done; [tauto|]. exists pre. by left.
Qed.

(** *** The loop *)

Lemma file_after_app before evs1 evs2 :
  file_after (file_after before evs1) evs2 = file_after before (evs1 ++ evs2).
Proof.
  unfold file_after. rewrite checkpoint_writes_app, last_app.
  by destruct (last (checkpoint_writes evs2)).
Qed.

Lemma for_each_spec w config total links idxs s :
  product_links s = links ->
  Forall (fun i => is_Some (py_index links i)) idxs ->
  ∃ s' evs,
    for_each idxs (loop_body w config total) s = (Ret tt, s')
    ∧ trace s' = trace s ++ evs
    ∧ visited evs = idxs
    ∧ page_requests evs = omap (py_index links) idxs
    ∧ product_links s' = links
    ∧ input_links s' = input_links s
    ∧ current_index s' = current_index s
    ∧ fs s' CheckpointJson = file_after (fs s CheckpointJson) evs.
Proof.
  intros Hlinks Hvalid. revert s Hlinks.
  induction Hvalid as [|idx idxs [page_url Hidx] _ IH]; intros s Hlinks.
  - exists s, []. rewrite app_nil_r. by split_and!.
  - rewrite <- Hlinks in Hidx.
    destruct (loop_body_spec w config total idx page_url s Hidx)
      as (s1 & evs1 & Hrun & Htr & Hvis & Hreq & Hl & Hi & Hc & Hcp).
    destruct (IH s1) as (s' & evs & Hrun' & Htr' & Hvis' & Hreq' & Hl' & Hi' & Hc' & Hcp');
      [congruence|].
    exists s', (EPrint (Item (idx + 1) total page_url) :: evs1 ++ evs).
    cbn [for_each]. unfold bind at 1. rewrite Hrun.
    split; [done|]. split_and!; try congruence.
    + rewrite Htr', Htr, <- app_assoc. done.
    + change (visited (EPrint (Item (idx + 1) total page_url) :: evs1 ++ evs))
        with ((idx + 1 - 1) :: visited (evs1 ++ evs)).
      rewrite visited_app, Hvis, Hvis'. simpl. f_equal. lia.
    + change (page_requests (EPrint (Item (idx + 1) total page_url) :: evs1 ++ evs))
        with (page_requests (evs1 ++ evs)).
      rewrite page_requests_app, Hreq, Hreq'. simpl.
      rewrite <- Hlinks, Hidx. done.
    + rewrite Hcp'.
      change (file_after (fs s CheckpointJson)
                (EPrint (Item (idx + 1) total page_url) :: evs1 ++ evs))
        with (file_after (fs s CheckpointJson) (evs1 ++ evs)).
      rewrite <- file_after_app. f_equal.
      unfold file_after. simpl in Hcp.
      destruct Hcp as [(_ & -> & ->)|(_ & -> & -> & _)]; done.
Qed.

Lemma range_valid {A} (links : list A) a :
  - len links <= a ->
  Forall (fun i => is_Some (py_index links i)) (range a (len links)).
Proof.
  intros Ha. apply Forall_forall. intros i Hi.
  unfold range in Hi. apply elem_of_seqZ in Hi.
  unfold py_index, len in *.
  destruct (0 <=? i) eqn:Hpos.
  - apply Z.leb_le in Hpos. apply lookup_lt_is_Some. lia.
  - apply Z.leb_gt in Hpos.
    rewrite (proj2 (Z.leb_le 0 _)) by lia.
    apply lookup_lt_is_Some. lia.
Qed.

(** *** Loading *)

Lemma run_unfold w config :
  run w config = (load_links config ;; load_checkpoint config ;; crawl w config).
Proof. reflexivity. Qed.

Lemma load_links_spec config s :
  ∃ s', load_links config s = (Ret tt, s')
        ∧ product_links s' = loaded_links config (input_links s)
        ∧ input_links s' = input_links s
        ∧ current_index s' = current_index s
        ∧ fs s' = fs s
        ∧ trace s' = trace s.
Proof.
  unfold load_links, loaded_links, bind, get, set_product_links, ret.
  destruct (truthy_opt_int (max_products config)); eexists; by split_and!.
Qed.

Lemma load_checkpoint_absent config s :
  fs s CheckpointJson = None -> load_checkpoint config s = (Ret tt, s).
Proof. intros Hfs. unfold load_checkpoint, bind, get. by rewrite Hfs. Qed.

Lemma load_checkpoint_resume config s members n :
  fs s CheckpointJson = Some (Json (JObject members)) ->
  dict_lookup "last_index" members = Some (JInt n) ->
  ∃ s', load_checkpoint config s = (Ret tt, s')
        ∧ current_index s' = n + 1
        ∧ product_links s' = product_links s
        ∧ input_links s' = input_links s
        ∧ fs s' = fs s
        ∧ trace s' = trace s ++ [EPrint (ResumingFrom (n + 1))].
Proof.
  intros Hfs Hlast.
  unfold load_checkpoint, bind, get, try_except, lift, py_get. rewrite Hfs.
  simpl. rewrite Hlast. simpl. eexists. by split_and!.
Qed.

Lemma load_checkpoint_unusable config s file :
  fs s CheckpointJson = Some file ->
  unusable file ->
  ∃ s' evs, load_checkpoint config s = (Ret tt, s')
            ∧ current_index s' = current_index s
            ∧ product_links s' = product_links s
            ∧ input_links s' = input_links s
            ∧ fs s' = fs s
            ∧ trace s' = trace s ++ evs
            ∧ (evs = [] ∨ ∃ e, evs = [EPrint (CheckpointReadError e)]).
Proof.
  intros Hfs Hbad.
  unfold load_checkpoint, bind, get, try_except, lift, unusable in *.
  rewrite Hfs.
  destruct (json_load file) as [e|data]; simpl.
  - eexists _, _. split_and!; try done. right. by exists e.
  - destruct (py_get data "last_index") as [e|last]; simpl.
    + eexists _, _. split_and!; try done. right. by exists e.
    + rewrite Hbad. exists s, []. rewrite app_nil_r. split_and!; try done. by left.
Qed.

Lemma crawl_cut_spec turns w config links s :
  product_links s = links ->
  - len links <= current_index s ->
  ∃ s' evs,
    crawl_cut turns w config s = (Ret tt, s')
    ∧ trace s' = trace s ++ EPrint (StartingAt (current_index s) (len links)) :: evs
    ∧ visited evs = take turns (range (current_index s) (len links))
    ∧ page_requests evs
      = omap (py_index links) (take turns (range (current_index s) (len links)))
    ∧ product_links s' = links
    ∧ current_index s' = current_index s
    ∧ fs s' CheckpointJson = file_after (fs s CheckpointJson) evs.
Proof.
  intros Hlinks Hstart.
  destruct (for_each_spec w config (len links) links
              (take turns (range (current_index s) (len links)))
              (print (StartingAt (current_index s) (len links)) s).2)
    as (s' & evs & Hrun & Htr & Hvis & Hreq & Hl & Hi & Hc & Hcp).
  { done. }
  { apply Forall_take. by apply range_valid. }
  exists s', evs.
  unfold crawl_cut, bind at 1, get. rewrite Hlinks.
  unfold bind, print, emit in *. simpl in *. rewrite Hrun.
  split_and!; try done. by rewrite Htr, <- app_assoc.
Qed.

Lemma crawl_spec w config links s :
  product_links s = links ->
  - len links <= current_index s ->
  ∃ s' evs,
    crawl w config s = (Ret tt, s')
    ∧ trace s' = trace s ++ evs
    ∧ visited evs = range (current_index s) (len links)
    ∧ page_requests evs
      = omap (py_index links) (range (current_index s) (len links))
    ∧ fs s' CheckpointJson = None.
Proof.
  intros Hlinks Hstart.
  destruct (for_each_spec w config (len links) links
              (range (current_index s) (len links))
              (print (StartingAt (current_index s) (len links)) s).2)
    as (s1 & evs & Hrun & Htr & Hvis & Hreq & Hl & Hi & Hc & Hcp).
  { done. }
  { by apply range_valid. }
  unfold crawl, bind at 1, get. rewrite Hlinks.
  unfold bind, print, emit, get, remove, set_fs, ret in *. simpl in *. rewrite Hrun.
  destruct (fs s1 CheckpointJson) eqn:Hfile; simpl.
  - eexists _, (EPrint (StartingAt (current_index s) (len links)) :: evs
                ++ [ERemove CheckpointJson; EPrint AllProcessed]).
    split; [reflexivity|]. simpl. split_and!.
    + rewrite Htr, <- !app_assoc. done.
    + change (visited (evs ++ [ERemove CheckpointJson; EPrint AllProcessed])
              = range (current_index s) (len links)).
      by rewrite visited_app, Hvis, app_nil_r.
    + change (page_requests (evs ++ [ERemove CheckpointJson; EPrint AllProcessed])
              = omap (py_index links) (range (current_index s) (len links))).
      by rewrite page_requests_app, Hreq, app_nil_r.
    + unfold fs_insert. by rewrite decide_True.
  - eexists _, (EPrint (StartingAt (current_index s) (len links)) :: evs
                ++ [EPrint AllProcessed]).
    split; [reflexivity|]. simpl. split_and!.
    + rewrite Htr, <- !app_assoc. done.
    + change (visited (evs ++ [EPrint AllProcessed])
              = range (current_index s) (len links)).
      by rewrite visited_app, Hvis, app_nil_r.
    + change (page_requests (evs ++ [EPrint AllProcessed])
              = omap (py_index links) (range (current_index s) (len links))).
      by rewrite page_requests_app, Hreq, app_nil_r.
    + done.
Qed.

(** *** The checkpoint file follows the trace *)

Lemma tracked_still {A} (m : M A) :
  (∀ s r s', m s = (r, s') -> trace s' = trace s ∧ fs s' = fs s) -> tracked m.
Proof.
  intros Hm s r s' Hrun. destruct (Hm _ _ _ Hrun) as [Htr Hfs].
  exists []. rewrite app_nil_r. split; [done|]. by rewrite Hfs.
Qed.

Lemma tracked_ret {A} (a : A) : tracked (ret a).
Proof. apply tracked_still. by intros s r s' [= <- <-]. Qed.

Lemma tracked_raise {A} e : tracked (@raise A e).
Proof. apply tracked_still. by intros s r s' [= <- <-]. Qed.

Lemma tracked_get : tracked get.
Proof. apply tracked_still. by intros s r s' [= <- <-]. Qed.

Lemma tracked_lift {A} (r : exn + A) : tracked (lift r).
Proof. destruct r; [apply tracked_raise|apply tracked_ret]. Qed.

Lemma tracked_set_product_links links : tracked (set_product_links links).
Proof. apply tracked_still. by intros s r s' [= <- <-]. Qed.

Lemma tracked_set_current_index index : tracked (set_current_index index).
Proof. apply tracked_still. by intros s r s' [= <- <-]. Qed.

Lemma tracked_print m : tracked (print m).
Proof. intros s r s' [= <- <-]. by exists [EPrint m]. Qed.

Lemma tracked_write p c : tracked (write p c).
Proof.
  intros s r s' [= <- <-]. exists [EWrite p c]. split; [done|].
  simpl. unfold fs_insert, file_after. by destruct p.
Qed.

Lemma tracked_bind {A B} (m : M A) (k : A -> M B) :
  tracked m -> (∀ a, tracked (k a)) -> tracked (bind m k).
Proof.
  intros Hm Hk s r s' Hrun. unfold bind in Hrun.
  destruct (m s) as [[a|e] s1] eqn:Hms.
  - destruct (Hm _ _ _ Hms) as (evs1 & Ht1 & H1).
    destruct (Hk _ _ _ _ Hrun) as (evs2 & Ht2 & H2).
    exists (evs1 ++ evs2). split; [by rewrite Ht2, Ht1, app_assoc|].
    by rewrite H2, H1, file_after_app.
  - simplify_eq. by eapply Hm.
Qed.

Lemma tracked_try {A} (body : M A) (handler : exn -> M A) :
  tracked body -> (∀ e, tracked (handler e)) -> tracked (try_except body handler).
Proof.
  intros Hm Hk s r s' Hrun. unfold try_except in Hrun.
  destruct (body s) as [[a|e] s1] eqn:Hms.
  - simplify_eq. by eapply Hm.
  - destruct (Hm _ _ _ Hms) as (evs1 & Ht1 & H1).
    destruct (Hk _ _ _ _ Hrun) as (evs2 & Ht2 & H2).
    exists (evs1 ++ evs2). split; [by rewrite Ht2, Ht1, app_assoc|].
    by rewrite H2, H1, file_after_app.
Qed.

Lemma tracked_for_each {A} (xs : list A) (body : A -> M unit) :
  (∀ x, tracked (body x)) -> tracked (for_each xs body).
Proof.
  intros Hbody. induction xs as [|x xs IH]; simpl.
  - apply tracked_ret.
  - apply tracked_bind; [apply Hbody|by intros].
Qed.

Lemma tracked_framed {A} (m : M A) : framed m -> tracked m.
Proof.
  intros Hm s r s' Hrun.
  destruct (Hm _ _ _ Hrun) as (_ & _ & _ & Hfs & evs & Htr & Hevs).
  exists evs. split; [done|].
  destruct (inert_silent evs Hevs) as (_ & _ & Hw).
  unfold file_after. by rewrite Hw.
Qed.

Lemma tracked_get_page_html w config page_url :
  tracked (get_page_html w config page_url).
Proof.
  intros s r s' Hrun.
  destruct (get_page_html_spec w config page_url s)
    as (r0 & s0 & tail & Hspec & Htr & _ & _ & _ & Hw & _ & _ & _ & Hfs).
  rewrite Hspec in Hrun. injection Hrun as <- <-.
  eexists. split; [done|]. rewrite Hfs. unfold file_after.
  change (checkpoint_writes (ESleep ?d :: tail)) with (checkpoint_writes tail).
  by rewrite Hw.
Qed.

Lemma tracked_interrupted turns w config : tracked (interrupted turns w config).
Proof.
  unfold interrupted, crawl_cut, load_links, load_checkpoint, loop_body, process,
    save_checkpoint.
  repeat first
    [ apply tracked_ret | apply tracked_raise | apply tracked_get
    | apply tracked_lift | apply tracked_print | apply tracked_write
    | apply tracked_set_product_links | apply tracked_set_current_index
    | apply tracked_get_page_html
    | apply tracked_framed; first [apply framed_parse|apply framed_save_product]
    | apply tracked_bind; [|intro]
    | apply tracked_try; [|intro]
    | apply tracked_for_each; intro
    | case_match ].
Qed.

Lemma crawl_removes w config s s' :
  crawl w config s = (Ret tt, s') -> fs s' CheckpointJson = None.
Proof.
  unfold crawl. unfold bind at 1, get. unfold bind at 1, print, emit.
  unfold bind at 1.
  destruct (for_each _ _ _) as [[[]|e] s1]; [|done].
  unfold bind at 1, get. unfold bind, remove, set_fs, get, emit, ret.
  destruct (fs s1 CheckpointJson) eqn:Hfile; intros [= <-]; simpl.
  - unfold fs_insert. by rewrite decide_True.
  - done.
Qed.

(** *** Resuming *)

Lemma run_spec w config input files s1 s2 :
  load_links config (init config input files) = (Ret tt, s1) ->
  load_checkpoint config s1 = (Ret tt, s2) ->
  product_links s2 = loaded_links config input ->
  - len (loaded_links config input) <= current_index s2 ->
  checkpoint_writes (trace s2) = [] ->
  visited (trace s2) = [] ->
  page_requests (trace s2) = [] ->
  fs s2 = files ->
  (∃ s', run w config (init config input files) = (Ret tt, s')
         ∧ visited (trace s')
           = range (current_index s2) (len (loaded_links config input))
         ∧ page_requests (trace s')
           = omap (py_index (loaded_links config input))
               (range (current_index s2) (len (loaded_links config input)))
         ∧ fs s' CheckpointJson = None)
  ∧ (∀ turns,
       ∃ s', interrupted turns w config (init config input files) = (Ret tt, s')
             ∧ fs s' CheckpointJson
               = file_after (files CheckpointJson) (trace s')).
Proof.
  intros Hlinks Hcp Hl Hstart Hw Hv Hp Hfs. split.
  - destruct (crawl_spec w config _ s2 Hl Hstart)
      as (s' & evs & Hrun & Htr & Hvis & Hreq & Hgone).
    exists s'. rewrite run_unfold. unfold bind at 1. rewrite Hlinks.
    unfold bind at 1. rewrite Hcp. split; [done|].
    rewrite Htr, visited_app, page_requests_app, Hv, Hp. by split_and!.
  - intros turns.
    destruct (crawl_cut_spec turns w config _ s2 Hl Hstart)
      as (s' & evs & Hrun & Htr & _ & _ & _ & _ & Hfile).
    exists s'. unfold interrupted. unfold bind at 1. rewrite Hlinks.
    unfold bind at 1. rewrite Hcp. split; [done|].
    rewrite Hfile, Htr, Hfs.
    rewrite <- (file_after_app _ (trace s2)).
    unfold file_after at 3. by rewrite Hw.
Qed.

(** C1, amended.  With a checkpoint file holding [{last_index: n}], [n]
    an integer with [n + 1] no less than minus the length of the loaded
    list, the run returns, the turns of its loop are those of the indices
    [n+1 .. len-1], in order, none of them at or below [n], and the pages
    it requests are those of these indices.  With no checkpoint file, and
    a start offset no less than minus the length, the turns are those of
    [start_from .. len-1]. *)
Theorem resume_after_checkpoint w config input files :
  let links := loaded_links config input in
  (∀ members n,
     files CheckpointJson = Some (Json (JObject members)) ->
     dict_lookup "last_index" members = Some (JInt n) ->
     - len links <= n + 1 ->
     ∃ s', run w config (init config input files) = (Ret tt, s')
           ∧ visited (trace s') = range (n + 1) (len links)
           ∧ Forall (fun i => n < i) (visited (trace s'))
           ∧ page_requests (trace s')
             = omap (py_index links) (range (n + 1) (len links)))
  ∧ (files CheckpointJson = None ->
     - len links <= start_from config ->
     ∃ s', run w config (init config input files) = (Ret tt, s')
           ∧ visited (trace s') = range (start_from config) (len links)
           ∧ page_requests (trace s')
             = omap (py_index links) (range (start_from config) (len links))).
Proof.
  intros links.
  destruct (load_links_spec config (init config input files))
    as (s1 & Hlinks & Hl1 & Hi1 & Hc1 & Hf1 & Ht1).
  simpl in Hl1, Hi1, Hc1, Hf1, Ht1. split.
  - intros members n Hfile Hlast Hstart.
    destruct (load_checkpoint_resume config s1 members n)
      as (s2 & Hcp & Hc2 & Hl2 & Hi2 & Hf2 & Ht2); [by rewrite Hf1|done|].
    destruct (run_spec w config input files s1 s2 Hlinks Hcp)
      as [(s' & Hrun & Hv & Hp & _) _];
      [congruence|by rewrite Hc2|by rewrite Ht2, Ht1..|congruence|].
    exists s'. rewrite Hc2 in Hv, Hp. split_and!; try done.
    rewrite Hv. apply Forall_forall. intros i Hi.
    unfold range in Hi. apply elem_of_seqZ in Hi. lia.
  - intros Hfile Hstart.
    assert (load_checkpoint config s1 = (Ret tt, s1)) as Hcp
      by (apply load_checkpoint_absent; by rewrite Hf1).
    destruct (run_spec w config input files s1 s1 Hlinks Hcp)
      as [(s' & Hrun & Hv & Hp & _) _];
      [congruence|by rewrite Hc1|by rewrite Ht1..|congruence|].
    exists s'. rewrite Hc1 in Hv, Hp. by split_and!.
Qed.

(** C10, amended.  When the checkpoint path holds a file, not a
    directory (which [os.remove] refuses), and the file is unusable,
    reading it raises nothing, changes neither the start index nor the
    file, and prints at most the error; the run is then the crawl from the
    configured start offset, on the disk as found.  However many turns a
    run is allowed, and however it ends, the file is as found as long as
    no product has been checkpointed, and holds the last checkpoint
    written afterwards.  A run that returns has removed the file,
    overwritten or not; and with a start offset no less than minus the
    length of the list the run does return, after the turns of
    [start_from .. len-1]. *)
Theorem unusable_checkpoint_is_ignored w config input files file :
  files CheckpointJson = Some file ->
  file ≠ Dir ->
  unusable file ->
  (∀ s, fs s CheckpointJson = Some file ->
        ∃ s' evs, load_checkpoint config s = (Ret tt, s')
                  ∧ current_index s' = current_index s
                  ∧ fs s' = fs s
                  ∧ trace s' = trace s ++ evs
                  ∧ (evs = [] ∨ ∃ e, evs = [EPrint (CheckpointReadError e)]))
  ∧ (∃ s2,
       run w config (init config input files) = crawl w config s2
       ∧ current_index s2 = start_from config
       ∧ product_links s2 = loaded_links config input
       ∧ fs s2 = files
       ∧ (trace s2 = [] ∨ ∃ e, trace s2 = [EPrint (CheckpointReadError e)]))
  ∧ (∀ turns r s',
       interrupted turns w config (init config input files) = (r, s') ->
       fs s' CheckpointJson = file_after (Some file) (trace s'))
  ∧ (∀ s', run w config (init config input files) = (Ret tt, s') ->
           fs s' CheckpointJson = None)
  ∧ (- len (loaded_links config input) <= start_from config ->
     ∃ s', run w config (init config input files) = (Ret tt, s')
           ∧ visited (trace s')
             = range (start_from config) (len (loaded_links config input))).
Proof.
  intros Hfile _ Hbad.
  destruct (load_links_spec config (init config input files))
    as (s1 & Hlinks & Hl1 & Hi1 & Hc1 & Hf1 & Ht1).
  simpl in Hl1, Hi1, Hc1, Hf1, Ht1.
  destruct (load_checkpoint_unusable config s1 file)
    as (s2 & evs & Hcp & Hc2 & Hl2 & Hi2 & Hf2 & Ht2 & Hevs);
    [by rewrite Hf1|done|].
  rewrite Ht1 in Ht2. simpl in Ht2.
  assert (run w config (init config input files) = crawl w config s2) as Hrun.
  { rewrite run_unfold. unfold bind at 1. rewrite Hlinks.
    unfold bind at 1. by rewrite Hcp. }
  split_and!.
  - intros s Hs.
    destruct (load_checkpoint_unusable config s file Hs Hbad)
      as (s' & evs' & ? & ? & ? & ? & ? & ? & ?).
    exists s', evs'. by split_and!.
  - exists s2. split_and!; try congruence.
    rewrite Ht2. destruct Hevs as [->|[e ->]]; [by left|right; by exists e].
  - intros turns r s' Hcut.
    destruct (tracked_interrupted turns w config _ _ _ Hcut) as (evs' & Htr & Hfs).
    simpl in Htr, Hfs. by rewrite Htr, Hfs, Hfile.
  - intros s' Hret. rewrite Hrun in Hret. by eapply crawl_removes.
  - intros Hstart.
    assert (Forall inert evs) as Hinert.
    { destruct Hevs as [->|[e ->]]; [done|]. by apply Forall_singleton. }
    destruct (inert_silent evs Hinert) as (Hv0 & Hp0 & Hw0).
    destruct (run_spec w config input files s1 s2 Hlinks Hcp)
      as [(s' & Hret & Hv & _ & _) _];
      [congruence|by rewrite Hc2, Hc1|by rewrite Ht2..|congruence|].
    exists s'. rewrite Hc2, Hc1 in Hv. by split.
Qed.

(** *** Where the checkpoint is written *)

(** C6.  In the turn of an index the loop body returns, so the loop goes
    on with the next index.  The checkpoint file is written in that turn,
    once and with [{last_index: idx}], exactly when the page was fetched,
    parsed and its output unit saved without an exception; then the file
    holds that document.  Otherwise (the fetch gave nothing, or parsing or
    saving raised) nothing is written to the checkpoint file and it is as
    before the turn. *)
Theorem checkpoint_written_only_on_success w config total idx page_url s :
  py_index (product_links s) idx = Some page_url ->
  let s0 := (print (Item (idx + 1) total page_url) s).2 in
  ∃ s' evs,
    loop_body w config total idx s = (Ret tt, s')
    ∧ (∀ rest, for_each (idx :: rest) (loop_body w config total) s
               = for_each rest (loop_body w config total) s')
    ∧ trace s' = trace s ++ evs
    ∧ (fetched_parsed_saved w config idx page_url s0
       ↔ checkpoint_writes evs = [last_index_document idx])
    ∧ (fetched_parsed_saved w config idx page_url s0 ->
       fs s' CheckpointJson = Some (last_index_document idx))
    ∧ (¬ fetched_parsed_saved w config idx page_url s0 ->
       checkpoint_writes evs = [] ∧ fs s' CheckpointJson = fs s CheckpointJson).
Proof.
  intros Hidx s0.
  destruct (loop_body_spec w config total idx page_url s Hidx)
    as (s' & evs & Hrun & Htr & _ & _ & _ & _ & _ & Hcases).
  exists s', (EPrint (Item (idx + 1) total page_url) :: evs).
  split; [done|]. split.
  { intros rest. cbn [for_each]. unfold bind. by rewrite Hrun. }
  split; [done|].
  change (checkpoint_writes (EPrint (Item (idx + 1) total page_url) :: evs))
    with (checkpoint_writes evs).
  fold s0 in Hcases.
  destruct Hcases as [(Hok & Hw & Hfile)|(Hbad & Hw & Hfile & _)].
  - rewrite Hw. split_and!; try done; tauto.
  - rewrite Hw. split_and!; try done; tauto.
Qed.

(** *** Prices *)

Lemma set_attribute_prices pd item :
  price (set_attribute pd item) = price pd
  ∧ old_price (set_attribute pd item) = old_price pd.
Proof. by destruct item as [[name|] [val|]]. Qed.

Lemma fold_set_attribute_prices items pd :
  price (fold_left set_attribute items pd) = price pd
  ∧ old_price (fold_left set_attribute items pd) = old_price pd.
Proof.
  revert pd. induction items as [|item items IH]; intros pd; [done|].
  simpl. destruct (IH (set_attribute pd item)) as [-> ->].
  apply set_attribute_prices.
Qed.

Lemma set_prices_spec elements pd :
  price pd = None -> old_price pd = None ->
  match elements with
  | first :: second :: _ =>
      old_price (set_prices elements pd) = Some first
      ∧ price (set_prices elements pd) = Some second
  | [only] =>
      price (set_prices elements pd) = Some only
      ∧ old_price (set_prices elements pd) = None
  | [] =>
      price (set_prices elements pd) = None
      ∧ old_price (set_prices elements pd) = None
  end.
Proof.
  intros Hprice Hold. unfold set_prices.
  destruct elements as [|first [|second others]]; try done.
  assert ((2 <=? len (first :: second :: others)) = true) as ->; [|done].
  apply Z.leb_le. unfold len. simpl. lia.
Qed.

(** C8.  When the page parses, [parse_product_page] returns a record
    whose [old_price] and [price] are the texts of the first and second
    price elements if there are at least two, whose [price] is the text of
    the only one (and [old_price] is [None]) if there is exactly one, and
    whose two fields are [None] if there is none. *)
Theorem price_parsing w html page_url s page :
  BeautifulSoup w html = inr page ->
  ∃ pd,
    parse_product_page w html page_url s = (Ret pd, s)
    ∧ match price_elements page with
      | first :: second :: _ => old_price pd = Some first ∧ price pd = Some second
      | [only] => price pd = Some only ∧ old_price pd = None
      | [] => price pd = None ∧ old_price pd = None
      end.
Proof.
  intros Hpage. unfold parse_product_page, bind, lift. rewrite Hpage.
  cbn [ret].
  set (pd0 := {| url := page_url; price := None; old_price := None;
                 description := None; attributes := [] |}).
  pose proof (set_prices_spec (price_elements page) pd0 eq_refl eq_refl) as Hprices.
  destruct (reviews_and_questions page) as [info|]; eexists; (split; [reflexivity|]).
  - destruct (fold_set_attribute_prices (items info)
                match description_div info with
                | Some text => set_description text (set_prices (price_elements page) pd0)
                | None => set_prices (price_elements page) pd0
                end) as [-> ->].
    by destruct (description_div info).
  - done.
Qed.

(** *** Images *)

(** An attempt answered with another status than 200 is followed by the
    next attempt at once: nothing but the request is added to the trace. *)
Lemma refused_attempt_is_not_paced w index img_url attempt attempts s status body :
  requests_image w (clock s) img_url = inr (status, body) ->
  status ≠ 200 ->
  ∃ s1,
    try_attempts w index img_url (attempt :: attempts) s
    = try_attempts w index img_url attempts s1
    ∧ trace s1 = trace s ++ [EGetImage img_url].
Proof.
  intros Hget Hstatus%Z.eqb_neq.
  cbn [try_attempts]. unfold call, try_except, bind, ask, emit, lift.
  simpl. rewrite Hget. simpl. rewrite Hstatus.
  eexists. split; reflexivity.
Qed.

(** C7, at a product with one candidate image that the server answers
    with 404: the three attempts follow each other with no pause, then the
    sentinel is written and no image file.  The pause of one second is
    taken only after an attempt that raised, and then also after the
    third. *)
Theorem attempts_answered_404_are_not_paced :
  Store.refused_save.1 = Ret tt
  ∧ download_steps (trace Store.refused_save.2)
    = [EGetImage "https://shop/img/1.jpg";
       EGetImage "https://shop/img/1.jpg";
       EGetImage "https://shop/img/1.jpg"]
  ∧ fs Store.refused_save.2 (ProductFile 0 "no_image.txt") = Some (Bytes "")
  ∧ fs Store.refused_save.2 (ProductFile 0 "image.jpg") = None
  ∧ download_steps (trace Store.failed_save.2)
    = [EGetImage "https://shop/img/1.jpg"; ESleep 1;
       EGetImage "https://shop/img/1.jpg"; ESleep 1;
       EGetImage "https://shop/img/1.jpg"; ESleep 1].
Proof. vm_compute. by split_and!. Qed.

(** *** Appending to the trace *)

Section Appends.
Variable P : list event -> Prop.
Hypothesis P_nil : P [].
Hypothesis P_app : ∀ evs1 evs2, P evs1 -> P evs2 -> P (evs1 ++ evs2).

Lemma appends_silent {A} (m : M A) :
  (∀ s r s', m s = (r, s') -> trace s' = trace s) -> appends P m.
Proof.
  intros Hm s r s' Hrun. exists []. rewrite app_nil_r.
  split; [by eapply Hm|done].
Qed.

Lemma appends_ret {A} (a : A) : appends P (ret a).
Proof. apply appends_silent. by intros s r s' [= <- <-]. Qed.

Lemma appends_raise {A} e : appends P (@raise A e).
Proof. apply appends_silent. by intros s r s' [= <- <-]. Qed.

Lemma appends_get : appends P get.
Proof. apply appends_silent. by intros s r s' [= <- <-]. Qed.

Lemma appends_lift {A} (r : exn + A) : appends P (lift r).
Proof. destruct r; [apply appends_raise|apply appends_ret]. Qed.

Lemma appends_ask {A} (oracle : nat -> A) : appends P (ask oracle).
Proof. apply appends_silent. by intros s r s' [= <- <-]. Qed.

Lemma appends_set_product_links links : appends P (set_product_links links).
Proof. apply appends_silent. by intros s r s' [= <- <-]. Qed.

Lemma appends_set_current_index index : appends P (set_current_index index).
Proof. apply appends_silent. by intros s r s' [= <- <-]. Qed.

Lemma appends_set_fs files : appends P (set_fs files).
Proof. apply appends_silent. by intros s r s' [= <- <-]. Qed.

Lemma appends_emit e : P [e] -> appends P (emit e).
Proof. intros He s r s' [= <- <-]. by exists [e]. Qed.

Lemma appends_bind {A B} (m : M A) (k : A -> M B) :
  appends P m -> (∀ a, appends P (k a)) -> appends P (bind m k).
Proof.
  intros Hm Hk s r s' Hrun. unfold bind in Hrun.
  destruct (m s) as [[a|e] s1] eqn:Hms.
  - destruct (Hm _ _ _ Hms) as (evs1 & Ht1 & H1).
    destruct (Hk _ _ _ _ Hrun) as (evs2 & Ht2 & H2).
    exists (evs1 ++ evs2). split; [by rewrite Ht2, Ht1, app_assoc|by apply P_app].
  - simplify_eq. by eapply Hm.
Qed.

Lemma appends_try {A} (body : M A) (handler : exn -> M A) :
  appends P body -> (∀ e, appends P (handler e)) ->
  appends P (try_except body handler).
Proof.
  intros Hm Hk s r s' Hrun. unfold try_except in Hrun.
  destruct (body s) as [[a|e] s1] eqn:Hms.
  - simplify_eq. by eapply Hm.
  - destruct (Hm _ _ _ Hms) as (evs1 & Ht1 & H1).
    destruct (Hk _ _ _ _ Hrun) as (evs2 & Ht2 & H2).
    exists (evs1 ++ evs2). split; [by rewrite Ht2, Ht1, app_assoc|by apply P_app].
Qed.

Lemma appends_for_each {A} (xs : list A) (body : A -> M unit) :
  (∀ x, appends P (body x)) -> appends P (for_each xs body).
Proof.
  intros Hbody. induction xs as [|x xs IH]; simpl.
  - apply appends_ret.
  - apply appends_bind; [apply Hbody|by intros].
Qed.

Lemma appends_framed {A} (m : M A) :
  (∀ evs, Forall inert evs -> P evs) -> framed m -> appends P m.
Proof.
  intros Hinert Hm s r s' Hrun.
  destruct (Hm _ _ _ Hrun) as (_ & _ & _ & _ & evs & Htr & Hevs).
  exists evs. split; [done|by apply Hinert].
Qed.
End Appends.

(** *** Pacing *)

Lemma paced_concat ok armed tr1 tr2 :
  paced ok armed tr1 ->
  (∀ armed', paced ok armed' tr2) ->
  paced ok armed (tr1 ++ tr2).
Proof.
  intros H1 H2. revert armed H1.
  induction tr1 as [|e tr1 IH]; intros armed H1; [apply H2|].
  destruct e; simpl in *; try (by apply IH).
  destruct H1 as [Harmed H1]. split; [done|by apply IH].
Qed.

Lemma paced_before_request ok armed pre page_url post :
  paced ok armed (pre ++ EGetPage page_url :: post) ->
  (armed ∧ page_requests pre = [])
  ∨ ∃ pre' d mid, pre = pre' ++ ESleep d :: mid ∧ ok d ∧ page_requests mid = [].
Proof.
  revert armed. induction pre as [|e pre IH]; intros armed Hp.
  - left. by destruct Hp.
  - destruct e as [m|d| |u|u|p c|p]; simpl in Hp.
    2: { destruct (IH _ Hp) as [[[Ha|Hd] Hr]|(pre' & d' & mid & -> & Hd & Hm)].
         - by left.
         - right. by exists [], d, pre.
         - right. by exists (ESleep d :: pre'), d', mid. }
    3: { destruct Hp as [_ Hp].
         destruct (IH _ Hp) as [[[] _]|(pre' & d & mid & -> & Hd & Hm)].
         right. by exists (EGetPage u :: pre'), d, mid. }
    all: destruct (IH _ Hp) as [[Ha Hr]|(pre' & d & mid & -> & Hd & Hm)];
      [by left|right].
    all: by eexists (_ :: pre'), d, mid.
Qed.

Lemma paced_without_request ok armed tr :
  page_requests tr = [] -> paced ok armed tr.
Proof.
  revert armed. induction tr as [|e tr IH]; intros armed Hreq; [done|].
  destruct e; simpl; try (by apply IH). done.
Qed.

Lemma paced_single_request ok (armed : Prop) tr page_url :
  armed -> page_requests tr = [page_url] -> paced ok armed tr.
Proof.
  revert armed. induction tr as [|e tr IH]; intros armed Harmed Hreq; [done|].
  destruct e; simpl; try (by apply IH).
  - apply IH; [by left|done].
  - split; [done|]. apply paced_without_request.
    by injection Hreq.
Qed.

Lemma always_paced_nil w config : always_paced w config [].
Proof. by intros armed. Qed.

Lemma always_paced_app w config evs1 evs2 :
  always_paced w config evs1 -> always_paced w config evs2 ->
  always_paced w config (evs1 ++ evs2).
Proof. intros H1 H2 armed. by apply paced_concat. Qed.

Lemma always_paced_inert w config evs :
  Forall inert evs -> always_paced w config evs.
Proof.
  intros Hin armed. apply paced_without_request.
  by destruct (inert_silent evs Hin) as (_ & ? & _).
Qed.

Lemma get_page_html_paced w config page_url :
  appends (always_paced w config) (get_page_html w config page_url).
Proof.
  intros s r s' Hrun.
  destruct (get_page_html_spec w config page_url s)
    as (r0 & s0 & tail & Hspec & Htr & Hreq & _).
  rewrite Hspec in Hrun. injection Hrun as <- <-.
  eexists. split; [done|]. intros armed. simpl.
  eapply paced_single_request; [|done]. right. by eexists.
Qed.

Lemma run_paced w config :
  appends (always_paced w config) (run w config).
Proof.
  pose proof (always_paced_nil w config) as Hnil.
  pose proof (always_paced_app w config) as Happ.
  pose proof (always_paced_inert w config) as Hinert.
  assert (∀ e, inert e -> always_paced w config [e]) as Hone.
  { intros e He. apply Hinert. by apply Forall_singleton. }
  assert (∀ m, always_paced w config [EPrint m]) as Hprint.
  { intros m armed. by destruct m. }
  unfold run, load_links, load_checkpoint, loop_body, process, save_checkpoint,
    write, remove, print.
  repeat first
    [ apply appends_ret; exact Hnil
    | apply appends_raise; exact Hnil
    | apply appends_get; exact Hnil
    | apply appends_lift; exact Hnil
    | apply appends_ask; exact Hnil
    | apply appends_set_product_links; exact Hnil
    | apply appends_set_current_index; exact Hnil
    | apply appends_set_fs; exact Hnil
    | apply get_page_html_paced
    | apply appends_emit; first [apply Hprint|apply Hone; exact I|by intros ?]
    | apply appends_framed;
        [exact Hinert|first [apply framed_parse|apply framed_save_product]]
    | apply appends_bind; [exact Happ| |intro]
    | apply appends_try; [exact Happ| |intro]
    | apply appends_for_each; [exact Hnil|exact Happ|intro]
    | case_match ].
Qed.

(** *** Concrete runs *)

(** C1, as stated, fails for a checkpoint whose [last_index] lies more
    than one below minus the length of the list.  With [{last_index: -3}]
    and one link the indices [-2 .. 0] are due; the first lookup,
    [product_links[-2]], raises [IndexError] outside every handler and the
    run ends without a single turn. *)
Lemma far_negative_last_index_aborts_the_run :
  range (-3 + 1) (len ["https://shop/p/a"]) = [-2; -1; 0]
  ∧ Store.far_negative_run.1 = Raise IndexError
  ∧ visited (trace Store.far_negative_run.2) = []
  ∧ page_requests (trace Store.far_negative_run.2) = [].
Proof. vm_compute. by split_and!. Qed.

(** At three links and the checkpoint [{last_index: 1}]. *)
Lemma resume_after_checkpoint_witness :
  ∃ s',
    run Store.online Store.fetcher
      (init Store.fetcher Store.three_links
         (Store.disk (Some (last_index_document 1)))) = (Ret tt, s')
    ∧ visited (trace s') = range (1 + 1) (len Store.three_links)
    ∧ Forall (fun i => 1 < i) (visited (trace s'))
    ∧ page_requests (trace s')
      = omap (py_index Store.three_links) (range (1 + 1) (len Store.three_links)).
Proof.
  apply (proj1 (resume_after_checkpoint Store.online Store.fetcher
                  Store.three_links (Store.disk (Some (last_index_document 1))))
           [("last_index", JInt 1)] 1).
  - reflexivity.
  - reflexivity.
  - vm_compute. discriminate.
Defined.

(** C10, as stated, fails when no product succeeds: the unusable file is
    not left in place, the run removes it at its end although nothing was
    checkpointed. *)
Lemma unusable_checkpoint_removed_without_success :
  unusable (Garbled "{")
  ∧ Store.offline_run.1 = Ret tt
  ∧ visited (trace Store.offline_run.2) = [0; 1; 2]
  ∧ checkpoint_writes (trace Store.offline_run.2) = []
  ∧ fs Store.offline_run.2 CheckpointJson = None.
Proof. vm_compute. by split_and!. Qed.

(** At a truncated checkpoint file, with no page that loads. *)
Lemma unusable_checkpoint_is_ignored_witness :
  ∃ s',
    run Store.offline Store.fetcher
      (init Store.fetcher Store.three_links (Store.disk (Some (Garbled "{"))))
    = (Ret tt, s')
    ∧ visited (trace s')
      = range (start_from Store.fetcher)
          (len (loaded_links Store.fetcher Store.three_links)).
Proof.
  apply (unusable_checkpoint_is_ignored Store.offline Store.fetcher
           Store.three_links (Store.disk (Some (Garbled "{"))) (Garbled "{")).
  - reflexivity.
  - discriminate.
  - exact I.
  - vm_compute. discriminate.
Defined.

(** At the first of three links, every page and image being served. *)
Lemma checkpoint_written_only_on_success_witness :
  ∃ s' evs,
    loop_body Store.online Store.fetcher 3 0 Store.loaded = (Ret tt, s')
    ∧ (∀ rest, for_each (0 :: rest) (loop_body Store.online Store.fetcher 3) Store.loaded
               = for_each rest (loop_body Store.online Store.fetcher 3) s')
    ∧ trace s' = trace Store.loaded ++ evs
    ∧ (fetched_parsed_saved Store.online Store.fetcher 0 "https://shop/p/a"
         (print (Item (0 + 1) 3 "https://shop/p/a") Store.loaded).2
       ↔ checkpoint_writes evs = [last_index_document 0])
    ∧ (fetched_parsed_saved Store.online Store.fetcher 0 "https://shop/p/a"
         (print (Item (0 + 1) 3 "https://shop/p/a") Store.loaded).2 ->
       fs s' CheckpointJson = Some (last_index_document 0))
    ∧ (¬ fetched_parsed_saved Store.online Store.fetcher 0 "https://shop/p/a"
           (print (Item (0 + 1) 3 "https://shop/p/a") Store.loaded).2 ->
       checkpoint_writes evs = [] ∧ fs s' CheckpointJson = fs Store.loaded CheckpointJson).
Proof.
  apply (checkpoint_written_only_on_success Store.online Store.fetcher 3 0
           "https://shop/p/a" Store.loaded).
  reflexivity.
Defined.

(** At a page with the two price elements 999 and 1499. *)
Lemma price_parsing_witness :
  ∃ pd,
    parse_product_page Store.online "<html>" "https://shop/p/a" Store.loaded
    = (Ret pd, Store.loaded)
    ∧ old_price pd = Some "999" ∧ price pd = Some "1499".
Proof.
  apply (price_parsing Store.online "<html>" "https://shop/p/a" Store.loaded
           Store.product_page).
  reflexivity.
Defined.

End DetailsFacts.

(* ================================================================== *)
(** ** The link collector: a navigation that raises *)
(* ================================================================== *)

Module NavigationFacts.
Import Links LinksFacts.









End NavigationFacts.

(* ================================================================== *)
(** ** Both pipelines: failures and pacing *)
(* ================================================================== *)

Module Pipelines.
Import Details DetailsFacts LinksFacts NavigationFacts.




(** C9, amended.  In the trace of a run of the detail fetcher every page
    request comes after a sleep of the configured delay plus one draw of
    [random.uniform(0, 2)], with no other page request in between; a
    world that draws within the range it is asked for keeps that sleep
    between the delay and the delay plus two seconds.  In the trace of a
    run of the link collector every page request comes after a sleep of
    the configured delay, and nothing more, with no other request in
    between. *)
Theorem pacing_before_each_fetch
    (w : Details.World) (config : Details.ParserConfig)
    (wl : Links.World) (lconfig : Links.ParserConfig) :
  (∀ input files r s' pre page_url post,
     Details.run w config (Details.init config input files) = (r, s') ->
     Details.trace s' = pre ++ Details.EGetPage page_url :: post ->
     ∃ pre' d mid,
       pre = pre' ++ Details.ESleep d :: mid
       ∧ Details.pacing_sleep w config d
       ∧ Details.page_requests mid = [])
  ∧ (Details.uniform_in_range w ->
     ∀ d, Details.pacing_sleep w config d ->
          (Details.request_delay config <= d)%Q
          ∧ (d <= Details.request_delay config + 2)%Q)
  ∧ (∀ cp out why s' pre url response post,
       Links.run wl lconfig (Links.init lconfig cp out) = Some (why, s') ->
       Links.trace s' = pre ++ Links.EGet url response :: post ->
       ∃ pre' mid,
         pre = pre' ++ Links.ESleep (Links.request_delay lconfig) :: mid
         ∧ Links.requested mid = []).
Proof.
  split_and!.
  - intros input files r s' pre page_url post Hrun Htr.
    destruct (run_paced w config _ _ _ Hrun) as (evs & Hevs & Hpaced).
    simpl in Hevs. rewrite Hevs in Htr. subst evs.
    destruct (paced_before_request _ _ _ _ _ (Hpaced False))
      as [[[] _]|(pre' & d & mid & -> & Hd & Hmid)].
    by exists pre', d, mid.
  - intros Hrange d [t ->].
    destruct (Hrange t 0%Q 2%Q) as [Hlo Hhi]; [done|].
    split; lra.
  - intros cp out why s' pre url response post Hrun Htr.
    pose proof (collector_run_paced wl lconfig cp out why s' Hrun) as Hpaced.
    rewrite Htr in Hpaced.
    destruct (paced_split _ _ _ _ _ _ Hpaced)
      as [[[] _]|(pre' & d & mid & -> & <- & Hmid)].
    by exists pre', mid.
Qed.

(** *** Concrete runs *)

Lemma online_uniform_in_range : uniform_in_range Store.online.
Proof. intros t a b Hab. simpl. split; lra. Defined.

(** The bounds at a world that draws the middle of the range, and the
    first request of the catalogue run. *)
Lemma pacing_before_each_fetch_witness :
  ((Details.request_delay Store.fetcher
    <= Details.request_delay Store.fetcher + Details.uniform Store.online 0 0 2)%Q
   ∧ (Details.request_delay Store.fetcher + Details.uniform Store.online 0 0 2
      <= Details.request_delay Store.fetcher + 2)%Q)
  ∧ ∃ pre' mid,
      [Links.EPrint (Links.StartingFrom 1);
       Links.EPrint (Links.ProcessingPage 1 "https://shop/c/");
       Links.ESleep (5 # 2)]
      = pre' ++ Links.ESleep (Links.request_delay (Shop.collector 1000)) :: mid
      ∧ Links.requested mid = [].
Proof.
  pose proof (pacing_before_each_fetch Store.online Store.fetcher
                Shop.catalogue (Shop.collector 1000)) as (_ & Hbound & Hlinks).
  split.
  - apply (Hbound online_uniform_in_range).
    by exists 0%nat.
  - eapply (Hlinks None None _ _ _ "https://shop/c/" (Some "page one")).
    + vm_compute. reflexivity.
    + reflexivity.
Defined.


End Pipelines.

(* ================================================================== *)
(** ** The link collector: further properties *)
(* ================================================================== *)

Module CollectorFacts.
Import Links LinksFacts.

(** *** Page URLs *)

Lemma append_empty (s : string) : s +:+ "" = s.
Proof. induction s as [|a s IH]; [done|]. rewrite <- IH at 2. reflexivity. Qed.

(** X1.  The URL requested for a page identifies the page: two page
    numbers give the same URL only when they are equal.  Page 1 is the
    bare [base_url]; any other page carries its number after [?page=]. *)
Theorem page_url_distinguishes_pages config p q :
  page_url config p = page_url config q ↔ p = q.
Proof.
  split; [|by intros ->].
  unfold page_url. intros H.
  destruct (p =? 1) eqn:Hp, (q =? 1) eqn:Hq.
  - apply Z.eqb_eq in Hp, Hq. lia.
  - exfalso. rewrite <- (append_empty (base_url config)) in H at 1.
    apply (inj (String.app _)) in H. discriminate.
  - exfalso. rewrite <- (append_empty (base_url config)) in H at 2.
    apply (inj (String.app _)) in H. discriminate.
  - apply (inj (String.app _)) in H. apply (inj (String.app _)) in H.
    by apply (inj pretty) in H.
Qed.

(** *** The links of one page *)

Lemma add_card_spec collected links href :
  NoDup links ->
  (∀ x, x ∈ links -> x ∉ collected) ->
  NoDup (add_card collected links href)
  ∧ (∀ x, x ∈ add_card collected links href
          ↔ x ∈ links ∨ (card_url href = Some x ∧ x ∉ collected)).
Proof.
  intros Hnd Hdis. unfold add_card, card_url, py_in.
  destruct href as [h|]; [|split; [done|intuition congruence]].
  destruct (truthy_str h && String.prefix "/p/" h);
    [|split; [done|intuition congruence]].
  simpl. repeat case_bool_decide; simpl.
  all: split; [try done|].
  all: try (intros x; split; [by left|]; intros [?|[[= <-] ?]]; done).
  all: try (intros x; split; [by left|]; intros [?|[? ?]]; done).
  - apply NoDup_app. split_and!; [done| |apply NoDup_singleton].
    intros x Hx ->%list_elem_of_singleton. done.
  - intros x. rewrite elem_of_app, list_elem_of_singleton. intuition congruence.
Qed.

Lemma fold_add_card_spec collected cards links :
  NoDup links ->
  (∀ x, x ∈ links -> x ∉ collected) ->
  NoDup (fold_left (add_card collected) cards links)
  ∧ (∀ x, x ∈ fold_left (add_card collected) cards links
          ↔ x ∈ links ∨ (x ∈ omap card_url cards ∧ x ∉ collected)).
Proof.
  revert links. induction cards as [|href cards IH]; intros links Hnd Hdis.
  - simpl. split; [done|]. intros x. rewrite elem_of_nil. tauto.
  - destruct (add_card_spec collected links href Hnd Hdis) as [Hnd1 Hin1].
    destruct (IH (add_card collected links href) Hnd1) as [Hnd2 Hin2].
    { intros x Hx. apply Hin1 in Hx. destruct Hx as [?|[_ ?]]; auto. }
    split; [exact Hnd2|]. intros x.
    change (fold_left (add_card collected) (href :: cards) links)
      with (fold_left (add_card collected) cards (add_card collected links href)).
    rewrite Hin2, Hin1.
    change (omap card_url (href :: cards))
      with (match card_url href with Some y => y :: omap card_url cards
                                | None => omap card_url cards end).
    destruct (card_url href) as [y|]; [rewrite elem_of_cons|]; intuition congruence.
Qed.

(** X2.  [parse_links_from_html] returns, without repeats, exactly the
    product URLs of the page that are not collected yet; each is
    [https://www.lamoda.ru] followed by an [href] that starts with [/p/].
    Parsing the same page again once these links are collected returns
    nothing. *)
Theorem parsed_links_are_the_new_product_urls w html collected :
  let new_links := parse_links_from_html w html collected in
  NoDup new_links
  ∧ (∀ x, x ∈ new_links ↔ x ∈ page_urls w html ∧ x ∉ collected)
  ∧ Forall (fun x => ∃ h, x = "https://www.lamoda.ru" +:+ h
                          ∧ String.prefix "/p/" h = true) new_links
  ∧ parse_links_from_html w html (collected ++ new_links) = [].
Proof.
  intros new_links. subst new_links.
  assert (Hurls : page_urls w html
                  = match grid (BeautifulSoup w html) with
                    | None => [] | Some cards => omap card_url cards end).
  { unfold page_urls. by destruct (grid _). }
  assert (Hspec : ∀ c, NoDup (parse_links_from_html w html c)
            ∧ ∀ x, x ∈ parse_links_from_html w html c ↔ x ∈ page_urls w html ∧ x ∉ c).
  { intros c. rewrite Hurls. unfold parse_links_from_html.
    destruct (grid (BeautifulSoup w html)) as [cards|].
    - destruct (fold_add_card_spec c cards []) as [Hnd Hin];
        [apply NoDup_nil_2|by intros x ?%elem_of_nil|].
      split; [done|]. intros x. rewrite Hin, elem_of_nil. tauto.
    - split; [apply NoDup_nil_2|]. intros x. rewrite elem_of_nil. tauto. }
  destruct (Hspec collected) as [Hnd Hin].
  split_and!; [done|done| |].
  - apply Forall_forall. intros x [Hx _]%Hin. revert Hx. rewrite Hurls.
    destruct (grid (BeautifulSoup w html)) as [cards|]; [|by intros ?%elem_of_nil].
    intros (href & _ & Hcard)%list_elem_of_omap. unfold card_url in Hcard.
    destruct href as [h|]; [|done].
    destruct (truthy_str h && String.prefix "/p/" h) eqn:Hh; [|done].
    simplify_eq. exists h. by apply andb_prop in Hh as [_ ?].
  - destruct (Hspec (collected ++ parse_links_from_html w html collected)) as [_ Hin'].
    destruct (parse_links_from_html w html (collected ++ _)) as [|x l] eqn:E; [done|].
    exfalso. assert (Hx : x ∈ x :: l) by left.
    apply Hin' in Hx as [Hx Hnot]. apply Hnot.
    rewrite elem_of_app. destruct (decide (x ∈ collected)); [by left|right].
    apply Hin. done.
Qed.

(** *** Turns and runs *)

(** What one turn of the loop does to the links, the files and the
    requests. *)
Lemma turn_effect w config s :
  let s' := turn_state (loop_body w config s) in
  collected_links s `prefix_of` collected_links s'
  ∧ (cp_links_of (checkpoint_on_disk s) = collected_links s ->
     cp_links_of (checkpoint_on_disk s') = collected_links s')
  ∧ output_on_disk s' = output_on_disk s
  ∧ ((requested (trace s') = requested (trace s)
      ∧ max_links config <= len (collected_links s))
     ∨ (requested (trace s') = requested (trace s) ++ [page_url config (current_page s)]
        ∧ len (collected_links s) < max_links config))
  ∧ (turn_stop (loop_body w config s) = None ->
     current_page s' = current_page s + 1
     ∧ len (collected_links s) < len (collected_links s')
     ∧ requested (trace s')
       = requested (trace s) ++ [page_url config (current_page s)])
  ∧ (turn_stop (loop_body w config s) = Some TargetPageReached ->
     truthy_opt_int (end_page config) = true).
Proof.
  assert (Hone : ∀ tr e, requested (tr ++ [e]) = requested tr ++ requested [e]).
  { intros. apply requested_app. }
  unfold loop_body, get_page_html.
  repeat case_match; simplify_eq/=.
  all: rewrite ?Hone, ?app_nil_r; simpl; rewrite ?app_nil_r.
  all: split_and!; try done; try (by apply prefix_app_r); try discriminate.
  all: try (left; split; [done|lia]).
  all: try (right; split; [done|lia]).
  all: try (intros _; split_and!; try done; unfold len; rewrite ?length_app; simpl; lia).
  all: try (intros _; by repeat match goal with H : _ && _ = true |- _ => apply andb_prop in H as [H ?] end).
Qed.

Lemma while_effect w config fuel s :
  let s' := reached (while_true fuel w config s) in
  collected_links s `prefix_of` collected_links s'
  ∧ (cp_links_of (checkpoint_on_disk s) = collected_links s ->
     cp_links_of (checkpoint_on_disk s') = collected_links s')
  ∧ output_on_disk s' = output_on_disk s
  ∧ (∃ k : nat,
       (k <= Z.to_nat (max_links config - len (collected_links s)))%nat
       ∧ requested (trace s')
         = requested (trace s)
           ++ map (page_url config) (seqZ (current_page s) (Z.of_nat k)))
  ∧ (truthy_opt_int (end_page config) = false ->
     ∀ s1, while_true fuel w config s ≠ inr (TargetPageReached, s1)).
Proof.
  revert s. induction fuel as [|fuel IH]; intros s.
  - simpl. split_and!; [done|done|done| |done].
    exists 0%nat. split; [lia|]. by rewrite app_nil_r.
  - destruct (turn_effect w config s) as (Hpre & Hcp & Hout & Hreq & Hcont & Htarget).
    cbn [while_true].
    destruct (loop_body w config s) as [why s1|s1] eqn:Hturn; simpl in *.
    + split_and!; [done|done|done| |].
      * destruct Hreq as [[-> ?]|[-> ?]].
        -- exists 0%nat. split; [lia|]. by rewrite app_nil_r.
        -- exists 1%nat. split; [lia|]. done.
      * intros Hoff s2 [= -> ->]. rewrite Htarget in Hoff; done.
    + destruct (Hcont eq_refl) as (Hpage & Hlen & Hreq1).
      destruct (IH s1) as (Hpre' & Hcp' & Hout' & (k & Hk & Hreq') & Hnever).
      split_and!.
      * by etrans.
      * auto.
      * congruence.
      * exists (S k). split.
        -- destruct (loop_body_progress _ _ _ _ Hturn) as [? _]. lia.
        -- rewrite Hreq', Hreq1, Hpage, <- app_assoc. f_equal.
           rewrite Nat2Z.inj_succ.
           rewrite (seqZ_cons (current_page s)) by lia. simpl.
           do 3 f_equal; lia.
      * done.
Qed.

(** The state in which the loop starts. *)
Lemma loop_start config cp out :
  collected_links (started config cp out) = cp_links_of cp
  ∧ current_page (started config cp out) = first_page config cp
  ∧ checkpoint_on_disk (started config cp out) = cp
  ∧ output_on_disk (started config cp out) = out
  ∧ requested (trace (started config cp out)) = [].
Proof.
  unfold started, load_checkpoint, first_page.
  by destruct cp as [[[links|] [page|]]|].
Qed.

Lemma interrupted_reached turns w config cp out :
  interrupted turns w config (init config cp out)
  = reached (while_true turns w config
               (started config cp out)).
Proof.
  unfold interrupted, started.
  destruct (load_checkpoint config (init config cp out)) as [b s].
  cbv zeta. cbn [snd]. by destruct (while_true _ _ _ _) as [?|[? ?]].
Qed.

Lemma run_reached w config cp out :
  ∃ why s1,
    while_true
      (turns_needed config
         (started config cp out))
      w config
      (started config cp out)
    = inr (why, s1)
    ∧ run w config (init config cp out)
      = Some (why, print (FinishedParsing (len (collected_links s1))) (save_results s1)).
Proof.
  unfold run, started. destruct (load_checkpoint config (init config cp out)) as [b s].
  cbv zeta. cbn [snd].
  destruct (while_true_stops w config
              (turns_needed config (print (StartingFrom (current_page s)) s))
              (print (StartingFrom (current_page s)) s)) as (why & s1 & Hloop).
  { unfold turns_needed. lia. }
  exists why, s1. by rewrite Hloop.
Qed.

Lemma interrupted_keeps w config cp out turns :
  let killed := interrupted turns w config (init config cp out) in
  cp_links_of cp `prefix_of` collected_links killed
  ∧ cp_links_of (checkpoint_on_disk killed) = collected_links killed.
Proof.
  intros killed. subst killed. rewrite interrupted_reached.
  destruct (loop_start config cp out) as (Hlinks & _ & Hcp & _ & _).
  destruct (while_effect w config turns
              (started config cp out))
    as (Hpre & Hagree & _).
  cbv zeta in Hpre, Hagree. rewrite Hlinks in Hpre. split; [done|].
  apply Hagree. by rewrite Hcp, Hlinks.
Qed.

Lemma run_keeps w config cp out :
  ∃ why s',
    run w config (init config cp out) = Some (why, s')
    ∧ cp_links_of cp `prefix_of` collected_links s'
    ∧ cp_links_of (checkpoint_on_disk s') = collected_links s'
    ∧ output_on_disk s' = Some (collected_links s').
Proof.
  destruct (run_reached w config cp out) as (why & s1 & Hloop & Hrun).
  destruct (loop_start config cp out) as (Hlinks & _ & Hcp & _ & _).
  destruct (while_effect w config
              (turns_needed config
                 (started config cp out))
              (started config cp out))
    as (Hpre & Hagree & _).
  cbv zeta in Hpre, Hagree. rewrite Hloop in Hpre, Hagree. cbn [reached] in Hpre, Hagree.
  eexists _, _. split; [exact Hrun|]. simpl.
  rewrite Hlinks in Hpre. split_and!; [done| |done].
  apply Hagree. by rewrite Hcp, Hlinks.
Qed.

(** What [save_checkpoint] writes, [load_checkpoint] reads back: a
    parser started on the file of a state [s] holds the links and the page
    of [s], and says so. *)
Lemma checkpoint_round_trip config s out :
  ∃ s', load_checkpoint config (init config (checkpoint_on_disk (save_checkpoint s)) out)
        = (true, s')
        ∧ collected_links s' = collected_links s
        ∧ current_page s' = current_page s
        ∧ trace s' = [EPrint (LoadedCheckpoint (len (collected_links s)) (current_page s))].
Proof. by eexists. Qed.

(** X3.  Between two turns of the loop the links in the checkpoint file
    are the links held in memory, wherever the run is cut; and the list a
    run writes to the output file is the list in its checkpoint file. *)
Theorem checkpoint_file_holds_the_collected_links w config cp out :
  (∀ turns,
     cp_links_of (checkpoint_on_disk (interrupted turns w config (init config cp out)))
     = collected_links (interrupted turns w config (init config cp out)))
  ∧ ∃ why s',
      run w config (init config cp out) = Some (why, s')
      ∧ output_on_disk s' = Some (cp_links_of (checkpoint_on_disk s')).
Proof.
  split.
  - intros turns. apply interrupted_keeps.
  - destruct (run_keeps w config cp out) as (why & s' & Hrun & _ & Hcp & Hout).
    exists why, s'. by rewrite Hcp.
Qed.

(** X4.  A run keeps the links of the checkpoint file it starts on: its
    output starts with them, in the same order.  For a run that was
    stopped between two turns of its loop these are the links it held, so
    a run started on the file it left loses none of them. *)
Theorem resumed_run_keeps_the_collected_links
    w config cp out turns w' config' out' :
  (∃ why s' added,
     run w' config' (init config' cp out') = Some (why, s')
     ∧ output_on_disk s' = Some (cp_links_of cp ++ added))
  ∧ (let killed := interrupted turns w config (init config cp out) in
     cp_links_of (checkpoint_on_disk killed) = collected_links killed
     ∧ ∃ why s' added,
         run w' config' (init config' (checkpoint_on_disk killed) out')
         = Some (why, s')
         ∧ output_on_disk s' = Some (collected_links killed ++ added)).
Proof.
  assert (Hkeep : ∀ cp0, ∃ why s' added,
             run w' config' (init config' cp0 out') = Some (why, s')
             ∧ output_on_disk s' = Some (cp_links_of cp0 ++ added)).
  { intros cp0.
    destruct (run_keeps w' config' cp0 out')
      as (why & s' & Hrun & [added Hpre] & _ & Hout).
    exists why, s', added. split; [done|]. by rewrite Hout, Hpre. }
  split; [apply Hkeep|].
  intros killed.
  destruct (interrupted_keeps w config cp out turns) as [_ Hcp]. fold killed in Hcp.
  split; [done|].
  destruct (Hkeep (checkpoint_on_disk killed)) as (why & s' & added & Hrun & Hout).
  exists why, s', added. split; [done|]. by rewrite Hout, Hcp.
Qed.

(** X5.  A run requests consecutive pages, starting at the page of the
    checkpoint file (the configured start page without one), and at most
    [max_links] minus the number of loaded links of them: none when the
    checkpoint already holds [max_links] links. *)
Theorem pages_are_requested_in_sequence w config cp out :
  ∃ why s' (k : nat),
    run w config (init config cp out) = Some (why, s')
    ∧ requested (trace s')
      = map (page_url config) (seqZ (first_page config cp) (Z.of_nat k))
    ∧ (k <= Z.to_nat (max_links config - len (cp_links_of cp)))%nat.
Proof.
  destruct (run_reached w config cp out) as (why & s1 & Hloop & Hrun).
  destruct (loop_start config cp out) as (Hlinks & Hpage & _ & _ & Hnone).
  destruct (while_effect w config
              (turns_needed config
                 (started config cp out))
              (started config cp out))
    as (_ & _ & _ & (k & Hk & Hreq) & _).
  rewrite Hloop in Hreq. cbn [reached] in Hreq.
  rewrite Hlinks in Hk. rewrite Hpage, Hnone in Hreq.
  eexists why, _, k. split; [exact Hrun|]. split; [|done].
  unfold print, save_results, emit. cbn [trace].
  rewrite !requested_app. simpl. rewrite !app_nil_r. exact Hreq.
Qed.

(** X6.  With [end_page] unset or 0 a run never stops for having reached
    its target page. *)
Theorem without_end_page_no_target_stop w config cp out :
  truthy_opt_int (end_page config) = false ->
  ∃ why s', run w config (init config cp out) = Some (why, s')
            ∧ why ≠ TargetPageReached.
Proof.
  intros Hoff.
  destruct (run_reached w config cp out) as (why & s1 & Hloop & Hrun).
  destruct (while_effect w config
              (turns_needed config
                 (started config cp out))
              (started config cp out))
    as (_ & _ & _ & _ & Hnever).
  eexists _, _. split; [exact Hrun|].
  intros ->. exact (Hnever Hoff _ Hloop).
Qed.

Lemma without_end_page_no_target_stop_witness :
  ∃ why s', run Shop.catalogue (Shop.collector 1000)
              (init (Shop.collector 1000) None None) = Some (why, s')
            ∧ why ≠ TargetPageReached.
Proof. apply without_end_page_no_target_stop. reflexivity. Defined.
(** *** The form of the links *)

Lemma parsed_links_form w html collected :
  Forall product_url (parse_links_from_html w html collected).
Proof.
  unfold parse_links_from_html.
  destruct (grid (BeautifulSoup w html)) as [cards|]; [|constructor].
  assert (Hfold : ∀ links, Forall product_url links ->
                           Forall product_url (fold_left (add_card collected) cards links)).
  { induction cards as [|href cards IH]; intros links Hlinks; [done|].
    apply IH. unfold add_card. destruct href as [h|]; [|done].
    destruct (truthy_str h && String.prefix "/p/" h) eqn:Hh; [|done].
    cbv zeta. destruct (negb _ && negb _); [|done].
    apply Forall_app. split; [done|]. constructor; [|done].
    exists h. split; [done|]. by apply andb_prop in Hh as [_ ?]. }
  apply Hfold. constructor.
Qed.

Lemma turn_form w config s :
  Forall product_url (collected_links s) ->
  Forall product_url (collected_links (turn_state (loop_body w config s))).
Proof.
  intros Hs. unfold loop_body, get_page_html.
  repeat case_match; simplify_eq/=; try done.
  all: apply Forall_app; split; [done|].
  all: match goal with H : parse_links_from_html _ _ _ = _ |- _ => rewrite <- H end.
  all: apply parsed_links_form.
Qed.

Lemma while_form w config fuel s :
  Forall product_url (collected_links s) ->
  Forall product_url (collected_links (reached (while_true fuel w config s))).
Proof.
  revert s. induction fuel as [|fuel IH]; intros s Hs; [done|].
  cbn [while_true]. pose proof (turn_form w config s Hs) as Hturn.
  destruct (loop_body w config s) as [why s1|s1]; [done|]. by apply IH.
Qed.

Lemma persisted_form cp : persisted cp -> Forall product_url (cp_links_of cp).
Proof.
  induction 1 as [|cp w config out turns Hcp IH]; [constructor|].
  destruct (interrupted_keeps w config cp out turns) as [_ ->].
  rewrite interrupted_reached. apply while_form.
  destruct (loop_start config cp out) as (-> & _). done.
Qed.

(** X7.  Every link in the output file of a run is a product URL of the
    shop, [https://www.lamoda.ru] followed by a path under [/p/], whatever
    runs of the collector, completed or killed, left the checkpoint it
    started from. *)
Theorem output_links_are_product_urls w config cp out :
  persisted cp ->
  ∃ why s' links,
    run w config (init config cp out) = Some (why, s')
    ∧ output_on_disk s' = Some links
    ∧ Forall product_url links.
Proof.
  intros Hcp.
  destruct (run_reached w config cp out) as (why & s1 & Hloop & Hrun).
  eexists why, _, (collected_links s1). split; [exact Hrun|]. split; [done|].
  pose proof (while_form w config (turns_needed config (started config cp out))
                (started config cp out)) as Hform.
  rewrite Hloop in Hform. apply Hform.
  destruct (loop_start config cp out) as (-> & _). by apply persisted_form.
Qed.

Lemma output_links_are_product_urls_witness :
  ∃ why s' links,
    run Shop.catalogue (Shop.collector 1000)
      (init (Shop.collector 1000) Shop.after_page_one None) = Some (why, s')
    ∧ output_on_disk s' = Some links
    ∧ Forall product_url links.
Proof.
  apply output_links_are_product_urls.
  apply (persisted_by_run None Shop.catalogue (Shop.collector 1000) None 1).
  apply persisted_fresh.
Defined.
(** *** Why the loop stopped *)

Lemma turn_guarantee w config s why s' :
  loop_body w config s = Break why s' -> stop_guarantee config why s'.
Proof.
  unfold loop_body, get_page_html.
  repeat case_match; simplify_eq/=; intros [= <- <-]; simpl; try lia.
  all: repeat match goal with
         | H : _ && _ = true |- _ => apply andb_prop in H as [H ?]
         end.
  all: split; [lia|].
  all: destruct (end_page config) as [target|]; [|done].
  all: exists target; simpl in *; split_and!; [done| |lia].
  all: intros ->; done.
Qed.

Lemma while_guarantee w config fuel s why s' :
  while_true fuel w config s = inr (why, s') -> stop_guarantee config why s'.
Proof.
  revert s. induction fuel as [|fuel IH]; intros s; [done|].
  cbn [while_true]. destruct (loop_body w config s) as [why1 s1|s1] eqn:Hturn.
  - intros [= <- <-]. by eapply turn_guarantee.
  - apply IH.
Qed.

(** X8.  What the reason a run stops for tells about the list it writes:
    stopped at the maximum, the list holds at least [max_links] links;
    stopped at the target page, it holds at least [min_links] links and
    the page reached is at or past a non-zero [end_page]; stopped for a
    failed fetch or a page without new links, it holds fewer than
    [max_links] links. *)
Theorem stop_reason_describes_the_output w config cp out :
  ∃ why s' links,
    run w config (init config cp out) = Some (why, s')
    ∧ output_on_disk s' = Some links
    ∧ match why with
      | MaxReached => max_links config <= len links
      | TargetPageReached =>
          min_links config <= len links
          ∧ ∃ target, end_page config = Some target
                      ∧ target ≠ 0
                      ∧ target <= current_page s'
      | FetchFailed | NoNewLinks => len links < max_links config
      end.
Proof.
  destruct (run_reached w config cp out) as (why & s1 & Hloop & Hrun).
  eexists why, _, (collected_links s1). split; [exact Hrun|]. split; [done|].
  pose proof (while_guarantee _ _ _ _ _ _ Hloop) as Hg.
  by destruct why.
Qed.
End CollectorFacts.

(* ================================================================== *)
(** ** The detail fetcher: further properties *)
(* ================================================================== *)

Module FetcherFacts.
Import Details DetailsFacts.
Open Scope py_scope.

(** *** Loading the links *)

Lemma py_slice_to_spec {A} (l : list A) n :
  py_slice_to l n `prefix_of` l
  ∧ (0 <= n -> len (py_slice_to l n) = Z.min n (len l))
  ∧ (n < 0 -> len (py_slice_to l n) = Z.max 0 (len l + n)).
Proof.
  unfold py_slice_to, len. destruct (0 <=? n) eqn:Hn.
  - apply Z.leb_le in Hn. split_and!; [apply prefix_take| |lia].
    intros _. rewrite length_take. lia.
  - apply Z.leb_gt in Hn. split_and!; [apply prefix_take|lia|].
    intros _. rewrite length_take. lia.
Qed.

(** X9.  [load_links] keeps a prefix of the input list: all of it when
    [max_products] is [None] or 0, the first [max_products] links (all,
    when there are fewer) for a positive value, and all but the last
    [-max_products] for a negative one.  It touches neither file nor
    trace. *)
Theorem load_links_truncation config s :
  ∃ s', load_links config s = (Ret tt, s')
        ∧ product_links s' `prefix_of` input_links s
        ∧ match max_products config with
          | None => product_links s' = input_links s
          | Some n =>
              if n =? 0 then product_links s' = input_links s
              else if 0 <? n then len (product_links s') = Z.min n (len (input_links s))
              else len (product_links s') = Z.max 0 (len (input_links s) + n)
          end
        ∧ fs s' = fs s
        ∧ trace s' = trace s.
Proof.
  destruct (load_links_spec config s) as (s' & Hrun & Hlinks & _ & _ & Hfs & Htrace).
  exists s'. split; [done|]. rewrite Hlinks. unfold loaded_links.
  destruct (max_products config) as [n|]; simpl; [|done].
  destruct (py_slice_to_spec (input_links s) n) as (Hpre & Hpos & Hneg).
  destruct (n =? 0) eqn:H0; simpl; [done|].
  apply Z.eqb_neq in H0. split_and!; [done| |done|done].
  destruct (0 <? n) eqn:Hn; [apply Z.ltb_lt in Hn|apply Z.ltb_ge in Hn].
  - apply Hpos. lia.
  - apply Hneg. lia.
Qed.

(** *** Attributes *)

Lemma dict_lookup_set {V} k k' (v : V) d :
  dict_lookup k' (dict_set k v d)
  = if String.eqb k k' then Some v else dict_lookup k' d.
Proof.
  induction d as [|[k0 v0] d IH]; simpl; [done|].
  destruct (String.eqb_spec k0 k) as [->|Hk0]; simpl.
  - by destruct (String.eqb_spec k k').
  - rewrite IH. destruct (String.eqb_spec k0 k') as [->|?]; [|done].
    by destruct (String.eqb_spec k k').
Qed.

Lemma dict_set_keys {V} k (v : V) d :
  (dict_set k v d).*1 = if bool_decide (k ∈ d.*1) then d.*1 else d.*1 ++ [k].
Proof.
  induction d as [|[k0 v0] d IH]; [done|]. cbn [dict_set].
  destruct (String.eqb_spec k0 k) as [->|Hk0]; rewrite !fmap_cons; cbn [fst].
  - rewrite bool_decide_eq_true_2; [done|left].
  - rewrite IH. case_bool_decide as Hin.
    + rewrite bool_decide_eq_true_2; [done|by right].
    + rewrite bool_decide_eq_false_2; [done|].
      intros [?|?]%elem_of_cons; congruence.
Qed.

Lemma dict_set_NoDup {V} k (v : V) d : NoDup d.*1 -> NoDup (dict_set k v d).*1.
Proof.
  intros Hnd. rewrite dict_set_keys. case_bool_decide as Hin; [done|].
  apply NoDup_app. split_and!; [done| |apply NoDup_singleton].
  by intros x Hx ->%list_elem_of_singleton.
Qed.

Lemma set_attribute_fields pd item :
  url (set_attribute pd item) = url pd
  ∧ description (set_attribute pd item) = description pd.
Proof. by destruct item as [[?|] [?|]]. Qed.

Lemma fold_set_attribute_fields items pd :
  url (fold_left set_attribute items pd) = url pd
  ∧ description (fold_left set_attribute items pd) = description pd.
Proof.
  revert pd. induction items as [|item items IH]; intros pd; [done|].
  simpl. destruct (IH (set_attribute pd item)) as [-> ->].
  apply set_attribute_fields.
Qed.

Lemma fold_set_attribute_spec items pd :
  NoDup (attributes pd).*1 ->
  NoDup (attributes (fold_left set_attribute items pd)).*1
  ∧ ∀ name,
      dict_lookup name (attributes (fold_left set_attribute items pd))
      = match last (named_values name items) with
        | Some val => Some val
        | None => dict_lookup name (attributes pd)
        end.
Proof.
  revert pd. induction items as [|item items IH]; intros pd Hnd; [done|].
  destruct (IH (set_attribute pd item)) as [Hnd' Hlook].
  { destruct item as [[n|] [val|]]; simpl; try done. by apply dict_set_NoDup. }
  split; [exact Hnd'|]. intros name.
  change (fold_left set_attribute (item :: items) pd)
    with (fold_left set_attribute items (set_attribute pd item)).
  rewrite Hlook. unfold named_values.
  destruct item as [[n|] [val|]]; simpl; try done.
  rewrite dict_lookup_set.
  destruct (String.eqb n name); [|done].
  rewrite last_cons. change (list_omap _ _ ?f items) with (omap f items).
  by destruct (last _).
Qed.

(** X10.  On a page that parses, [parse_product_page] returns the page URL
    it was given, the text of the description [div] of the info block when
    both exist, and one attribute per name, whose value is that of the
    last item with that name; without an info block there is no
    description and no attribute.  The state is left as it was. *)
Theorem parsed_description_and_attributes w html page_url s page :
  BeautifulSoup w html = inr page ->
  ∃ pd,
    parse_product_page w html page_url s = (Ret pd, s)
    ∧ url pd = page_url
    ∧ description pd = reviews_and_questions page ≫= description_div
    ∧ NoDup (attributes pd).*1
    ∧ ∀ name,
        dict_lookup name (attributes pd)
        = last (named_values name
                  (default [] (items <$> reviews_and_questions page))).
Proof.
  intros Hpage. unfold parse_product_page, bind, lift. rewrite Hpage. simpl.
  set (pd0 := set_prices _ _).
  assert (H0 : url pd0 = page_url ∧ description pd0 = None ∧ attributes pd0 = []).
  { unfold pd0, set_prices. by repeat case_match. }
  destruct H0 as (Hurl & Hdesc & Hattr).
  destruct (reviews_and_questions page) as [info|]; simpl.
  - eexists. split; [reflexivity|].
    set (pd1 := match description_div info with
                | Some text => set_description text pd0 | None => pd0 end).
    assert (H1 : url pd1 = page_url ∧ description pd1 = description_div info
                 ∧ attributes pd1 = []).
    { unfold pd1. by destruct (description_div info). }
    destruct H1 as (Hurl1 & Hdesc1 & Hattr1).
    destruct (fold_set_attribute_fields (items info) pd1) as [-> ->].
    destruct (fold_set_attribute_spec (items info) pd1) as [Hnd Hlook].
    { rewrite Hattr1. apply NoDup_nil_2. }
    split_and!; [done|done|done|].
    intros name. rewrite Hlook, Hattr1. simpl. by destruct (last _).
  - exists pd0. split; [done|]. rewrite Hattr. split_and!; [done|done|apply NoDup_nil_2|done].
Qed.

Lemma parsed_description_and_attributes_witness :
  ∃ pd,
    parse_product_page Store.online "<html>" "https://shop/p/a" Store.loaded
    = (Ret pd, Store.loaded)
    ∧ description pd = Some "A dress"
    ∧ dict_lookup "Colour" (attributes pd) = Some "blue"
    ∧ dict_lookup "Size" (attributes pd) = None.
Proof.
  destruct (parsed_description_and_attributes Store.online "<html>"
              "https://shop/p/a" Store.loaded Store.product_page eq_refl)
    as (pd & Hrun & _ & Hdesc & _ & Hlook).
  exists pd. split; [exact Hrun|]. split; [exact Hdesc|].
  split; [exact (Hlook "Colour")|exact (Hlook "Size")].
Defined.

(** *** Image URLs *)

Lemma gallery_urls_spec w base_url divs urls s :
  ∃ r, gallery_urls w base_url divs urls s = (r, s)
       ∧ match r with
         | Ret all =>
             ∃ joined, all = urls ++ joined
                       ∧ Forall2 (fun src full => urljoin w base_url src = inr full)
                           (omap div_src divs) joined
         | Raise e =>
             ∃ src, src ∈ omap div_src divs ∧ urljoin w base_url src = inl e
         end.
Proof.
  revert urls. induction divs as [|div divs IH]; intros urls.
  - exists (Ret urls). split; [done|]. exists []. by rewrite app_nil_r.
  - destruct div as [[src|]|]; cbn [gallery_urls omap list_omap div_src]; [|apply IH..].
    destruct (truthy_str src); [|apply IH].
    unfold bind at 1, lift.
    destruct (urljoin w base_url src) as [e|full] eqn:Hjoin; cbn [raise ret].
    + exists (Raise e). split; [done|]. exists src. split; [left|done].
    + destruct (IH (urls ++ [full])) as (r & Hrun & Hr).
      exists r. split; [done|]. destruct r as [all|e].
      * destruct Hr as (joined & -> & Hall). exists (full :: joined).
        split; [by rewrite <- app_assoc|]. by constructor.
      * destruct Hr as (src' & Hin & He). exists src'. split; [by right|done].
Qed.

(** X11.  On a page that parses, [extract_image_urls] joins the [src] of
    every gallery [div] whose image has a non-empty one, in document
    order, and returns the results; it raises when [urljoin] rejects one
    of them.  The state is left as it was. *)
Theorem extract_image_urls_spec w html base_url s page :
  BeautifulSoup w html = inr page ->
  ∃ r, extract_image_urls w html base_url s = (r, s)
       ∧ match r with
         | Ret img_urls =>
             Forall2 (fun src full => urljoin w base_url src = inr full)
               (gallery_srcs page) img_urls
         | Raise e =>
             ∃ src, src ∈ gallery_srcs page ∧ urljoin w base_url src = inl e
         end.
Proof.
  intros Hpage. unfold extract_image_urls, bind, lift. rewrite Hpage. cbn [ret].
  destruct (gallery_urls_spec w base_url (gallery page) [] s) as (r & Hrun & Hr).
  exists r. split; [done|]. unfold gallery_srcs.
  destruct r as [all|e]; [|done].
  by destruct Hr as (joined & -> & Hall).
Qed.

Lemma extract_image_urls_spec_witness :
  ∃ r, extract_image_urls Store.online "<html>" "https://shop/p/a" Store.loaded
       = (r, Store.loaded)
       ∧ match r with
         | Ret img_urls =>
             Forall2 (fun src full =>
                        urljoin Store.online "https://shop/p/a" src = inr full)
               (gallery_srcs Store.product_page) img_urls
         | Raise e =>
             ∃ src, src ∈ gallery_srcs Store.product_page
                    ∧ urljoin Store.online "https://shop/p/a" src = inl e
         end.
Proof. apply extract_image_urls_spec. reflexivity. Defined.

(** *** Saving one product *)

Lemma image_requests_app tr1 tr2 :
  image_requests (tr1 ++ tr2) = image_requests tr1 ++ image_requests tr2.
Proof. apply omap_app. Qed.

Lemma writes_app tr1 tr2 : writes (tr1 ++ tr2) = writes tr1 ++ writes tr2.
Proof. apply omap_app. Qed.

(** One candidate: the requests all go to it, at most one per attempt; the
    image is written from the first answer with status 200, and nothing
    is requested after it. *)
Lemma try_attempts_spec w index img_url attempts s :
  ∃ saved s' evs,
    try_attempts w index img_url attempts s = (Ret saved, s')
    ∧ trace s' = trace s ++ evs
    ∧ if saved then
        ∃ pre body t k,
          evs = pre ++ [EWrite (ProductFile index (image_name w img_url)) (Bytes body)]
          ∧ writes pre = []
          ∧ image_requests pre = replicate (S k) img_url
          ∧ (k < length attempts)%nat
          ∧ requests_image w t img_url = inr (200, body)
      else writes evs = []
           ∧ image_requests evs = replicate (length attempts) img_url.
Proof.
  revert s. induction attempts as [|attempt attempts IH]; intros s.
  - exists false, s, []. by rewrite app_nil_r.
  - cbn [try_attempts]. unfold bind at 1. unfold try_except at 1.
    unfold bind at 1. unfold emit at 1. unfold bind at 1. unfold call at 1.
    unfold bind at 1. unfold ask at 1. cbn [trace clock].
    destruct (requests_image w (clock s) img_url) as [e|[status body]] eqn:Hget;
      cbn [lift raise ret fst snd].
    + unfold bind, print, sleep, emit, ret. cbn [trace].
      match goal with |- context [try_attempts _ _ _ _ ?s1] =>
        destruct (IH s1) as (saved & s' & evs & Hrun & Htrace & Hsaved) end.
      cbn [trace] in Htrace.
      exists saved, s', ([EGetImage img_url; EPrint (AttemptFailed (attempt + 1) img_url e);
                          ESleep 1] ++ evs).
      split; [exact Hrun|]. split.
      { rewrite Htrace, <- !app_assoc. done. }
      destruct saved.
      * destruct Hsaved as (pre & body & t & k & -> & Hw & Hreq & Hk & H200).
        exists ([EGetImage img_url; EPrint (AttemptFailed (attempt + 1) img_url e);
                 ESleep 1] ++ pre), body, t, (S k).
        split_and!; [by rewrite <- app_assoc| | | |done].
        -- rewrite writes_app, Hw. done.
        -- rewrite image_requests_app, Hreq. done.
        -- simpl. lia.
      * destruct Hsaved as [Hw Hreq]. split.
        -- rewrite writes_app, Hw. done.
        -- rewrite image_requests_app, Hreq. done.
    + destruct (status =? 200) eqn:Hstatus.
      * apply Z.eqb_eq in Hstatus as ->.
        unfold bind, write, get, set_fs, emit, ret. cbn [trace fs].
        eexists true, _, _. split; [reflexivity|]. cbn [trace].
        split; [by rewrite <- app_assoc|].
        exists [EGetImage img_url], body, (clock s), 0%nat.
        split_and!; [done|done|done|simpl; lia|done].
      * unfold ret at 1.
        match goal with |- context [try_attempts _ _ _ _ ?s1] =>
          destruct (IH s1) as (saved & s' & evs & Hrun & Htrace & Hsaved) end.
        cbn [trace] in Htrace.
        exists saved, s', ([EGetImage img_url] ++ evs).
        split; [exact Hrun|]. split.
        { rewrite Htrace, <- !app_assoc. done. }
        destruct saved.
        -- destruct Hsaved as (pre & body' & t & k & -> & Hw & Hreq & Hk & H200).
           exists ([EGetImage img_url] ++ pre), body', t, (S k).
           split_and!; [by rewrite <- app_assoc| | | |done].
           ++ rewrite writes_app, Hw. done.
           ++ rewrite image_requests_app, Hreq. done.
           ++ simpl. lia.
        -- destruct Hsaved as [Hw Hreq]. split.
           ++ rewrite writes_app, Hw. done.
           ++ rewrite image_requests_app, Hreq. done.
Qed.

(** The candidates in order, three attempts each, until one is saved. *)
Lemma try_candidates_spec w index img_urls s :
  ∃ saved s' evs,
    try_candidates w index img_urls s = (Ret saved, s')
    ∧ trace s' = trace s ++ evs
    ∧ image_requests evs `prefix_of` all_attempts img_urls
    ∧ if saved then
        ∃ pre img_url body t,
          img_url ∈ img_urls
          ∧ evs = pre ++ [EWrite (ProductFile index (image_name w img_url)) (Bytes body)]
          ∧ writes pre = []
          ∧ last (image_requests pre) = Some img_url
          ∧ requests_image w t img_url = inr (200, body)
      else writes evs = []
           ∧ image_requests evs = all_attempts img_urls.
Proof.
  revert s. induction img_urls as [|img_url img_urls IH]; intros s.
  - exists false, s, []. by rewrite app_nil_r.
  - cbn [try_candidates]. unfold bind at 1.
    destruct (try_attempts_spec w index img_url (range 0 3) s)
      as (saved & s1 & evs1 & -> & Htrace1 & Hsaved1).
    change (all_attempts (img_url :: img_urls))
      with (replicate 3 img_url ++ all_attempts img_urls).
    destruct saved.
    + destruct Hsaved1 as (pre & body & t & k & -> & Hw & Hreq & Hk & H200).
      change (length (range 0 3)) with 3%nat in Hk.
      exists true, s1, (pre ++ [EWrite (ProductFile index (image_name w img_url)) (Bytes body)]).
      split; [done|]. split; [done|]. split.
      * rewrite image_requests_app, Hreq.
        change (image_requests [EWrite _ _]) with (@nil string).
        rewrite app_nil_r. apply prefix_app_r.
        exists (replicate (3 - S k) img_url).
        rewrite <- replicate_add. f_equal. lia.
      * exists pre, img_url, body, t. split_and!; [left|done|done| |done].
        rewrite Hreq. clear. induction k as [|k IHk]; [done|].
        change (replicate (S (S k)) img_url) with (img_url :: replicate (S k) img_url).
        by rewrite last_cons, IHk.
    + destruct Hsaved1 as [Hw1 Hreq1].
      change (length (range 0 3)) with 3%nat in Hreq1.
      destruct (IH s1) as (saved & s' & evs & Hrun & Htrace & Hpre & Hsaved).
      exists saved, s', (evs1 ++ evs). split; [exact Hrun|].
      split; [by rewrite Htrace, Htrace1, <- app_assoc|].
      split; [rewrite image_requests_app, Hreq1; by apply prefix_app|].
      destruct saved.
      * destruct Hsaved as (pre & u & body & t & Hin & -> & Hw & Hlast & H200).
        exists (evs1 ++ pre), u, body, t.
        split_and!; [by right|by rewrite <- app_assoc| | |done].
        -- by rewrite writes_app, Hw1, Hw.
        -- rewrite image_requests_app, last_app, Hlast. done.
      * destruct Hsaved as [Hw Hreq]. split.
        -- by rewrite writes_app, Hw1, Hw.
        -- by rewrite image_requests_app, Hreq1, Hreq.
Qed.

(** [extract_image_urls] reads no state. *)
Lemma extract_image_urls_pure w html base_url s1 s2 :
  ∃ r, extract_image_urls w html base_url s1 = (r, s1)
       ∧ extract_image_urls w html base_url s2 = (r, s2).
Proof.
  unfold extract_image_urls, bind, lift.
  destruct (BeautifulSoup w html) as [e|page]; cbn [raise ret]; [by eexists|].
  generalize (@nil string) as urls.
  induction (gallery page) as [|div divs IH]; intros urls; [by eexists|].
  destruct div as [[src|]|]; cbn [gallery_urls]; [|apply IH..].
  destruct (truthy_str src); [|apply IH].
  unfold bind, lift. destruct (urljoin w base_url src); cbn [raise ret]; [by eexists|].
  apply IH.
Qed.

(** X12.  [save_product] creates the folder first.  If the image URLs can
    be extracted it returns: the candidates are asked in order, at most
    three times each; either one answer had status 200, and then that
    candidate was the last one asked and its body is the one image file
    written, or every candidate was asked three times and [no_image.txt]
    is written; [data.json] with the product comes last.  If the
    extraction raises, so does [save_product], after the folder and
    before any request: no [data.json] is written. *)
Theorem save_product_outcome w config index pd html s :
  ∃ r s' evs,
    save_product w config index pd html s = (r, s')
    ∧ trace s' = trace s ++ evs
    ∧ match extract_image_urls w html (url pd) s with
      | (Ret img_urls, _) =>
          r = Ret tt
          ∧ image_requests evs `prefix_of` all_attempts img_urls
          ∧ ((∃ img_url body t,
                img_url ∈ img_urls
                ∧ requests_image w t img_url = inr (200, body)
                ∧ last (image_requests evs) = Some img_url
                ∧ writes evs
                  = [(ProductDir index, Dir);
                     (ProductFile index (image_name w img_url), Bytes body);
                     (ProductFile index "data.json", Json (asdict pd))])
             ∨ (image_requests evs = all_attempts img_urls
                ∧ writes evs
                  = [(ProductDir index, Dir);
                     (ProductFile index "no_image.txt", Bytes "");
                     (ProductFile index "data.json", Json (asdict pd))]))
      | (Raise e, _) =>
          r = Raise e
          ∧ image_requests evs = []
          ∧ writes evs = [(ProductDir index, Dir)]
      end.
Proof.
  unfold save_product. unfold bind at 1.
  destruct (write (ProductDir index) Dir s) as [r0 s0] eqn:Hmk.
  assert (r0 = Ret tt ∧ trace s0 = trace s ++ [EWrite (ProductDir index) Dir]) as [-> Htrace0].
  { unfold write, bind, get, set_fs, emit in Hmk. by simplify_eq. }
  unfold bind at 1.
  destruct (extract_image_urls_pure w html (url pd) s s0) as (r1 & -> & ->).
  destruct r1 as [img_urls|e].
  - unfold bind at 1.
    destruct (try_candidates_spec w index img_urls s0)
      as (saved & s1 & evs1 & -> & Htrace1 & Hpre & Hsaved).
    destruct saved.
    + destruct Hsaved as (pre & u & body & t & Hin & -> & Hw & Hlast & H200).
      unfold bind, ret, write, get, set_fs, emit. cbn [trace fs].
      eexists _, _, _. split; [reflexivity|]. cbn [trace].
      split; [by rewrite Htrace1, Htrace0, <- !app_assoc|].
      split; [done|]. rewrite image_requests_app in Hpre. simpl in Hpre.
      rewrite app_nil_r in Hpre.
      split.
      * simpl. rewrite !image_requests_app. simpl. by rewrite !app_nil_r.
      * left. exists u, body, t. split_and!; [done|done| |].
        -- simpl. rewrite !image_requests_app. simpl. by rewrite !app_nil_r.
        -- simpl. rewrite !writes_app, Hw. done.
    + destruct Hsaved as [Hw Hreq].
      unfold bind, ret, write, get, set_fs, emit. cbn [trace fs].
      eexists _, _, _. split; [reflexivity|]. cbn [trace].
      split; [by rewrite Htrace1, Htrace0, <- !app_assoc|].
      split; [done|]. split.
      * simpl. rewrite !image_requests_app. simpl. by rewrite !app_nil_r.
      * right. split.
        -- simpl. rewrite !image_requests_app. simpl. by rewrite !app_nil_r.
        -- simpl. rewrite !writes_app, Hw. done.
  - exists (Raise e), s0, [EWrite (ProductDir index) Dir]. done.
Qed.

(** *** The loop, however it ends *)

(** [load_checkpoint] never raises, whatever the file holds. *)
Lemma load_checkpoint_total config s :
  ∃ s' evs,
    load_checkpoint config s = (Ret tt, s')
    ∧ current_index s' = default (current_index s) (resume_index (fs s CheckpointJson))
    ∧ product_links s' = product_links s
    ∧ input_links s' = input_links s
    ∧ fs s' = fs s
    ∧ trace s' = trace s ++ evs
    ∧ Forall inert evs.
Proof.
  unfold load_checkpoint, resume_index, bind at 1, get.
  destruct (fs s CheckpointJson) as [file|] eqn:Hfile.
  - unfold try_except, bind, lift, print, emit, set_current_index, raise, ret.
    destruct (json_load file) as [e|data]; simpl.
    + eexists _, [_]. split_and!; try done. by repeat constructor.
    + destruct (py_get data "last_index") as [e|last]; simpl.
      * eexists _, [_]. split_and!; try done. by repeat constructor.
      * destruct (isinstance_int last); simpl.
        -- eexists _, [_]. split_and!; try done. by repeat constructor.
        -- exists s, []. rewrite app_nil_r. by split_and!.
  - exists s, []. rewrite app_nil_r. by split_and!.
Qed.

Lemma py_index_valid {A} (l : list A) i :
  is_Some (py_index l i) ↔ - len l <= i < len l.
Proof.
  unfold py_index, len. destruct (0 <=? i) eqn:Hi.
  - apply Z.leb_le in Hi. rewrite lookup_lt_is_Some. lia.
  - apply Z.leb_gt in Hi. destruct (0 <=? _) eqn:Hj.
    + apply Z.leb_le in Hj. rewrite lookup_lt_is_Some. lia.
    + apply Z.leb_gt in Hj. split; [by intros [? ?]|lia].
Qed.

(** A turn whose index is outside the list raises before it does anything. *)
Lemma loop_body_out_of_range w config total idx s :
  py_index (product_links s) idx = None ->
  loop_body w config total idx s = (Raise IndexError, s).
Proof. intros Hnone. unfold loop_body, bind, get. by rewrite Hnone. Qed.

(** What the loop does over any list of indices, however it ends. *)
Lemma for_each_outcome w config total links idxs s r s' :
  product_links s = links ->
  for_each idxs (loop_body w config total) s = (r, s') ->
  ∃ evs done,
    trace s' = trace s ++ evs
    ∧ checkpoint_writes evs = map last_index_document done
    ∧ done `sublist_of` visited evs
    ∧ visited evs `prefix_of` idxs
    ∧ Forall (fun i => is_Some (py_index links i)) (visited evs)
    ∧ (r = Ret tt -> visited evs = idxs)
    ∧ (∀ e, r = Raise e -> e = IndexError)
    ∧ product_links s' = links
    ∧ input_links s' = input_links s.
Proof.
  intros Hlinks. revert s Hlinks. induction idxs as [|idx idxs IH]; intros s Hlinks Hrun.
  - injection Hrun as <- <-. exists [], []. rewrite app_nil_r.
    split_and!; try done; apply prefix_nil.
  - cbn [for_each] in Hrun. unfold bind at 1 in Hrun.
    destruct (py_index (product_links s) idx) as [page_url|] eqn:Hidx.
    + destruct (loop_body_spec w config total idx page_url s Hidx)
        as (s1 & evs1 & Hturn & Htr1 & Hvis1 & _ & Hl1 & Hin1 & _ & Hcases).
      rewrite Hturn in Hrun.
      destruct (IH s1 (eq_trans Hl1 Hlinks) Hrun)
        as (evs & done & Htr & Hw & Hsub & Hpre & Hvalid & Hret & Hexn & Hl & Hin).
      assert (Hv : visited (EPrint (Item (idx + 1) total page_url) :: evs1 ++ evs)
                   = idx :: visited evs).
      { change (visited (EPrint (Item (idx + 1) total page_url) :: evs1 ++ evs))
          with ((idx + 1 - 1) :: visited (evs1 ++ evs)).
        rewrite visited_app, Hvis1. simpl. f_equal. lia. }
      assert (Hc : checkpoint_writes (EPrint (Item (idx + 1) total page_url) :: evs1 ++ evs)
                   = checkpoint_writes evs1 ++ checkpoint_writes evs).
      { change (checkpoint_writes (EPrint (Item (idx + 1) total page_url) :: evs1 ++ evs))
          with (checkpoint_writes (evs1 ++ evs)).
        apply checkpoint_writes_app. }
      exists (EPrint (Item (idx + 1) total page_url) :: evs1 ++ evs).
      destruct Hcases as [(_ & Hw1 & _)|(_ & Hw1 & _)].
      * exists (idx :: done). rewrite Hv, Hc, Hw1, Hw.
        split_and!; try done.
        -- rewrite Htr, Htr1, <- app_assoc. done.
        -- by apply sublist_skip.
        -- by apply prefix_cons.
        -- constructor; [|done]. rewrite <- Hlinks, Hidx. by eexists.
        -- intros Hr. by rewrite (Hret Hr).
        -- congruence.
      * exists done. rewrite Hv, Hc, Hw1, Hw.
        split_and!; try done.
        -- rewrite Htr, Htr1, <- app_assoc. done.
        -- by apply sublist_cons.
        -- by apply prefix_cons.
        -- constructor; [|done]. rewrite <- Hlinks, Hidx. by eexists.
        -- intros Hr. by rewrite (Hret Hr).
        -- congruence.
    + rewrite (loop_body_out_of_range _ _ _ _ _ Hidx) in Hrun.
      injection Hrun as <- <-. exists [], []. rewrite app_nil_r.
      split_and!; try done; try apply prefix_nil.
      by intros e [= <-].
Qed.

(** The state in which the loop of a run starts. *)
Lemma loaded_state config input files :
  ∃ s2 evs,
    (∀ A (k : M A),
       (load_links config ;; load_checkpoint config ;; k) (init config input files)
       = k s2)
    ∧ product_links s2 = loaded_links config input
    ∧ input_links s2 = input
    ∧ current_index s2 = first_index config files
    ∧ fs s2 = files
    ∧ trace s2 = evs
    ∧ Forall inert evs.
Proof.
  destruct (load_links_spec config (init config input files))
    as (s1 & Hload & Hl1 & Hin1 & Hc1 & Hfs1 & Htr1).
  destruct (load_checkpoint_total config s1)
    as (s2 & evs & Hcp & Hc2 & Hl2 & Hin2 & Hfs2 & Htr2 & Hevs).
  exists s2, evs. split_and!.
  - intros A k. unfold bind at 1. rewrite Hload. unfold bind at 1. by rewrite Hcp.
  - by rewrite Hl2, Hl1.
  - by rewrite Hin2, Hin1.
  - rewrite Hc2, Hfs1, Hc1. done.
  - by rewrite Hfs2, Hfs1.
  - by rewrite Htr2, Htr1.
  - done.
Qed.

Lemma seqZ_sorted a n : StronglySorted Z.lt (seqZ a n).
Proof.
  destruct (decide (0 <= n)) as [Hn|Hn]; [|rewrite seqZ_nil by lia; constructor].
  revert a. pattern n. apply natlike_ind; [| |done].
  - intros a. rewrite seqZ_nil by lia. constructor.
  - intros m Hm IH a. rewrite seqZ_cons by lia. constructor.
    + replace (Z.pred (Z.succ m)) with m by lia. apply IH.
    + apply Forall_forall. intros x Hx. apply elem_of_seqZ in Hx. lia.
Qed.

Lemma sorted_sublist (l k : list Z) :
  k `sublist_of` l -> StronglySorted Z.lt l -> StronglySorted Z.lt k.
Proof.
  induction 1 as [|x k l Hsub IH|x k l Hsub IH]; intros Hs; [done| |].
  - apply StronglySorted_inv in Hs as [Hs Hall]. constructor; [auto|].
    apply Forall_forall. intros y Hy.
    apply (proj1 (Forall_forall _ _) Hall). by eapply elem_of_sublist.
  - apply StronglySorted_inv in Hs as [Hs _]. auto.
Qed.

Lemma sorted_prefix (l k : list Z) :
  k `prefix_of` l -> StronglySorted Z.lt l -> StronglySorted Z.lt k.
Proof.
  intros [rest ->]. apply sorted_sublist. apply sublist_inserts_r. done.
Qed.

(** The loop part of a run, cut or not. *)
Lemma crawl_cut_outcome turns w config s r s' :
  crawl_cut turns w config s = (r, s') ->
  ∃ evs done,
    trace s' = trace s ++ EPrint (StartingAt (current_index s) (len (product_links s))) :: evs
    ∧ checkpoint_writes evs = map last_index_document done
    ∧ done `sublist_of` visited evs
    ∧ visited evs `prefix_of` range (current_index s) (len (product_links s))
    ∧ Forall (fun i => is_Some (py_index (product_links s) i)) (visited evs)
    ∧ (r = Ret tt ->
       visited evs = take turns (range (current_index s) (len (product_links s)))).
Proof.
  unfold crawl_cut. unfold bind at 1, get. unfold bind at 1, print, emit.
  intros Hrun.
  match type of Hrun with for_each ?idxs _ ?s0 = _ =>
    destruct (for_each_outcome w config _ (product_links s) idxs s0 r s' eq_refl Hrun)
      as (evs & done & Htr & Hw & Hsub & Hpre & Hvalid & Hret & _) end.
  exists evs, done. cbn [trace] in Htr. rewrite Htr, <- app_assoc.
  split_and!; try done.
  etrans; [exact Hpre|]. apply prefix_take.
Qed.

Lemma crawl_outcome w config s r s' :
  crawl w config s = (r, s') ->
  ∃ evs done,
    trace s' = trace s ++ EPrint (StartingAt (current_index s) (len (product_links s))) :: evs
    ∧ checkpoint_writes evs = map last_index_document done
    ∧ done `sublist_of` visited evs
    ∧ visited evs `prefix_of` range (current_index s) (len (product_links s))
    ∧ Forall (fun i => is_Some (py_index (product_links s) i)) (visited evs)
    ∧ (r = Ret tt ->
       visited evs = range (current_index s) (len (product_links s))
       ∧ last evs = Some (EPrint AllProcessed)
       ∧ fs s' CheckpointJson = None)
    ∧ (∀ e, r = Raise e -> e = IndexError).
Proof.
  unfold crawl. unfold bind at 1, get. unfold bind at 1, print, emit.
  unfold bind at 1.
  match goal with |- context [for_each ?idxs ?body ?s0] =>
    destruct (for_each idxs body s0) as [r1 s1] eqn:Hloop;
    destruct (for_each_outcome w config _ (product_links s) idxs s0 r1 s1 eq_refl Hloop)
      as (evs & done & Htr & Hw & Hsub & Hpre & Hvalid & Hret & Hexn & _) end.
  cbn [trace] in Htr. rewrite <- app_assoc in Htr.
  destruct r1 as [[]|e].
  - unfold bind at 1, get. unfold bind, remove, set_fs, get, emit, ret, print, emit.
    destruct (fs s1 CheckpointJson) eqn:Hfile; intros [= <- <-]; cbn [trace fs].
    + exists (evs ++ [ERemove CheckpointJson; EPrint AllProcessed]), done.
      rewrite Htr, <- !app_assoc, checkpoint_writes_app, visited_app, !app_nil_r.
      split_and!; try done.
      intros _. rewrite (Hret eq_refl). split_and!; [done| |].
      * by rewrite last_app.
      * unfold fs_insert. by rewrite decide_True.
    + exists (evs ++ [EPrint AllProcessed]), done.
      rewrite Htr, <- !app_assoc, checkpoint_writes_app, visited_app, !app_nil_r.
      split_and!; try done.
      intros _. rewrite (Hret eq_refl). split_and!; [done| |done].
      by rewrite last_app.
  - intros [= <- <-]. exists evs, done. split_and!; try done.
Qed.

Lemma inert_app_silent evs tail :
  Forall inert evs ->
  visited (evs ++ tail) = visited tail
  ∧ page_requests (evs ++ tail) = page_requests tail
  ∧ checkpoint_writes (evs ++ tail) = checkpoint_writes tail.
Proof.
  intros Hevs. destruct (inert_silent evs Hevs) as (Hv & Hp & Hw).
  by rewrite visited_app, page_requests_app, checkpoint_writes_app, Hv, Hp, Hw.
Qed.

(** X13.  A run that returns leaves no checkpoint file, ends on the
    message that all is processed, and has begun the turn of every index
    from its starting index to the end of the list, in order. *)
Theorem completed_run_leaves_no_checkpoint w config input files s' :
  run w config (init config input files) = (Ret tt, s') ->
  fs s' CheckpointJson = None
  ∧ last (trace s') = Some (EPrint AllProcessed)
  ∧ visited (trace s')
    = range (first_index config files) (len (loaded_links config input)).
Proof.
  rewrite run_unfold.
  destruct (loaded_state config input files)
    as (s2 & evs0 & Hcont & Hl & _ & Hc & _ & Htr0 & Hevs0).
  rewrite Hcont. intros Hrun.
  destruct (crawl_outcome w config s2 _ _ Hrun)
    as (evs & done & Htr & _ & _ & _ & _ & Hret & _).
  destruct (Hret eq_refl) as (Hvis & Hlast & Hgone).
  rewrite Hl, Hc in *. split_and!; [done| |].
  - rewrite Htr, last_app. cbn [last]. rewrite last_cons, Hlast. done.
  - rewrite Htr, Htr0.
    destruct (inert_app_silent evs0
                (EPrint (StartingAt (first_index config files)
                           (len (loaded_links config input))) :: evs) Hevs0)
      as (-> & _ & _).
    exact Hvis.
Qed.

Lemma completed_run_leaves_no_checkpoint_witness :
  fs (run Store.online Store.fetcher
        (init Store.fetcher Store.three_links
           (Store.disk (Some (last_index_document 0))))).2 CheckpointJson = None
  ∧ last (trace (run Store.online Store.fetcher
                   (init Store.fetcher Store.three_links
                      (Store.disk (Some (last_index_document 0))))).2)
    = Some (EPrint AllProcessed)
  ∧ visited (trace (run Store.online Store.fetcher
                      (init Store.fetcher Store.three_links
                         (Store.disk (Some (last_index_document 0))))).2)
    = range (first_index Store.fetcher (Store.disk (Some (last_index_document 0))))
        (len (loaded_links Store.fetcher Store.three_links)).
Proof.
  apply (completed_run_leaves_no_checkpoint Store.online).
  vm_compute. reflexivity.
Defined.

(** X14.  When the index a run starts at, taken from the checkpoint file
    or from the configuration, lies below minus the length of the list,
    the run raises [IndexError] at the first lookup: no turn begins, no
    page is requested and the files are left as found. *)
Theorem start_index_before_the_list_aborts w config input files :
  first_index config files < - len (loaded_links config input) ->
  ∃ s',
    run w config (init config input files) = (Raise IndexError, s')
    ∧ visited (trace s') = []
    ∧ page_requests (trace s') = []
    ∧ fs s' = files.
Proof.
  intros Hlow. rewrite run_unfold.
  destruct (loaded_state config input files)
    as (s2 & evs0 & Hcont & Hl & _ & Hc & Hfs & Htr0 & Hevs0).
  rewrite Hcont.
  unfold crawl. unfold bind at 1, get. unfold bind at 1, print, emit.
  unfold bind at 1. cbv beta zeta. cbn [product_links current_index].
  rewrite Hl, Hc.
  assert (Hrange : ∃ rest, range (first_index config files)
                             (len (loaded_links config input))
                           = first_index config files :: rest).
  { unfold range. rewrite seqZ_cons by (unfold len in *; lia). by eexists. }
  destruct Hrange as [rest ->]. cbn [for_each]. unfold bind at 1.
  rewrite loop_body_out_of_range.
  - eexists. split; [reflexivity|]. cbn [trace fs]. rewrite Htr0.
    destruct (inert_app_silent evs0
                [EPrint (StartingAt (first_index config files)
                           (len (loaded_links config input)))] Hevs0)
      as (-> & -> & _).
    done.
  - cbn [product_links].
    destruct (py_index _ _) eqn:Hidx; [|done].
    assert (Hsome : is_Some (py_index (loaded_links config input)
                               (first_index config files))) by (by eexists).
    apply py_index_valid in Hsome. lia.
Qed.

Lemma start_index_before_the_list_aborts_witness :
  ∃ s',
    run Store.online Store.fetcher
      (init Store.fetcher Store.three_links
         (Store.disk (Some (last_index_document (-5)))))
    = (Raise IndexError, s')
    ∧ visited (trace s') = []
    ∧ page_requests (trace s') = []
    ∧ fs s' = Store.disk (Some (last_index_document (-5))).
Proof. apply start_index_before_the_list_aborts. vm_compute. reflexivity. Defined.

(** X15.  Within a run the checkpoint only moves forward: the indices
    written to the checkpoint file are strictly increasing, and they are
    among the indices whose turn has begun, which follow the range from
    the starting index. *)
Theorem checkpoint_only_moves_forward w config input files r s' :
  run w config (init config input files) = (r, s') ->
  ∃ done,
    checkpoint_writes (trace s') = map last_index_document done
    ∧ done `sublist_of` visited (trace s')
    ∧ visited (trace s')
      `prefix_of` range (first_index config files) (len (loaded_links config input))
    ∧ StronglySorted Z.lt done.
Proof.
  rewrite run_unfold.
  destruct (loaded_state config input files)
    as (s2 & evs0 & Hcont & Hl & _ & Hc & _ & Htr0 & Hevs0).
  rewrite Hcont. intros Hrun.
  destruct (crawl_outcome w config s2 _ _ Hrun)
    as (evs & done & Htr & Hw & Hsub & Hpre & _).
  rewrite Hl, Hc in *. exists done.
  rewrite Htr, Htr0.
  destruct (inert_app_silent evs0
              (EPrint (StartingAt (first_index config files)
                         (len (loaded_links config input))) :: evs) Hevs0)
    as (-> & _ & ->).
  change (checkpoint_writes (EPrint ?m :: evs)) with (checkpoint_writes evs).
  change (visited (EPrint (StartingAt ?a ?b) :: evs)) with (visited evs).
  split_and!; [done|done|done|].
  eapply sorted_sublist; [exact Hsub|].
  eapply sorted_prefix; [exact Hpre|]. apply seqZ_sorted.
Qed.

Lemma checkpoint_only_moves_forward_witness :
  ∃ done,
    checkpoint_writes
      (trace (run Store.online Store.fetcher
                (init Store.fetcher Store.three_links (Store.disk None))).2)
    = map last_index_document done
    ∧ done `sublist_of`
        visited (trace (run Store.online Store.fetcher
                          (init Store.fetcher Store.three_links (Store.disk None))).2)
    ∧ visited (trace (run Store.online Store.fetcher
                        (init Store.fetcher Store.three_links (Store.disk None))).2)
      `prefix_of` range (first_index Store.fetcher (Store.disk None))
                    (len (loaded_links Store.fetcher Store.three_links))
    ∧ StronglySorted Z.lt done.
Proof.
  apply (checkpoint_only_moves_forward Store.online Store.fetcher Store.three_links
           (Store.disk None)
           (run Store.online Store.fetcher
              (init Store.fetcher Store.three_links (Store.disk None))).1).
  apply surjective_pairing.
Defined.

Lemma first_index_after_save files index :
  files CheckpointJson = Some (last_index_document index) ->
  ∀ config, first_index config files = index + 1.
Proof. intros Hfile config. unfold first_index. by rewrite Hfile. Qed.

Lemma last_map_last_index done i :
  last (map last_index_document done) = Some (last_index_document i) ->
  i ∈ done.
Proof.
  induction done as [|j done IH]; [done|].
  change (map last_index_document (j :: done))
    with (last_index_document j :: map last_index_document done).
  rewrite last_cons. destruct (last (map last_index_document done)) eqn:Hlast.
  - intros [= ->]. right. by apply IH.
  - intros [= ->]. left.
Qed.

(** What [save_checkpoint] writes, [load_checkpoint] reads back: a
    parser started on the file written for [index] resumes at
    [index + 1], and says so. *)
Lemma saved_checkpoint_resumes_at_the_next_index config config' index s input :
  ∃ s',
    load_checkpoint config'
      (init config' input (fs (save_checkpoint config index s).2))
    = (Ret tt, s')
    ∧ current_index s' = index + 1
    ∧ trace s' = [EPrint (ResumingFrom (index + 1))].
Proof. by eexists. Qed.

(** X16.  Kill and restart: when a run is killed between two turns after
    it has written [index] to the checkpoint file, the next run over the
    same input returns, and the turns of its loop are those of
    [index + 1] up to the end of the list. *)
Theorem restart_continues_after_the_last_saved_product
    w w' config input files turns s1 i :
  interrupted turns w config (init config input files) = (Ret tt, s1) ->
  last (checkpoint_writes (trace s1)) = Some (last_index_document i) ->
  i ∈ visited (trace s1)
  ∧ ∃ s', run w' config (init config input (fs s1)) = (Ret tt, s')
          ∧ visited (trace s') = range (i + 1) (len (loaded_links config input)).
Proof.
  intros Hcut Hlast.
  destruct (tracked_interrupted turns w config _ _ _ Hcut) as (evs1 & Htr1 & Hfile).
  cbn [init trace fs] in Htr1, Hfile. simpl in Htr1. subst evs1.
  unfold file_after in Hfile. rewrite Hlast in Hfile.
  unfold interrupted in Hcut.
  destruct (loaded_state config input files)
    as (s2 & evs0 & Hcont & Hl & _ & Hc & _ & Htr0 & Hevs0).
  rewrite Hcont in Hcut.
  destruct (crawl_cut_outcome turns w config s2 _ _ Hcut)
    as (evs & done & Htr & Hw & Hsub & _ & Hvalid & _).
  assert (Hvis : visited (trace s1) = visited evs).
  { rewrite Htr, Htr0.
    by destruct (inert_app_silent evs0
                   (EPrint (StartingAt (current_index s2) (len (product_links s2))) :: evs)
                   Hevs0) as (-> & _ & _). }
  assert (Hws : checkpoint_writes (trace s1) = checkpoint_writes evs).
  { rewrite Htr, Htr0.
    by destruct (inert_app_silent evs0
                   (EPrint (StartingAt (current_index s2) (len (product_links s2))) :: evs)
                   Hevs0) as (_ & _ & ->). }
  rewrite Hws, Hw in Hlast. apply last_map_last_index in Hlast.
  assert (Hin : i ∈ visited evs) by (by eapply elem_of_sublist).
  split; [by rewrite Hvis|].
  assert (Hbound : - len (loaded_links config input) <= i + 1).
  { apply (proj1 (Forall_forall _ _) Hvalid) in Hin.
    apply py_index_valid in Hin. rewrite Hl in Hin. lia. }
  destruct (loaded_state config input (fs s1))
    as (s3 & evs3 & Hcont3 & Hl3 & _ & Hc3 & _ & Htr3 & Hevs3).
  rewrite (first_index_after_save _ _ Hfile) in Hc3.
  destruct (crawl_spec w' config _ s3 Hl3) as (s' & evs' & Hrun & Htr' & Hvis' & _).
  { by rewrite Hc3. }
  exists s'. rewrite run_unfold, Hcont3. split; [exact Hrun|].
  rewrite Htr', visited_app, Hvis', Hc3, Htr3.
  destruct (inert_silent evs3 Hevs3) as (-> & _ & _). done.
Qed.

Lemma restart_continues_after_the_last_saved_product_witness :
  1 ∈ visited (trace Store.killed_after_two.2)
  ∧ ∃ s', run Store.offline Store.fetcher
            (init Store.fetcher Store.three_links (fs Store.killed_after_two.2))
          = (Ret tt, s')
          ∧ visited (trace s')
            = range (1 + 1) (len (loaded_links Store.fetcher Store.three_links)).
Proof.
  apply (restart_continues_after_the_last_saved_product Store.online Store.offline
           Store.fetcher Store.three_links (Store.disk None) 2).
  - vm_compute. reflexivity.
  - vm_compute. reflexivity.
Defined.

(** A crawl whose start index lies below the list raises at its first
    lookup. *)
Lemma crawl_below_the_list w config s :
  current_index s < - len (product_links s) ->
  ∃ s',
    crawl w config s = (Raise IndexError, s')
    ∧ trace s'
      = trace s ++ [EPrint (StartingAt (current_index s) (len (product_links s)))]
    ∧ fs s' = fs s.
Proof.
  intros Hlow.
  unfold crawl. unfold bind at 1, get. unfold bind at 1, print, emit.
  unfold bind at 1. cbv beta zeta. cbn [product_links current_index].
  assert (Hrange : ∃ rest, range (current_index s) (len (product_links s))
                           = current_index s :: rest).
  { unfold range. rewrite seqZ_cons by (unfold len in *; lia). by eexists. }
  destruct Hrange as [rest ->]. cbn [for_each]. unfold bind at 1.
  rewrite loop_body_out_of_range.
  - eexists. by split_and!.
  - cbn [product_links].
    destruct (py_index _ _) eqn:Hidx; [|done].
    assert (Hsome : is_Some (py_index (product_links s) (current_index s)))
      by (by eexists).
    apply py_index_valid in Hsome. lia.
Qed.

(** X17.  A run that returned has removed the checkpoint file, so the
    next run starts at the configured start offset, whatever index the
    first one resumed from.  With an offset no less than minus the length
    of the list it returns after the turns of the offset up to the end of
    the list; with an offset below that it raises [IndexError] before any
    turn. *)
Theorem rerun_after_completion_starts_over w w' config input files s1 :
  run w config (init config input files) = (Ret tt, s1) ->
  first_index config (fs s1) = start_from config
  ∧ (- len (loaded_links config input) <= start_from config ->
     ∃ s', run w' config (init config input (fs s1)) = (Ret tt, s')
           ∧ visited (trace s')
             = range (start_from config) (len (loaded_links config input)))
  ∧ (start_from config < - len (loaded_links config input) ->
     ∃ s', run w' config (init config input (fs s1)) = (Raise IndexError, s')
           ∧ visited (trace s') = []
           ∧ page_requests (trace s') = []).
Proof.
  intros Hrun.
  assert (Hgone : fs s1 CheckpointJson = None).
  { rewrite run_unfold in Hrun.
    destruct (loaded_state config input files) as (s2 & evs0 & Hcont & _).
    rewrite Hcont in Hrun.
    destruct (crawl_outcome w config s2 _ _ Hrun) as (evs & done & _ & _ & _ & _ & _ & Hret & _).
    by destruct (Hret eq_refl) as (_ & _ & ?). }
  assert (Hfirst : first_index config (fs s1) = start_from config).
  { unfold first_index. by rewrite Hgone. }
  destruct (loaded_state config input (fs s1))
    as (s3 & evs3 & Hcont3 & Hl3 & _ & Hc3 & _ & Htr3 & Hevs3).
  rewrite Hfirst in Hc3.
  split_and!; [done| |].
  - intros Hbound.
    destruct (crawl_spec w' config _ s3 Hl3) as (s' & evs' & Hrun' & Htr' & Hvis' & _).
    { by rewrite Hc3. }
    exists s'. rewrite run_unfold, Hcont3. split; [exact Hrun'|].
    rewrite Htr', visited_app, Hvis', Hc3, Htr3.
    destruct (inert_silent evs3 Hevs3) as (-> & _ & _). done.
  - intros Hlow.
    destruct (crawl_below_the_list w' config s3) as (s' & Hrun' & Htr' & _).
    { by rewrite Hc3, Hl3. }
    exists s'. rewrite run_unfold, Hcont3. split; [exact Hrun'|].
    rewrite Htr', Htr3.
    destruct (inert_app_silent evs3
                [EPrint (StartingAt (current_index s3) (len (product_links s3)))] Hevs3)
      as (-> & -> & _).
    done.
Qed.

(** After the run over three links from an empty disk; and after a run
    resumed from [{last_index: 0}] whose start offset lies a hundred
    links before the end. *)
Lemma rerun_after_completion_starts_over_witness :
  (∃ s', run Store.offline Store.fetcher
           (init Store.fetcher Store.three_links (fs Store.complete_run.2))
         = (Ret tt, s')
         ∧ visited (trace s') = range 0 3)
  ∧ Store.resumed_far_back_run.1 = Ret tt
  ∧ (∃ s', run Store.offline Store.from_far_back
             (init Store.from_far_back Store.three_links (fs Store.resumed_far_back_run.2))
           = (Raise IndexError, s')
           ∧ visited (trace s') = []
           ∧ page_requests (trace s') = []).
Proof.
  split_and!.
  - refine (proj1 (proj2 (rerun_after_completion_starts_over
                            Store.online Store.offline Store.fetcher
                            Store.three_links (Store.disk None) _ _)) _).
    + vm_compute. reflexivity.
    + vm_compute. discriminate.
  - vm_compute. reflexivity.
  - refine (proj2 (proj2 (rerun_after_completion_starts_over
                            Store.online Store.offline Store.from_far_back
                            Store.three_links
                            (Store.disk (Some (last_index_document 0))) _ _)) _).
    + vm_compute. reflexivity.
    + vm_compute. reflexivity.
Defined.

(** *** Files a run leaves alone *)

Lemma keeps_pure S {A} (m : M A) :
  (∀ s r s', m s = (r, s') -> fs s' = fs s) -> keeps S m.
Proof. intros Hm s r s' Hrun p _. by rewrite (Hm _ _ _ Hrun). Qed.

Lemma keeps_ret S {A} (a : A) : keeps S (ret a).
Proof. apply keeps_pure. by intros s r s' [= <- <-]. Qed.

Lemma keeps_raise S {A} e : keeps S (@raise A e).
Proof. apply keeps_pure. by intros s r s' [= <- <-]. Qed.

Lemma keeps_get S : keeps S get.
Proof. apply keeps_pure. by intros s r s' [= <- <-]. Qed.

Lemma keeps_lift S {A} (r : exn + A) : keeps S (lift r).
Proof. destruct r; [apply keeps_raise|apply keeps_ret]. Qed.

Lemma keeps_emit S e : keeps S (emit e).
Proof. apply keeps_pure. by intros s r s' [= <- <-]. Qed.

Lemma keeps_ask S {A} (oracle : nat -> A) : keeps S (ask oracle).
Proof. apply keeps_pure. by intros s r s' [= <- <-]. Qed.

Lemma keeps_set_product_links S links : keeps S (set_product_links links).
Proof. apply keeps_pure. by intros s r s' [= <- <-]. Qed.

Lemma keeps_set_current_index S index : keeps S (set_current_index index).
Proof. apply keeps_pure. by intros s r s' [= <- <-]. Qed.

Lemma keeps_write (S : path -> Prop) p c : ¬ S p -> keeps S (write p c).
Proof.
  intros Hp s r s' [= <- <-] q Hq. cbn [fs]. unfold fs_insert.
  destruct (decide (q = p)) as [->|]; done.
Qed.

Lemma keeps_remove (S : path -> Prop) p : ¬ S p -> keeps S (remove p).
Proof.
  intros Hp s r s' [= <- <-] q Hq. cbn [fs]. unfold fs_insert.
  destruct (decide (q = p)) as [->|]; done.
Qed.

Lemma keeps_bind S {A B} (m : M A) (k : A -> M B) :
  keeps S m -> (∀ a, keeps S (k a)) -> keeps S (bind m k).
Proof.
  intros Hm Hk s r s' Hrun p Hp. unfold bind in Hrun.
  destruct (m s) as [[a|e] s1] eqn:Hms.
  - rewrite (Hk _ _ _ _ Hrun p Hp). by eapply Hm.
  - simplify_eq. by eapply Hm.
Qed.

Lemma keeps_try S {A} (body : M A) (handler : exn -> M A) :
  keeps S body -> (∀ e, keeps S (handler e)) -> keeps S (try_except body handler).
Proof.
  intros Hm Hk s r s' Hrun p Hp. unfold try_except in Hrun.
  destruct (body s) as [[a|e] s1] eqn:Hms.
  - simplify_eq. by eapply Hm.
  - rewrite (Hk _ _ _ _ Hrun p Hp). by eapply Hm.
Qed.

Lemma keeps_for_each S {A} (xs : list A) (body : A -> M unit) :
  (∀ x, x ∈ xs -> keeps S (body x)) -> keeps S (for_each xs body).
Proof.
  induction xs as [|x xs IH]; intros Hbody; cbn [for_each].
  - apply keeps_ret.
  - apply keeps_bind; [apply Hbody; left|intros _; apply IH].
    intros y Hy. apply Hbody. by right.
Qed.

Ltac keeping :=
  repeat first
    [ apply keeps_write;
      first [ assumption
            | match goal with
              | H : ∀ p, folder p = Some _ -> ¬ _ p |- _ => apply H; reflexivity
              end ]
    | apply keeps_ret | apply keeps_raise | apply keeps_get
    | apply keeps_lift | apply keeps_ask | apply keeps_emit
    | apply keeps_set_product_links | apply keeps_set_current_index
    | apply keeps_bind; [|intro]
    | apply keeps_try; [|intro]
    | assumption
    | case_match ].

Lemma keeps_gallery S w base_url divs urls : keeps S (gallery_urls w base_url divs urls).
Proof.
  revert urls. induction divs as [|div divs IH]; intros urls; cbn [gallery_urls].
  - apply keeps_ret.
  - keeping; apply IH.
Qed.

Lemma keeps_attempts (S : path -> Prop) w index img_url attempts :
  (∀ p, folder p = Some index -> ¬ S p) ->
  keeps S (try_attempts w index img_url attempts).
Proof.
  intros Hout. induction attempts as [|attempt attempts IH]; cbn [try_attempts].
  - apply keeps_ret.
  - unfold call, print, sleep. keeping.
Qed.

Lemma keeps_candidates (S : path -> Prop) w index img_urls :
  (∀ p, folder p = Some index -> ¬ S p) ->
  keeps S (try_candidates w index img_urls).
Proof.
  intros Hout. induction img_urls as [|img_url img_urls IH]; cbn [try_candidates].
  - apply keeps_ret.
  - apply keeps_bind; [by apply keeps_attempts|]. intros []; [apply keeps_ret|done].
Qed.

Lemma keeps_loop_body (S : path -> Prop) w config total idx :
  ¬ S CheckpointJson ->
  (∀ p, folder p = Some idx -> ¬ S p) ->
  keeps S (loop_body w config total idx).
Proof.
  intros Hcp Hout.
  unfold loop_body, process, save_product, save_checkpoint, extract_image_urls,
    parse_product_page, get_page_html, restart_driver, call, print, sleep.
  keeping.
  all: first [ apply keeps_gallery | by apply keeps_candidates ].
Qed.

Lemma crawl_keeps w config s r s' p i :
  crawl w config s = (r, s') ->
  folder p = Some i ->
  ¬ (current_index s <= i < len (product_links s)) ->
  fs s' p = fs s p.
Proof.
  intros Hrun Hfolder Hout.
  unfold crawl in Hrun. unfold bind at 1, get in Hrun.
  revert Hrun.
  match goal with |- ?m s = _ -> _ =>
    assert (Hkeeps : keeps (fun q => q = p) m); [|by intros Hrun; apply (Hkeeps _ _ _ Hrun)]
  end.
  assert (Hcp : ¬ CheckpointJson = p) by (by intros <-).
  unfold print.
  apply keeps_bind; [apply keeps_emit|intros _].
  apply keeps_bind.
  - apply keeps_for_each. intros idx Hidx. apply keeps_loop_body; [done|].
    intros q Hq ->. apply Hout.
    apply elem_of_seqZ in Hidx. rewrite Hfolder in Hq. simplify_eq. lia.
  - intros _. apply keeps_bind; [apply keeps_get|intros s1].
    apply keeps_bind; [|intros _; apply keeps_emit].
    destruct (fs s1 CheckpointJson); [by apply keeps_remove|apply keeps_ret].
Qed.

(** X18.  However a run ends, the product folders of the indices outside
    the range from its starting index to the end of the list, and the
    files in them, are left as found: resuming overwrites no result of an
    earlier index. *)
Theorem run_leaves_other_folders_alone w config input files r s' p i :
  run w config (init config input files) = (r, s') ->
  folder p = Some i ->
  ¬ (first_index config files <= i < len (loaded_links config input)) ->
  fs s' p = files p.
Proof.
  intros Hrun Hfolder Hout. rewrite run_unfold in Hrun.
  destruct (loaded_state config input files)
    as (s2 & evs0 & Hcont & Hl & _ & Hc & Hfs & _ & _).
  rewrite Hcont in Hrun. rewrite <- Hfs.
  apply (crawl_keeps _ _ _ _ _ _ _ Hrun Hfolder). by rewrite Hl, Hc.
Qed.

Lemma run_leaves_other_folders_alone_witness :
  fs (run Store.online Store.fetcher
        (init Store.fetcher Store.three_links
           (Store.disk (Some (last_index_document 0))))).2
     (ProductFile 0 "data.json")
  = Store.disk (Some (last_index_document 0)) (ProductFile 0 "data.json").
Proof.
  apply (run_leaves_other_folders_alone Store.online Store.fetcher Store.three_links
           (Store.disk (Some (last_index_document 0)))
           (run Store.online Store.fetcher
              (init Store.fetcher Store.three_links
                 (Store.disk (Some (last_index_document 0))))).1 _ _ 0).
  - apply surjective_pairing.
  - reflexivity.
  - vm_compute. intros [Hle _]. apply Hle. reflexivity.
Defined.

(** *** One page fetch *)




(** *** A checkpoint stands for a saved product *)

Lemma bind_returns {A B} (m : M A) (k : A -> M B) (Q : state -> Prop) s b s' :
  (∀ a s1, k a s1 = (Ret b, s') -> Q s') ->
  bind m k s = (Ret b, s') -> Q s'.
Proof.
  intros Hk. unfold bind. destruct (m s) as [[a|e] s1]; [apply Hk|done].
Qed.

Lemma parse_product_page_url w html page_url s pd s' :
  parse_product_page w html page_url s = (Ret pd, s') -> url pd = page_url.
Proof.
  unfold parse_product_page, bind, lift.
  destruct (BeautifulSoup w html) as [e|page]; [done|]. cbn [ret].
  set (pd0 := set_prices _ _).
  assert (H0 : url pd0 = page_url) by (unfold pd0, set_prices; by repeat case_match).
  destruct (reviews_and_questions page) as [info|]; intros [= <- <-]; [|done].
  destruct (fold_set_attribute_fields (items info)
              (match description_div info with
               | Some text => set_description text pd0
               | None => pd0
               end)) as [-> _].
  by destruct (description_div info).
Qed.

Lemma save_product_data w config index pd html s u s' :
  save_product w config index pd html s = (Ret u, s') ->
  fs s' (ProductFile index "data.json") = Some (Json (asdict pd)).
Proof.
  unfold save_product.
  pose (Q := fun s' => fs s' (ProductFile index "data.json") = Some (Json (asdict pd))).
  intros Hrun. change (Q s'). revert Hrun.
  apply (bind_returns _ _ Q). intros _ s1.
  apply (bind_returns _ _ Q). intros img_urls s2.
  apply (bind_returns _ _ Q). intros saved s3.
  apply (bind_returns _ _ Q). intros _ s4.
  unfold write, bind, get, set_fs, emit. intros [= <- <-]. unfold Q. cbn [fs].
  unfold fs_insert. by rewrite decide_True.
Qed.

Lemma loop_body_saved w config total idx page_url s :
  py_index (product_links s) idx = Some page_url ->
  ∃ s' evs,
    loop_body w config total idx s = (Ret tt, s')
    ∧ trace s' = trace s ++ evs
    ∧ product_links s' = product_links s
    ∧ (checkpoint_writes evs = []
       ∨ (checkpoint_writes evs = [last_index_document idx]
          ∧ ∃ pd, url pd = page_url
                  ∧ fs s' (ProductFile idx "data.json") = Some (Json (asdict pd)))).
Proof.
  intros Hidx.
  destruct (loop_body_spec w config total idx page_url s Hidx)
    as (s' & evs & Hturn & Htr & _ & _ & Hl & _ & _ & Hcases).
  exists s', (EPrint (Item (idx + 1) total page_url) :: evs).
  split; [done|]. split; [done|]. split; [done|].
  change (checkpoint_writes (EPrint (Item (idx + 1) total page_url) :: evs))
    with (checkpoint_writes evs).
  destruct Hcases as [(Hok & Hw & _)|(_ & Hw & _)]; [right|by left].
  split; [done|].
  rewrite (loop_body_unfold _ _ _ _ _ _ Hidx) in Hturn.
  unfold fetched_parsed_saved in Hok.
  destruct (get_page_html w config page_url _) as [[[text|]|e] s1]; try done.
  destruct Hok as [Htext Hok]. rewrite Htext in Hturn. cbn [negb] in Hturn.
  unfold try_except in Hturn. rewrite process_cases in Hturn.
  destruct (parse_product_page w text page_url s1) as [[pd|e] s2] eqn:Hparse; [|done].
  destruct (save_product w config idx pd text s2) as [[u|e] s3] eqn:Hsave; [|done].
  exists pd. split; [by eapply parse_product_page_url|].
  injection Hturn as <-. cbn [fs]. unfold fs_insert.
  rewrite decide_False by done. by eapply save_product_data.
Qed.

Lemma for_each_saved w config total links idxs s r s' :
  NoDup idxs ->
  product_links s = links ->
  for_each idxs (loop_body w config total) s = (r, s') ->
  ∃ evs,
    trace s' = trace s ++ evs
    ∧ ∀ i, last_index_document i ∈ checkpoint_writes evs ->
           ∃ pd page_url,
             py_index links i = Some page_url
             ∧ url pd = page_url
             ∧ fs s' (ProductFile i "data.json") = Some (Json (asdict pd)).
Proof.
  intros Hnd Hlinks. revert s Hlinks.
  induction idxs as [|idx idxs IH]; intros s Hlinks Hrun.
  - injection Hrun as <- <-. exists []. rewrite app_nil_r. split; [done|].
    by intros i ?%elem_of_nil.
  - apply NoDup_cons in Hnd as [Hfresh Hnd].
    cbn [for_each] in Hrun. unfold bind at 1 in Hrun.
    destruct (py_index (product_links s) idx) as [page_url|] eqn:Hidx.
    + destruct (loop_body_saved w config total idx page_url s Hidx)
        as (s1 & evs1 & Hturn & Htr1 & Hl1 & Hsaved).
      rewrite Hturn in Hrun.
      destruct (IH Hnd s1 (eq_trans Hl1 Hlinks) Hrun) as (evs & Htr & Hrest).
      exists (evs1 ++ evs). split; [by rewrite Htr, Htr1, app_assoc|].
      intros i. rewrite checkpoint_writes_app, elem_of_app. intros [Hi|Hi]; [|by apply Hrest].
      destruct Hsaved as [Hw|(Hw & pd & Hurl & Hfile)]; rewrite Hw in Hi.
      * by apply elem_of_nil in Hi.
      * apply list_elem_of_singleton in Hi. injection Hi as ->.
        exists pd, page_url. split; [by rewrite <- Hlinks|]. split; [done|].
        rewrite <- Hfile.
        apply (keeps_for_each (fun p => p = ProductFile idx "data.json") idxs
                 (loop_body w config total)) with (r := r); [|done|done].
        intros x Hx. apply keeps_loop_body; [done|].
        intros p Hp ->. cbn [folder] in Hp. by simplify_eq.
    + rewrite (loop_body_out_of_range _ _ _ _ _ Hidx) in Hrun.
      injection Hrun as <- <-. exists []. rewrite app_nil_r. split; [done|].
      by intros i ?%elem_of_nil.
Qed.

Lemma NoDup_range a b : NoDup (range a b).
Proof. apply NoDup_seqZ. Qed.

Lemma crawl_cut_saved turns w config s r s' i :
  crawl_cut turns w config s = (r, s') ->
  last_index_document i ∈ checkpoint_writes (trace s') ->
  last_index_document i ∈ checkpoint_writes (trace s)
  ∨ ∃ pd page_url,
      py_index (product_links s) i = Some page_url
      ∧ url pd = page_url
      ∧ fs s' (ProductFile i "data.json") = Some (Json (asdict pd)).
Proof.
  unfold crawl_cut. unfold bind at 1, get. unfold bind at 1, print, emit.
  intros Hrun.
  assert (Hnd : NoDup (take turns (range (current_index s) (len (product_links s))))).
  { eapply sublist_NoDup; [apply NoDup_range|apply sublist_take]. }
  destruct (for_each_saved _ _ _ _ _ _ _ _ Hnd eq_refl Hrun)
    as (evs & Htr & Hsaved).
  cbn [product_links] in Hsaved.
  cbn [trace] in Htr. rewrite Htr, !checkpoint_writes_app, !elem_of_app.
  intros [[Hi|Hi]|Hi]; [by left|by apply elem_of_nil in Hi|right; auto].
Qed.

Lemma crawl_saved w config s r s' i :
  crawl w config s = (r, s') ->
  last_index_document i ∈ checkpoint_writes (trace s') ->
  last_index_document i ∈ checkpoint_writes (trace s)
  ∨ ∃ pd page_url,
      py_index (product_links s) i = Some page_url
      ∧ url pd = page_url
      ∧ fs s' (ProductFile i "data.json") = Some (Json (asdict pd)).
Proof.
  unfold crawl. unfold bind at 1, get. unfold bind at 1, print, emit.
  unfold bind at 1.
  match goal with |- context [for_each ?idxs ?body ?s0] =>
    destruct (for_each idxs body s0) as [r1 s1] eqn:Hloop
  end.
  destruct (for_each_saved _ _ _ _ _ _ _ _
              (NoDup_range _ _) eq_refl Hloop) as (evs & Htr & Hsaved).
  cbn [product_links] in Hsaved.
  cbn [trace] in Htr.
  assert (Hstep : last_index_document i ∈ checkpoint_writes (trace s1) ->
                  last_index_document i ∈ checkpoint_writes (trace s)
                  ∨ last_index_document i ∈ checkpoint_writes evs).
  { rewrite Htr, !checkpoint_writes_app, !elem_of_app.
    intros [[Hi|Hi]|Hi]; [by left|by apply elem_of_nil in Hi|by right]. }
  destruct r1 as [[]|e].
  - unfold bind at 1, get. unfold bind, remove, set_fs, get, emit, ret.
    destruct (fs s1 CheckpointJson) eqn:Hfile; intros [= <- <-]; cbn [trace fs].
    + rewrite !checkpoint_writes_app, !elem_of_app.
      intros [[Hi|Hi]|Hi];
        [|by apply elem_of_nil in Hi|by apply elem_of_nil in Hi].
      destruct (Hstep Hi) as [?|Hnew]; [by left|right].
      destruct (Hsaved i Hnew) as (pd & page_url & ? & ? & Hdata).
      exists pd, page_url. split_and!; [done|done|].
      unfold fs_insert. by rewrite decide_False.
    + rewrite !checkpoint_writes_app, !elem_of_app.
      intros [Hi|Hi]; [|by apply elem_of_nil in Hi].
      destruct (Hstep Hi) as [?|Hnew]; [by left|right]. by apply Hsaved.
  - intros [= <- <-] Hi. destruct (Hstep Hi) as [?|Hnew]; [by left|right]. by apply Hsaved.
Qed.

(** X20.  An index written to the checkpoint file stands for a saved
    product: wherever the run is cut, and however it ends, the folder of
    every such index holds a [data.json] for a product whose [url] is the
    link at that index. *)
Theorem checkpointed_products_are_on_disk w config input files i :
  (∀ turns r s',
     interrupted turns w config (init config input files) = (r, s') ->
     last_index_document i ∈ checkpoint_writes (trace s') ->
     ∃ pd page_url,
       py_index (loaded_links config input) i = Some page_url
       ∧ url pd = page_url
       ∧ fs s' (ProductFile i "data.json") = Some (Json (asdict pd)))
  ∧ (∀ r s',
       run w config (init config input files) = (r, s') ->
       last_index_document i ∈ checkpoint_writes (trace s') ->
       ∃ pd page_url,
         py_index (loaded_links config input) i = Some page_url
         ∧ url pd = page_url
         ∧ fs s' (ProductFile i "data.json") = Some (Json (asdict pd))).
Proof.
  destruct (loaded_state config input files)
    as (s2 & evs0 & Hcont & Hl & _ & _ & _ & Htr0 & Hevs0).
  destruct (inert_silent evs0 Hevs0) as (_ & _ & Hw0).
  split.
  - intros turns r s' Hrun Hi. unfold interrupted in Hrun. rewrite Hcont in Hrun.
    destruct (crawl_cut_saved _ _ _ _ _ _ _ Hrun Hi) as [Hold|Hnew].
    + rewrite Htr0, Hw0 in Hold. by apply elem_of_nil in Hold.
    + by rewrite Hl in Hnew.
  - intros r s' Hrun Hi. rewrite run_unfold, Hcont in Hrun.
    destruct (crawl_saved _ _ _ _ _ _ Hrun Hi) as [Hold|Hnew].
    + rewrite Htr0, Hw0 in Hold. by apply elem_of_nil in Hold.
    + by rewrite Hl in Hnew.
Qed.

Lemma checkpointed_products_are_on_disk_witness :
  ∃ pd page_url,
    py_index (loaded_links Store.fetcher Store.three_links) 1 = Some page_url
    ∧ url pd = page_url
    ∧ fs Store.killed_after_two.2 (ProductFile 1 "data.json") = Some (Json (asdict pd)).
Proof.
  destruct (checkpointed_products_are_on_disk Store.online Store.fetcher
              Store.three_links (Store.disk None) 1) as [Hcut _].
  unfold Store.killed_after_two.
  apply (Hcut 2%nat
          (interrupted 2 Store.online Store.fetcher
             (init Store.fetcher Store.three_links (Store.disk None))).1).
  - apply surjective_pairing.
  - vm_compute. right. left.
Defined.

End FetcherFacts.

(* ================================================================== *)
(** ** From the collector to the fetcher *)
(* ================================================================== *)

Module Handover.
Import Details DetailsFacts FetcherFacts.
Open Scope py_scope.

Lemma requests_from {A} (links : list A) a :
  0 <= a ->
  omap (py_index links) (range a (len links)) = drop (Z.to_nat a) links.
Proof.
  intros Ha. unfold range.
  destruct (decide (len links <= a)) as [Hfar|Hnear].
  { rewrite seqZ_nil by lia. rewrite drop_ge; [done|]. unfold len in Hfar. lia. }
  remember (Z.to_nat (len links - a)) as n eqn:Hn.
  replace (len links - a) with (Z.of_nat n) by lia.
  assert (Hlen : Z.of_nat n = len links - a) by lia. clear Hn Hnear.
  revert a Ha Hlen. induction n as [|n IH]; intros a Ha Hlen.
  - rewrite drop_ge; [done|]. unfold len in Hlen. lia.
  - rewrite Nat2Z.inj_succ, seqZ_cons by lia.
    replace (Z.pred (Z.succ (Z.of_nat n))) with (Z.of_nat n) by lia.
    change (omap (py_index links) (a :: ?l))
      with (match py_index links a with
            | Some x => x :: omap (py_index links) l
            | None => omap (py_index links) l
            end).
    unfold py_index at 1. rewrite (proj2 (Z.leb_le 0 a) Ha).
    destruct (lookup_lt_is_Some_2 links (Z.to_nat a)) as [x Hx].
    { unfold len in Hlen. lia. }
    rewrite Hx, (drop_S _ _ _ Hx). f_equal.
    rewrite IH by lia. f_equal. lia.
Qed.

(** X21.  The two scripts in sequence: the fetcher, run over the list the
    collector wrote and started at an index that is not negative, returns
    and requests no product page twice, and every page it requests is a
    product URL of the shop. *)
Theorem pipeline_requests_no_product_twice
    (wl : Links.World) (lconfig : Links.ParserConfig) cp out w config files :
  Links.persisted cp ->
  0 <= first_index config files ->
  ∃ why sl links s',
    Links.run wl lconfig (Links.init lconfig cp out) = Some (why, sl)
    ∧ Links.output_on_disk sl = Some links
    ∧ run w config (init config links files) = (Ret tt, s')
    ∧ NoDup (page_requests (trace s'))
    ∧ Forall Links.product_url (page_requests (trace s')).
Proof.
  intros Hcp Hstart.
  destruct (CollectorFacts.run_reached wl lconfig cp out) as (why & sl & Hloop & Hrun).
  assert (Hlinks : NoDup (Links.collected_links sl)
                   ∧ Forall Links.product_url (Links.collected_links sl)).
  { split.
    - pose proof (LinksFacts.inv_start wl lconfig cp out
                    (LinksFacts.persisted_NoDup cp Hcp)) as Hinv.
      cbv zeta in Hinv. fold (Links.started lconfig cp out) in Hinv.
      pose proof (LinksFacts.inv_while wl lconfig _
                    (Links.turns_needed lconfig (Links.started lconfig cp out))
                    _ Hinv) as Hend.
      rewrite Hloop in Hend. by destruct Hend as (? & _).
    - pose proof (CollectorFacts.while_form wl lconfig
                    (Links.turns_needed lconfig (Links.started lconfig cp out))
                    (Links.started lconfig cp out)) as Hform.
      rewrite Hloop in Hform. apply Hform.
      destruct (CollectorFacts.loop_start lconfig cp out) as (-> & _).
      by apply CollectorFacts.persisted_form. }
  destruct Hlinks as [Hnd Hform].
  set (links := Links.collected_links sl) in *.
  destruct (loaded_state config links files)
    as (s2 & evs0 & Hcont & Hl & _ & Hc & _ & Htr0 & Hevs0).
  destruct (crawl_spec w config _ s2 Hl) as (s' & evs & Hcrawl & Htr & _ & Hreq & _).
  { rewrite Hc. unfold len. lia. }
  eexists why, _, links, s'. split; [exact Hrun|]. split; [done|].
  split; [by rewrite run_unfold, Hcont|].
  rewrite Htr, page_requests_app, Hreq, Hc, Htr0.
  destruct (inert_silent evs0 Hevs0) as (_ & -> & _). cbn [app].
  rewrite requests_from by done.
  assert (Hsub : drop (Z.to_nat (first_index config files)) (loaded_links config links)
                 `sublist_of` links).
  { etrans; [apply sublist_drop|].
    unfold loaded_links. destruct (truthy_opt_int _); [|done].
    unfold py_slice_to. destruct (0 <=? _); apply sublist_take. }
  split.
  - by eapply sublist_NoDup.
  - apply Forall_forall. intros x Hx.
    apply (proj1 (Forall_forall _ _) Hform). by eapply elem_of_sublist.
Qed.
Lemma pipeline_requests_no_product_twice_witness :
  ∃ why sl links s',
    Links.run Shop.catalogue (Shop.collector 1000)
      (Links.init (Shop.collector 1000) None None) = Some (why, sl)
    ∧ Links.output_on_disk sl = Some links
    ∧ run Store.online Store.fetcher (init Store.fetcher links (Store.disk None))
      = (Ret tt, s')
    ∧ NoDup (page_requests (trace s'))
    ∧ Forall Links.product_url (page_requests (trace s')).
Proof.
  apply pipeline_requests_no_product_twice.
  - apply Links.persisted_fresh.
  - vm_compute. discriminate.
Defined.

End Handover.

(* ================================================================== *)
(** ** The supervisor *)
(* ================================================================== *)

Module SupervisorFacts.
Import Supervisor.


Lemma sleeps_app tr1 tr2 : sleeps (tr1 ++ tr2) = sleeps tr1 ++ sleeps tr2.
Proof. apply omap_app. Qed.

Lemma launches_app tr1 tr2 : launches (tr1 ++ tr2) = (launches tr1 + launches tr2)%nat.
Proof. unfold launches. by rewrite omap_app, length_app. Qed.

Lemma sweep_spec kill_proc procs tr :
  ∃ killed,
    (kill_chrome_processes kill_proc procs tr).2 = tr ++ map (fun proc => EKill (pid proc)) killed
    ∧ killed `prefix_of` filter (fun proc => named_chrome proc) procs
    ∧ match (kill_chrome_processes kill_proc procs tr).1 with
      | None => killed = filter (fun proc => named_chrome proc) procs
      | Some e =>
          e ≠ NoSuchProcess
          ∧ ∃ proc, last killed = Some proc ∧ kill_proc proc = Some e
      end.
Proof.
  revert tr. induction procs as [|proc procs IH]; intros tr.
  - exists []. by rewrite app_nil_r.
  - cbn [kill_chrome_processes]. destruct (named_chrome proc) eqn:Hname.
    + rewrite filter_cons_True by (by rewrite Hname).
      assert (Hnext : ∃ killed,
                (kill_chrome_processes kill_proc procs (tr ++ [EKill (pid proc)])).2
                = tr ++ map (fun proc => EKill (pid proc)) (proc :: killed)
                ∧ proc :: killed `prefix_of` proc :: filter (fun proc => named_chrome proc) procs
                ∧ match (kill_chrome_processes kill_proc procs
                           (tr ++ [EKill (pid proc)])).1 with
                  | None => proc :: killed
                            = proc :: filter (fun proc => named_chrome proc) procs
                  | Some e =>
                      e ≠ NoSuchProcess
                      ∧ ∃ proc', last (proc :: killed) = Some proc'
                                 ∧ kill_proc proc' = Some e
                  end).
      { destruct (IH (tr ++ [EKill (pid proc)])) as (killed & Htr & Hpre & Hend).
        exists killed. split; [by rewrite Htr, <- app_assoc|].
        split; [by apply prefix_cons|].
        destruct (kill_chrome_processes _ _ _).1 as [e|]; [|by f_equal].
        destruct Hend as (Hne & proc' & Hlast & Hkill). split; [done|].
        exists proc'. split; [|done]. by rewrite last_cons, Hlast. }
      destruct (kill_proc proc) as [[| |]|] eqn:Hkill;
        [by destruct Hnext as [killed ?]; exists (proc :: killed)| |
        |by destruct Hnext as [killed ?]; exists (proc :: killed)].
      * exists [proc]. split; [done|]. split; [apply prefix_cons, prefix_nil|].
        cbn [fst]. split; [done|]. by exists proc.
      * exists [proc]. split; [done|]. split; [apply prefix_cons, prefix_nil|].
        cbn [fst]. split; [done|]. by exists proc.
    + rewrite filter_cons_False by (rewrite Hname; intros []). apply IH.
Qed.

Lemma sweep_result kill_proc procs tr tr' :
  (kill_chrome_processes kill_proc procs tr).1
  = (kill_chrome_processes kill_proc procs tr').1.
Proof.
  revert tr tr'. induction procs as [|proc procs IH]; intros tr tr'; [done|].
  cbn [kill_chrome_processes]. destruct (named_chrome proc); [|apply IH].
  destruct (kill_proc proc) as [[| |]|]; try done; apply IH.
Qed.


Lemma monitor_turn_spec w round tr :
  ∃ new,
    monitor_turn w round tr = tr ++ new
    ∧ sleeps new = [10%Q]
    ∧ last new = Some (ESleep 10)
    ∧ launches new = (if swept w round then 1 else 0)%nat.
Proof.
  unfold monitor_turn, swept.
  destruct (sweep_spec (kill w round) (process_iter w round) (tr ++ [EPrint Launching]))
    as (killed & Htr & _).
  rewrite (sweep_result _ _ [] (tr ++ [EPrint Launching])).
  destruct (kill_chrome_processes _ _ _) as [raised tr1]. cbn [fst snd] in *. subst tr1.
  assert (Hquiet : ∀ l, sleeps (map (fun proc => EKill (pid proc)) l) = []
                        ∧ launches (map (fun proc => EKill (pid proc)) l) = 0%nat).
  { intros l. induction l as [|proc l [IH1 IH2]]; [done|]. by split. }
  destruct (Hquiet killed) as [Hs Hl].
  destruct raised as [e|]; [|destruct (popen_wait w round) as [e|returncode]].
  all: eexists; split; [rewrite <- !app_assoc; reflexivity|].
  all: rewrite !sleeps_app, !launches_app, !last_app, Hs, Hl; done.
Qed.

(** X23.  Every turn of the loop of [monitor_script] ends with a sleep of
    10 seconds, whatever happened in it, and [subprocess.Popen] is called
    in exactly the turns whose sweep of the chrome processes raised
    nothing. *)
Theorem monitor_script_restarts_after_every_round w rounds :
  sleeps (monitor_script w rounds) = replicate rounds 10%Q
  ∧ launches (monitor_script w rounds)
    = length (filter (fun round => swept w round) (seq 0 rounds))
  ∧ last (monitor_script w (S rounds)) = Some (ESleep 10).
Proof.
  split_and!.
  - induction rounds as [|rounds IH]; [done|]. cbn [monitor_script].
    destruct (monitor_turn_spec w rounds (monitor_script w rounds))
      as (new & -> & Hs & _ & _).
    rewrite sleeps_app, IH, Hs.
    change (replicate (S rounds) 10%Q) with (10%Q :: replicate rounds 10%Q).
    clear. induction rounds as [|rounds IH]; [done|]. simpl. by rewrite IH.
  - induction rounds as [|rounds IH]; [done|]. cbn [monitor_script].
    destruct (monitor_turn_spec w rounds (monitor_script w rounds))
      as (new & -> & _ & _ & Hl).
    rewrite launches_app, IH, Hl, seq_S, filter_app, length_app. f_equal.
    change (0 + rounds)%nat with rounds. destruct (swept w rounds) eqn:Hswept.
    + rewrite filter_cons_True by (by rewrite Hswept). done.
    + rewrite filter_cons_False by (rewrite Hswept; intros []). done.
  - cbn [monitor_script].
    destruct (monitor_turn_spec w rounds (monitor_script w rounds))
      as (new & -> & _ & Hlast & _).
    by rewrite last_app, Hlast.
Qed.
End SupervisorFacts.
